(** * texturedmodels: loading a model with Assimp and drawing it with OpenGL

    A shallow embedding of the translation unit that loads a 3D file,
    uploads every mesh to the graphics device ([init]) and draws the node
    tree once per frame ([nodeTreeTraversal], [display]), followed by the
    properties of that code.

    Conventions of the embedding.
    - [unsigned int] and [int] are 32 bits wide, [size_t] is 64 bits wide;
      every C arithmetic operation is written with its wrap-around.
    - A [float] is carried as its 32-bit pattern: the program only copies
      floats, it never computes with them.
    - A C array reached through a pointer is a list; the count field that
      the structure stores next to the pointer is a separate field, as in
      the Assimp headers.  A null pointer to an array is the empty list.
    - Undefined behaviour (null dereference, access outside an array, signed
      overflow, use of an indeterminate value) is the outcome [Fault].
    - The graphics device, the console, the file system and the import
      library are the environment: the device is a small state machine
      ([GL]), the console is the list of the lines written so far, and what
      the file system and the libraries answer is a parameter ([World]). *)

From Stdlib Require Import ZArith List String Lia Bool.
From stdpp Require Import base numbers list gmap strings.
Import ListNotations.
Local Open Scope Z_scope.

(** ** C integers *)

Module CInt.

Definition INT_MAX : Z := 2 ^ 31 - 1.
Definition UINT_MAX : Z := 2 ^ 32 - 1.

(** Reduction of a mathematical result to [unsigned int] and [size_t]. *)
Definition u32 (z : Z) : Z := z mod 2 ^ 32.
Definition usize (z : Z) : Z := z mod 2 ^ 64.

Definition u32_mul (a b : Z) : Z := u32 (a * b).
Definition usize_mul (a b : Z) : Z := usize (a * b).

(** Conversion of an [unsigned int] to [int] (and to [GLsizei]). *)
Definition int_of_u32 (z : Z) : Z := if z <=? INT_MAX then z else z - 2 ^ 32.

(** Conversion of an [int] to [unsigned int] (and to [GLuint]). *)
Definition u32_of_int (z : Z) : Z := u32 z.

Definition sizeof_uint : Z := 4.
Definition sizeof_float : Z := 4.

End CInt.

(** ** Memory cells

    One 4-byte object.  A block returned by [malloc] starts out
    [Indeterminate]. *)

Inductive cell :=
| Indeterminate
| UInt (u : Z)
| Float (bits : Z).

Definition malloc (bytes : Z) : list cell :=
  repeat Indeterminate (Z.to_nat (bytes / 4)).

(** ** The imported scene (Assimp's structures, the fields the program reads) *)

Module aiVector3D.
Record t := mk { x : Z; y : Z; z : Z }.

(** An array of vectors seen as the flat array of floats it is in memory. *)
Definition cells (v : t) : list cell := [Float (x v); Float (y v); Float (z v)].
End aiVector3D.

Module aiFace.
Record t := mk { mNumIndices : Z; mIndices : list Z }.
End aiFace.

Module aiMesh.
Record t := mk {
  mNumVertices : Z;
  mVertices : list aiVector3D.t;
  mNumFaces : Z;
  mFaces : list aiFace.t
}.

(** [mVertices != NULL && mNumVertices > 0] *)
Definition HasPositions (m : t) : bool :=
  match mVertices m with [] => false | _ :: _ => 0 <? mNumVertices m end.

(** [mFaces != NULL && mNumFaces > 0] *)
Definition HasFaces (m : t) : bool :=
  match mFaces m with [] => false | _ :: _ => 0 <? mNumFaces m end.
End aiMesh.

Module aiNode.
(** A child pointer is [None] when it is null. *)
#[local] Unset Elimination Schemes.
Inductive t := mk {
  mNumMeshes : Z;
  mMeshes : list Z;
  mNumChildren : Z;
  mChildren : list (option t)
}.
#[local] Set Elimination Schemes.
End aiNode.

Module aiScene.
Record t := mk {
  mRootNode : option aiNode.t;
  mNumMeshes : Z;
  mMeshes : list aiMesh.t
}.

(** [mMeshes != NULL && mNumMeshes > 0] *)
Definition HasMeshes (sc : t) : bool :=
  match mMeshes sc with [] => false | _ :: _ => 0 <? mNumMeshes sc end.
End aiScene.

(** ** The graphics device

    OpenGL is not part of the program; this is what the OpenGL specification
    says of the commands the program issues, for the part of the state
    machine they drive: names handed out by [glGen*], vertex array objects
    with their element-array binding and attribute sources, buffer data
    stores, the two bindings of the context, and the list of the commands
    issued so far. *)

Module GL.

Inductive target := ARRAY_BUFFER | ELEMENT_ARRAY_BUFFER.

Record VertexArray := mkVertexArray {
  elementBinding : Z;
  attribSource : gmap Z Z;
  attribEnabled : gset Z
}.

Definition defaultVertexArray : VertexArray := mkVertexArray 0 ∅ ∅.

(** A call as the program makes it: its name and its integer arguments.
    The two calls the renderer is made of have a constructor each. *)
Inductive command :=
| BindVertexArray (array : Z)
| DrawElements (count : Z)
| Command (name : string) (args : list Z).

Record context := mkContext {
  maxVertexAttribs : Z;
  nextVertexArray : Z;
  nextBuffer : Z;
  vertexArrays : gmap Z VertexArray;
  buffers : gmap Z (list cell);
  vertexArrayBinding : Z;
  arrayBufferBinding : Z;
  commands : list command
}.

(** The context as [glutCreateWindow] makes it. *)
Definition fresh (maxAttribs : Z) : context :=
  mkContext maxAttribs 1 1 {[ 0 := defaultVertexArray ]} ∅ 0 0 [].

Definition set_nextVertexArray (n : Z) (c : context) : context :=
  mkContext (maxVertexAttribs c) n (nextBuffer c) (vertexArrays c)
    (buffers c) (vertexArrayBinding c) (arrayBufferBinding c) (commands c).

Definition set_nextBuffer (n : Z) (c : context) : context :=
  mkContext (maxVertexAttribs c) (nextVertexArray c) n (vertexArrays c)
    (buffers c) (vertexArrayBinding c) (arrayBufferBinding c) (commands c).

Definition set_vertexArrays (f : gmap Z VertexArray → gmap Z VertexArray)
    (c : context) : context :=
  mkContext (maxVertexAttribs c) (nextVertexArray c) (nextBuffer c)
    (f (vertexArrays c)) (buffers c) (vertexArrayBinding c)
    (arrayBufferBinding c) (commands c).

Definition set_buffers (f : gmap Z (list cell) → gmap Z (list cell))
    (c : context) : context :=
  mkContext (maxVertexAttribs c) (nextVertexArray c) (nextBuffer c)
    (vertexArrays c) (f (buffers c)) (vertexArrayBinding c)
    (arrayBufferBinding c) (commands c).

Definition set_vertexArrayBinding (v : Z) (c : context) : context :=
  mkContext (maxVertexAttribs c) (nextVertexArray c) (nextBuffer c)
    (vertexArrays c) (buffers c) v (arrayBufferBinding c) (commands c).

Definition set_arrayBufferBinding (b : Z) (c : context) : context :=
  mkContext (maxVertexAttribs c) (nextVertexArray c) (nextBuffer c)
    (vertexArrays c) (buffers c) (vertexArrayBinding c) b (commands c).

Definition issue (cmd : command) (c : context) : context :=
  mkContext (maxVertexAttribs c) (nextVertexArray c) (nextBuffer c)
    (vertexArrays c) (buffers c) (vertexArrayBinding c)
    (arrayBufferBinding c) (commands c ++ [cmd]).

Definition GL_ARRAY_BUFFER : Z := 34962.
Definition GL_ELEMENT_ARRAY_BUFFER : Z := 34963.
Definition enum (tg : target) : Z :=
  match tg with
  | ARRAY_BUFFER => GL_ARRAY_BUFFER
  | ELEMENT_ARRAY_BUFFER => GL_ELEMENT_ARRAY_BUFFER
  end.

(** [glGenVertexArrays(1, &name)] *)
Definition genVertexArray (c : context) : Z * context :=
  let name := nextVertexArray c in
  (name,
   issue (Command "glGenVertexArrays" [1])
     (set_nextVertexArray (name + 1)
        (set_vertexArrays (insert name defaultVertexArray) c))).

(** [glGenBuffers(1, &name)] *)
Definition genBuffer (c : context) : Z * context :=
  let name := nextBuffer c in
  (name, issue (Command "glGenBuffers" [1]) (set_nextBuffer (name + 1) c)).

(** [glBindVertexArray(array)]: zero breaks the binding; a name that
    [glGenVertexArrays] never returned is an error, and an erroneous
    command changes nothing. *)
Definition bindVertexArray (array : Z) (c : context) : context :=
  issue (BindVertexArray array)
    (if array =? 0 then set_vertexArrayBinding 0 c
     else match vertexArrays c !! array with
          | Some _ => set_vertexArrayBinding array c
          | None => c
          end).

Definition setElementBinding (buffer : Z) (va : VertexArray) : VertexArray :=
  mkVertexArray buffer (attribSource va) (attribEnabled va).

Definition enableAttrib (index : Z) (va : VertexArray) : VertexArray :=
  mkVertexArray (elementBinding va) (attribSource va)
    ({[ index ]} ∪ attribEnabled va).

Definition setAttribSource (index buffer : Z) (va : VertexArray) : VertexArray :=
  mkVertexArray (elementBinding va) (<[index := buffer]> (attribSource va))
    (attribEnabled va).

(** [glBindBuffer(target, buffer)]: the element-array binding belongs to
    the vertex array object that is bound. *)
Definition bindBuffer (tg : target) (buffer : Z) (c : context) : context :=
  issue (Command "glBindBuffer" [enum tg; buffer])
    match tg with
    | ARRAY_BUFFER => set_arrayBufferBinding buffer c
    | ELEMENT_ARRAY_BUFFER =>
        set_vertexArrays
          (alter (setElementBinding buffer) (vertexArrayBinding c)) c
    end.

Definition boundBuffer (tg : target) (c : context) : Z :=
  match tg with
  | ARRAY_BUFFER => arrayBufferBinding c
  | ELEMENT_ARRAY_BUFFER =>
      match vertexArrays c !! vertexArrayBinding c with
      | Some va => elementBinding va
      | None => 0
      end
  end.

(** [glBufferData(target, size, data, usage)] with a non-null [data]:
    the store of the buffer bound to [target] becomes a copy of the first
    [size] bytes behind [data].  [None] when [data] is shorter than
    [size] bytes (the copy would read past the end of the source).  With
    no buffer bound the command is an error and changes nothing. *)
Definition bufferData (tg : target) (size : Z) (data : list cell)
    (c : context) : option context :=
  let n := Z.to_nat (size / 4) in
  if (n <=? length data)%nat then
    Some (issue (Command "glBufferData" [enum tg; size])
            (if boundBuffer tg c =? 0 then c
             else set_buffers (<[boundBuffer tg c := take n data]>) c))
  else None.

Definition validAttrib (index : Z) (c : context) : bool :=
  (0 <=? index) && (index <? maxVertexAttribs c).

(** [glEnableVertexAttribArray(index)] *)
Definition enableVertexAttribArray (index : Z) (c : context) : context :=
  issue (Command "glEnableVertexAttribArray" [index])
    (if validAttrib index c then
       set_vertexArrays (alter (enableAttrib index) (vertexArrayBinding c)) c
     else c).

(** [glVertexAttribPointer(index, 3, GL_FLOAT, GL_FALSE, 0, 0)]: the
    attribute reads from the buffer bound to [GL_ARRAY_BUFFER] at the time
    of the call. *)
Definition vertexAttribPointer (index : Z) (c : context) : context :=
  issue (Command "glVertexAttribPointer" [index; 3])
    (if validAttrib index c then
       set_vertexArrays
         (alter (setAttribSource index (arrayBufferBinding c))
                (vertexArrayBinding c)) c
     else c).

(** [glDrawElements(GL_TRIANGLES, count, GL_UNSIGNED_INT, 0)] *)
Definition drawElements (count : Z) (c : context) : context :=
  issue (DrawElements count) c.

(** The element counts of the draw calls among the commands, oldest
    first. *)
Definition draws (cmds : list command) : list Z :=
  flat_map (fun cmd => match cmd with
                       | DrawElements n => [n]
                       | _ => []
                       end) cmds.

(** The data store reached through the element-array binding of a vertex
    array object. *)
Definition elementStore (vao : Z) (c : context) : option (list cell) :=
  va ← vertexArrays c !! vao;
  buffers c !! elementBinding va.

(** The data store an attribute of a vertex array object reads from. *)
Definition attribStore (vao index : Z) (c : context) : option (list cell) :=
  va ← vertexArrays c !! vao;
  b ← attribSource va !! index;
  buffers c !! b.

(** The context without the record of the commands. *)
Definition machine (c : context) : context :=
  mkContext (maxVertexAttribs c) (nextVertexArray c) (nextBuffer c)
    (vertexArrays c) (buffers c) (vertexArrayBinding c)
    (arrayBufferBinding c) [].

End GL.

(** ** The environment

    What the file system, the import library and the graphics driver answer.
    [decimal], [nodeInfo], [meshInfo], [sceneInfo], [shaderInfoLog],
    [programInfoLog] and [openGLErrors] are texts of the diagnostic printers;
    the program never reads them back. *)

Record World := mkWorld {
  (** [ifstream(filename).good()] *)
  fileGood : string → bool;
  (** [importer.ReadFile(filename, aiProcessPreset_TargetRealtime_Quality)],
      [None] for a null result *)
  ReadFile : string → option aiScene.t;
  (** [importer.GetErrorString()] after a failed [ReadFile] *)
  GetErrorString : string → string;
  (** how [operator<<] writes an [unsigned int] *)
  decimal : Z → string;
  (** the lines [printNodeTree] writes for a node itself: name, linked
      meshes, transformation matrix *)
  nodeInfo : aiNode.t → list string;
  (** the lines [printAiSceneInfo] writes for mesh number [i] *)
  meshInfo : Z → aiMesh.t → list string;
  (** the lines [printAiSceneInfo] writes for the materials, lights,
      cameras, textures and animations of a scene *)
  sceneInfo : aiScene.t → list string;
  (** the value of [glCreateShader(type)] *)
  createShader : Z → Z;
  (** the value of [glCreateProgram()] *)
  createProgram : Z;
  (** the value of [glGetAttribLocation(program, name)] *)
  attribLocation : Z → string → Z;
  shaderInfoLog : Z → list string;
  programInfoLog : Z → list string;
  openGLErrors : string → list string;
  (** [glGetString(GL_VERSION)], [glGetString(GL_SHADING_LANGUAGE_VERSION)] *)
  glVersion : string;
  glslVersion : string
}.

(** ** Program state and outcomes *)

Record State := mkState {
  (** the globals of the translation unit *)
  program : Z;
  vPos : Z;
  scene : option aiScene.t;
  vaoArray : option (list cell);
  faceArray : option (list cell);
  (** the environment the program acts on *)
  cout : list string;
  gl : GL.context;
  redisplayPosted : bool
}.

Definition set_program (p : Z) (s : State) : State :=
  mkState p (vPos s) (scene s) (vaoArray s) (faceArray s) (cout s) (gl s)
    (redisplayPosted s).
Definition set_vPos (v : Z) (s : State) : State :=
  mkState (program s) v (scene s) (vaoArray s) (faceArray s) (cout s) (gl s)
    (redisplayPosted s).
Definition set_scene (sc : option aiScene.t) (s : State) : State :=
  mkState (program s) (vPos s) sc (vaoArray s) (faceArray s) (cout s) (gl s)
    (redisplayPosted s).
Definition set_vaoArray (a : option (list cell)) (s : State) : State :=
  mkState (program s) (vPos s) (scene s) a (faceArray s) (cout s) (gl s)
    (redisplayPosted s).
Definition set_faceArray (a : option (list cell)) (s : State) : State :=
  mkState (program s) (vPos s) (scene s) (vaoArray s) a (cout s) (gl s)
    (redisplayPosted s).
Definition set_cout (c : list string) (s : State) : State :=
  mkState (program s) (vPos s) (scene s) (vaoArray s) (faceArray s) c (gl s)
    (redisplayPosted s).
Definition set_gl (g : GL.context) (s : State) : State :=
  mkState (program s) (vPos s) (scene s) (vaoArray s) (faceArray s) (cout s) g
    (redisplayPosted s).
Definition set_redisplayPosted (b : bool) (s : State) : State :=
  mkState (program s) (vPos s) (scene s) (vaoArray s) (faceArray s) (cout s)
    (gl s) b.

(** The globals alone, to say that a call leaves them as they were. *)
Record Globals := mkGlobals {
  g_program : Z;
  g_vPos : Z;
  g_scene : option aiScene.t;
  g_vaoArray : option (list cell);
  g_faceArray : option (list cell)
}.

Definition globals (s : State) : Globals :=
  mkGlobals (program s) (vPos s) (scene s) (vaoArray s) (faceArray s).

(** The state when [main] is entered and the window has been created:
    globals as their initialisers leave them, a fresh context. *)
Definition startup (maxAttribs : Z) : State :=
  mkState 0 0 None None None [] (GL.fresh maxAttribs) false.

Inductive fault :=
| NullPointer (pointer : string)
| OutOfBounds (array : string) (index : Z)
| IndeterminateValue (array : string) (index : Z)
| SignedOverflow (variable : string).

Inductive outcome (A : Type) :=
| Ret (a : A) (s : State)
| Exit (status : Z) (s : State)
| Fault (f : fault).
Arguments Ret {A} a s.
Arguments Exit {A} status s.
Arguments Fault {A} f.

Definition M (A : Type) : Type := State → outcome A.

Definition ret {A} (a : A) : M A := fun s => Ret a s.

Definition bind {A B} (c : M A) (k : A → M B) : M B :=
  fun s => match c s with
           | Ret a s' => k a s'
           | Exit n s' => Exit n s'
           | Fault f => Fault f
           end.

Declare Scope prog_scope.
Delimit Scope prog_scope with prog.
Notation "x <- c ;; k" := (bind c (fun x => k))
  (at level 100, c at next level, right associativity) : prog_scope.
Notation "c ;; k" := (bind c (fun _ => k))
  (at level 100, right associativity) : prog_scope.
Local Open Scope prog_scope.

Definition get : M State := fun s => Ret s s.
Definition modify (f : State → State) : M unit := fun s => Ret tt (f s).
Definition raise {A} (f : fault) : M A := fun _ => Fault f.
Definition exit {A} (status : Z) : M A := fun s => Exit status s.
Definition when (b : bool) (c : M unit) : M unit := if b then c else ret tt.

(** [cout << ... << endl] *)
Definition print (line : string) : M unit :=
  modify (fun s => set_cout (cout s ++ [line]) s).
Definition print_lines (lines : list string) : M unit :=
  modify (fun s => set_cout (cout s ++ lines) s).

(** A command that changes the device. *)
Definition gl_do (f : GL.context → GL.context) : M unit :=
  modify (fun s => set_gl (f (gl s)) s).
Definition gl_call (name : string) (args : list Z) : M unit :=
  gl_do (GL.issue (GL.Command name args)).

(** [a[i]] for an array of the imported scene. *)
Definition index {A} (array : string) (a : list A) (i : Z) : M A :=
  if (0 <=? i) then
    match a !! Z.to_nat i with
    | Some x => ret x
    | None => raise (OutOfBounds array i)
    end
  else raise (OutOfBounds array i).

(** [p[i]] read as an [unsigned int], for a block obtained from [malloc]. *)
Definition load (array : string) (p : option (list cell)) (i : Z) : M Z :=
  match p with
  | None => raise (NullPointer array)
  | Some a =>
      c <- index array a i ;;
      match c with
      | UInt u => ret u
      | _ => raise (IndeterminateValue array i)
      end
  end.

(** The block [p] points to after [p[i] = v]. *)
Definition store (array : string) (p : option (list cell)) (i : Z) (v : Z)
    : M (option (list cell)) :=
  match p with
  | None => raise (NullPointer array)
  | Some a =>
      if (0 <=? i) && (i <? Z.of_nat (length a))
      then ret (Some (<[Z.to_nat i := UInt v]> a))
      else raise (OutOfBounds array i)
  end.

(** [for (unsigned int i = 0; i < n; i++) body], with the locals the body
    updates passed from one iteration to the next. *)
Fixpoint iterate {A} (count : nat) (i : Z) (body : Z → A → M A) (a : A) : M A :=
  match count with
  | O => ret a
  | S count' => a' <- body i a ;; iterate count' (i + 1) body a'
  end.

Definition for_loop {A} (n : Z) (body : Z → A → M A) (a : A) : M A :=
  iterate (Z.to_nat n) 0 body a.

(** [for (unsigned int j = 0; j < node->mNumChildren; j++)
      f(node->mChildren[j]);]
    where [f] does [onNull] on a null pointer and [visit] on a node: the
    loop walks [mChildren] for [mNumChildren] steps. *)
Fixpoint forChildren (onNull : M unit) (visit : aiNode.t → M unit)
    (rest : list (option aiNode.t)) (count : nat) (j : Z) : M unit :=
  match count with
  | O => ret tt
  | S count' =>
      match rest with
      | [] => raise (OutOfBounds "mChildren" j)
      | child :: rest' =>
          match child with
          | None => onNull
          | Some c => visit c
          end ;;
          forChildren onNull visit rest' count' (j + 1)
      end
  end.

(** [i++] on an [int]. *)
Definition int_incr (variable : string) (i : Z) : M Z :=
  if i <? CInt.INT_MAX then ret (i + 1) else raise (SignedOverflow variable).

(** ** The diagnostic printers

    [printNodeTree] and [printAiSceneInfo] (assimp_utilities.hpp, with the
    default option [PRINT_AISCENE_SUMMARY]) only write to the console; what
    is kept of them is which arrays of the scene they read, and where. *)

Definition printNullNode : string := "printNodeTree(): null pointer".

(** [printNodeTree] on a node that is not null. *)
Fixpoint printNode (w : World) (node : aiNode.t) : M unit :=
  for_loop (aiNode.mNumMeshes node)
    (fun i _ => _ <- index "node->mMeshes" (aiNode.mMeshes node) i ;; ret tt)
    tt ;;
  print_lines (nodeInfo w node) ;;
  forChildren (print printNullNode) (printNode w) (aiNode.mChildren node)
    (Z.to_nat (aiNode.mNumChildren node)) 0.

(** [void printNodeTree(const aiNode* node, unsigned int layer)] *)
Definition printNodeTree (w : World) (node : option aiNode.t) : M unit :=
  match node with
  | None => print printNullNode
  | Some n => printNode w n
  end.

(** [void printAiSceneInfo(const aiScene* scene, AiScenePrintOption option)] *)
Definition printAiSceneInfo (w : World) (sc : option aiScene.t) : M unit :=
  match sc with
  | None => print "printAiSceneInfo(): null pointer"
  | Some s =>
      print "" ;;
      print "---------- Node Tree ----------" ;;
      printNodeTree w (aiScene.mRootNode s) ;;
      when (aiScene.HasMeshes s)
        (print "" ;;
         print "---------- Meshes ----------" ;;
         print ("Total number of meshes: " ++ decimal w (aiScene.mNumMeshes s)) ;;
         print "" ;;
         for_loop (aiScene.mNumMeshes s)
           (fun i _ =>
              currentMesh <- index "scene->mMeshes" (aiScene.mMeshes s) i ;;
              print_lines (meshInfo w i currentMesh))
           tt) ;;
      print_lines (sceneInfo w s)
  end.

(** Modelled from the spec: check_error.hpp ([printShaderInfoLog],
    [printShaderProgramInfoLog], [checkOpenGLError]) is not among the
    sources; shader and device errors are logged to the console and are not
    fatal. *)
Definition printShaderInfoLog (w : World) (shader : Z) : M unit :=
  print_lines (shaderInfoLog w shader).
Definition printShaderProgramInfoLog (w : World) (prog : Z) : M unit :=
  print_lines (programInfoLog w prog).
Definition checkOpenGLError (w : World) (place : string) : M unit :=
  print_lines (openGLErrors w place).

(** ** The program *)

Definition objectFileName : string := "Models\dog3.dae".

Definition GL_VERTEX_SHADER : Z := 35633.
Definition GL_FRAGMENT_SHADER : Z := 35632.

(** [bool load3DFile(const char *filename)] *)
Definition load3DFile (w : World) (filename : string) : M bool :=
  if fileGood w filename then
    print ("Loading 3D file " ++ filename) ;;
    modify (set_scene (ReadFile w filename)) ;;
    s <- get ;;
    match scene s with
    | None => print (GetErrorString w filename) ;; ret false
    | Some _ =>
        print ("3D file " ++ filename ++ " loaded.") ;;
        printAiSceneInfo w (scene s) ;;
        ret true
    end
  else
    print "Unable to open the 3D file." ;;
    ret false.

(** The first part of [init]: build the two shaders and the program. *)
Definition buildShaders (w : World) : M unit :=
  let vShaderID := createShader w GL_VERTEX_SHADER in
  gl_call "glCreateShader" [GL_VERTEX_SHADER] ;;
  when (vShaderID =? 0) (print "There is an error creating the vertex shader.") ;;
  let fShaderID := createShader w GL_FRAGMENT_SHADER in
  gl_call "glCreateShader" [GL_FRAGMENT_SHADER] ;;
  when (fShaderID =? 0) (print "There is an error creating the fragment shader.") ;;
  gl_call "glShaderSource" [vShaderID] ;;
  gl_call "glShaderSource" [fShaderID] ;;
  gl_call "glCompileShader" [vShaderID] ;;
  printShaderInfoLog w vShaderID ;;
  gl_call "glCompileShader" [fShaderID] ;;
  printShaderInfoLog w fShaderID ;;
  modify (set_program (createProgram w)) ;;
  gl_call "glCreateProgram" [] ;;
  s <- get ;;
  when (program s =? 0) (print "There is an error creating the shader program.") ;;
  gl_call "glAttachShader" [program s; vShaderID] ;;
  gl_call "glAttachShader" [program s; fShaderID] ;;
  gl_call "glLinkProgram" [program s] ;;
  gl_call "glValidateProgram" [program s] ;;
  printShaderProgramInfoLog w (program s) ;;
  modify (set_vPos (attribLocation w (program s) "vPos")) ;;
  gl_call "glGetAttribLocation" [program s] ;;
  s <- get ;;
  when (vPos s =? -1) (print "There is an error when calling glGetAttribLocation().").

Definition GL_DEPTH_TEST : Z := 2929.
Definition GL_FRONT_AND_BACK : Z := 1032.
Definition GL_LINE : Z := 6913.
Definition GL_COLOR_BUFFER_BIT : Z := 16384.
Definition GL_DEPTH_BUFFER_BIT : Z := 256.
Definition EXIT_SUCCESS : Z := 0.

(** [*p] for one of the global pointers. *)
Definition deref {A} (pointer : string) (p : option A) : M A :=
  match p with
  | Some a => ret a
  | None => raise (NullPointer pointer)
  end.

Definition glGenBuffers : M Z :=
  fun s => let (name, g) := GL.genBuffer (gl s) in Ret name (set_gl g s).

(** [glGenVertexArrays(1, &vaoArray[i])]: the device writes the new name
    into the handle table. *)
Definition glGenVertexArrays_vaoArray (i : Z) : M unit :=
  s <- get ;;
  let (name, g) := GL.genVertexArray (gl s) in
  a <- store "vaoArray" (vaoArray s) i name ;;
  modify (fun s => set_vaoArray a (set_gl g s)).

(** [glBufferData(target, size, data, GL_STATIC_DRAW)]; a null [data] asks
    for a store of [size] bytes with indeterminate contents. *)
Definition glBufferData (tg : GL.target) (size : Z) (data : option (list cell))
    : M unit :=
  fun s =>
    let source := match data with Some a => a | None => malloc size end in
    match GL.bufferData tg size source (gl s) with
    | Some g => Ret tt (set_gl g s)
    | None => Fault (OutOfBounds "glBufferData source" (size / 4))
    end.

(** [init], lines 208-223: the vertex positions of one mesh. *)
Definition uploadPositions (currentMesh : aiMesh.t) : M unit :=
  buffer <- glGenBuffers ;;
  gl_do (GL.bindBuffer GL.ARRAY_BUFFER buffer) ;;
  glBufferData GL.ARRAY_BUFFER
    (CInt.usize_mul (CInt.usize_mul CInt.sizeof_float 3)
                    (aiMesh.mNumVertices currentMesh))
    (Some (flat_map aiVector3D.cells (aiMesh.mVertices currentMesh))) ;;
  s <- get ;;
  gl_do (GL.enableVertexAttribArray (CInt.u32_of_int (vPos s))) ;;
  gl_do (GL.vertexAttribPointer (CInt.u32_of_int (vPos s))).

(** [init], lines 236-237: one index of a face is copied and
    [faceArrayIndex] advances. *)
Definition copyIndex (face : aiFace.t) (k faceArrayIndex : Z) : M Z :=
  v <- index "mIndices" (aiFace.mIndices face) k ;;
  s <- get ;;
  a <- store "faceArray" (faceArray s) faceArrayIndex v ;;
  modify (set_faceArray a) ;;
  int_incr "faceArrayIndex" faceArrayIndex.

(** [init], lines 235-238: the loop over the indices of face [j]. *)
Definition copyFace (currentMesh : aiMesh.t) (j faceArrayIndex : Z) : M Z :=
  face <- index "mFaces" (aiMesh.mFaces currentMesh) j ;;
  for_loop (aiFace.mNumIndices face) (copyIndex face) faceArrayIndex.

(** [init], lines 230-239: [faceArray] is allocated for
    [mNumFaces * mFaces[0].mNumIndices] indices and filled face by face.
    The value is the final [faceArrayIndex]. *)
Definition flattenFaces (currentMesh : aiMesh.t) : M Z :=
  face0 <- index "mFaces" (aiMesh.mFaces currentMesh) 0 ;;
  modify (set_faceArray
            (Some (malloc (CInt.usize_mul
                             (CInt.usize_mul CInt.sizeof_uint
                                             (aiMesh.mNumFaces currentMesh))
                             (aiFace.mNumIndices face0))))) ;;
  for_loop (aiMesh.mNumFaces currentMesh) (copyFace currentMesh) 0.

(** [init], lines 225-251: the face indices of one mesh. *)
Definition uploadFaces (currentMesh : aiMesh.t) : M unit :=
  _ <- flattenFaces currentMesh ;;
  buffer <- glGenBuffers ;;
  gl_do (GL.bindBuffer GL.ELEMENT_ARRAY_BUFFER buffer) ;;
  face0 <- index "mFaces" (aiMesh.mFaces currentMesh) 0 ;;
  s <- get ;;
  glBufferData GL.ELEMENT_ARRAY_BUFFER
    (CInt.usize_mul (CInt.usize_mul CInt.sizeof_uint
                                    (aiMesh.mNumFaces currentMesh))
                    (aiFace.mNumIndices face0))
    (faceArray s).

(** [init], the body of the loop over the meshes (lines 200-256). *)
Definition uploadMesh (i : Z) : M unit :=
  s <- get ;;
  sc <- deref "scene" (scene s) ;;
  currentMesh <- index "scene->mMeshes" (aiScene.mMeshes sc) i ;;
  glGenVertexArrays_vaoArray i ;;
  s <- get ;;
  vao <- load "vaoArray" (vaoArray s) i ;;
  gl_do (GL.bindVertexArray vao) ;;
  when (aiMesh.HasPositions currentMesh) (uploadPositions currentMesh) ;;
  when (aiMesh.HasFaces currentMesh) (uploadFaces currentMesh) ;;
  gl_do (GL.bindVertexArray 0) ;;
  gl_do (GL.bindBuffer GL.ARRAY_BUFFER 0) ;;
  gl_do (GL.bindBuffer GL.ELEMENT_ARRAY_BUFFER 0).

(** [void init()] *)
Definition init (w : World) : M unit :=
  buildShaders w ;;
  fileLoaded <- load3DFile w objectFileName ;;
  if negb fileLoaded then ret tt
  else
    s <- get ;;
    sc <- deref "scene" (scene s) ;;
    modify (set_vaoArray
              (Some (malloc (CInt.usize_mul CInt.sizeof_uint
                                            (aiScene.mNumMeshes sc))))) ;;
    for_loop (aiScene.mNumMeshes sc) (fun i _ => uploadMesh i) tt ;;
    gl_call "glEnable" [GL_DEPTH_TEST] ;;
    gl_call "glPolygonMode" [GL_FRONT_AND_BACK; GL_LINE] ;;
    gl_call "glClearColor" [] ;;
    checkOpenGLError w "init()".

(** [nodeTreeTraversal], the body of the loop over the meshes of a node
    (lines 285-310). *)
Definition drawMesh (node : aiNode.t) (i : Z) : M unit :=
  m <- index "node->mMeshes" (aiNode.mMeshes node) i ;;
  let meshIndex := CInt.int_of_u32 m in
  s <- get ;;
  vao <- load "vaoArray" (vaoArray s) meshIndex ;;
  gl_do (GL.bindVertexArray vao) ;;
  sc <- deref "scene" (scene s) ;;
  currentMesh <- index "scene->mMeshes" (aiScene.mMeshes sc) meshIndex ;;
  let numFaces := aiMesh.mNumFaces currentMesh in
  face0 <- index "mFaces" (aiMesh.mFaces currentMesh) 0 ;;
  let numIndicesPerFace := aiFace.mNumIndices face0 in
  gl_do (GL.drawElements
           (CInt.int_of_u32 (CInt.u32_mul numFaces numIndicesPerFace))) ;;
  gl_do (GL.bindVertexArray 0).

Definition nullNodeMessage : string := "nodeTreeTraversal(): Null node".

(** [nodeTreeTraversal] on a node that is not null. *)
Fixpoint visitNode (node : aiNode.t) : M unit :=
  for_loop (aiNode.mNumMeshes node) (fun i _ => drawMesh node i) tt ;;
  forChildren (print nullNodeMessage) visitNode (aiNode.mChildren node)
    (Z.to_nat (aiNode.mNumChildren node)) 0.

(** [void nodeTreeTraversal(const aiNode* node)] *)
Definition nodeTreeTraversal (node : option aiNode.t) : M unit :=
  match node with
  | None => print nullNodeMessage
  | Some n => visitNode n
  end.

(** [void display()] *)
Definition display : M unit :=
  gl_call "glClear" [Z.lor GL_COLOR_BUFFER_BIT GL_DEPTH_BUFFER_BIT] ;;
  s <- get ;;
  gl_call "glUseProgram" [program s] ;;
  match scene s with
  | Some sc => nodeTreeTraversal (aiScene.mRootNode sc)
  | None => ret tt
  end ;;
  gl_call "glutSwapBuffers" [].

(** [void reshape(int width, int height)] *)
Definition reshape (width height : Z) : M unit :=
  gl_call "glViewport" [0; 0; width; height].

Definition glutPostRedisplay : M unit := modify (set_redisplayPosted true).

(** [void keyboard(unsigned char key, int x, int y)] *)
Definition keyboard (key x y : Z) : M unit :=
  (if key =? 27 then exit EXIT_SUCCESS else ret tt) ;;
  glutPostRedisplay.

(** ** The event loop

    What [glutMainLoop] does with the callbacks [main] registers: each
    event runs its callback, and a posted redisplay runs [display] before
    the next event is taken. *)

Inductive event :=
| Expose
| Reshape (width height : Z)
| Keyboard (key x y : Z).

Definition callback (e : event) : M unit :=
  match e with
  | Expose => glutPostRedisplay
  | Reshape width height => reshape width height
  | Keyboard key x y => keyboard key x y
  end.

Definition dispatch (e : event) : M unit :=
  callback e ;;
  s <- get ;;
  if redisplayPosted s
  then modify (set_redisplayPosted false) ;; display
  else ret tt.

Fixpoint glutMainLoop (events : list event) : M unit :=
  match events with
  | [] => ret tt
  | e :: events' => dispatch e ;; glutMainLoop events'
  end.

(** [main] once the window and its context exist, for the events the
    window receives.  [glutMainLoop] does not return to [main]; the two
    calls of [free] after it are never reached. *)
Definition main (w : World) (events : list event) : M unit :=
  print ("OpenGL version " ++ glVersion w) ;;
  print ("OpenGL Shading Language version " ++ glslVersion w) ;;
  print "" ;;
  checkOpenGLError w "main()" ;;
  init w ;;
  glutMainLoop events.

(** ** Well-formed structures

    The count stored next to an array is the length of the array and fits
    [unsigned int]. *)

Definition counts {A} (n : Z) (a : list A) : bool :=
  (n =? Z.of_nat (length a)) && (n <=? CInt.UINT_MAX).

Definition face_wf (f : aiFace.t) : bool :=
  counts (aiFace.mNumIndices f) (aiFace.mIndices f).

Definition mesh_wf (m : aiMesh.t) : bool :=
  counts (aiMesh.mNumVertices m) (aiMesh.mVertices m)
  && counts (aiMesh.mNumFaces m) (aiMesh.mFaces m)
  && forallb face_wf (aiMesh.mFaces m).

Definition meshes_wf (sc : aiScene.t) : bool :=
  counts (aiScene.mNumMeshes sc) (aiScene.mMeshes sc)
  && forallb mesh_wf (aiScene.mMeshes sc).

Fixpoint node_wf (node : aiNode.t) : bool :=
  counts (aiNode.mNumMeshes node) (aiNode.mMeshes node)
  && counts (aiNode.mNumChildren node) (aiNode.mChildren node)
  && forallb (fun child => match child with
                           | None => true
                           | Some c => node_wf c
                           end) (aiNode.mChildren node).

Definition scene_wf (sc : aiScene.t) : bool :=
  meshes_wf sc
  && match aiScene.mRootNode sc with
     | None => true
     | Some root => node_wf root
     end.

(** ** The vocabulary of the specification *)

(** The indices of a mesh, face after face, each face in index order. *)
Definition faceIndices (m : aiMesh.t) : list Z :=
  concat (map aiFace.mIndices (aiMesh.mFaces m)).

(** The number of indices of all the faces together. *)
Definition indexTotal (m : aiMesh.t) : Z :=
  fold_right Z.add 0 (map aiFace.mNumIndices (aiMesh.mFaces m)).

(** The index count of the first face. *)
Definition firstFaceIndices (m : aiMesh.t) : Z :=
  match aiMesh.mFaces m with
  | [] => 0
  | f :: _ => aiFace.mNumIndices f
  end.

(** Face count times the index count of the first face. *)
Definition allocated (m : aiMesh.t) : Z :=
  aiMesh.mNumFaces m * firstFaceIndices m.

(** Every face has as many indices as the first one. *)
Definition uniformFaces (m : aiMesh.t) : bool :=
  forallb (fun f => aiFace.mNumIndices f =? firstFaceIndices m) (aiMesh.mFaces m).

(** The flat position array of a mesh. *)
Definition positions (m : aiMesh.t) : list cell :=
  flat_map aiVector3D.cells (aiMesh.mVertices m).

(** What the index buffer of a mesh holds: the indices, then whatever part
    of the allocation the copy loop did not reach. *)
Definition indexStore (m : aiMesh.t) : list cell :=
  map UInt (faceIndices m)
  ++ repeat Indeterminate (Z.to_nat (allocated m - indexTotal m)).

(** The copy loop stays inside the allocation and inside [int]. *)
Definition mesh_uploadable (m : aiMesh.t) : bool :=
  negb (aiMesh.HasFaces m)
  || ((indexTotal m <=? allocated m) && (allocated m <=? CInt.INT_MAX)).

Definition scene_uploadable (sc : aiScene.t) : bool :=
  forallb mesh_uploadable (aiScene.mMeshes sc).

(** The flattening loop runs to its end and has written exactly
    [allocated m] entries. *)
Definition fillsExactly (m : aiMesh.t) (s : State) : Prop :=
  ∃ s', flattenFaces m s = Ret (allocated m) s'.

(** Vertex array object [v] of the device holds mesh [m]: its element
    binding names a buffer with the index store of the mesh (no buffer when
    the mesh has no faces), a buffer holds the flat position array of the
    mesh when it has positions, and attribute [vp], when it is a valid
    attribute index, reads from that buffer. *)
Definition holdsMesh (g : GL.context) (vp : Z) (v : Z) (m : aiMesh.t) : Prop :=
  ∃ va, GL.vertexArrays g !! v = Some va
        ∧ (if aiMesh.HasFaces m
           then 1 <= GL.elementBinding va < GL.nextBuffer g
                ∧ GL.buffers g !! GL.elementBinding va = Some (indexStore m)
           else GL.elementBinding va = 0)
        ∧ (aiMesh.HasPositions m = true →
           ∃ b, 1 <= b < GL.nextBuffer g
                ∧ GL.buffers g !! b = Some (positions m)
                ∧ (GL.validAttrib (CInt.u32_of_int vp) g = true →
                   GL.attribSource va !! CInt.u32_of_int vp = Some b)).

(** The handle stored for mesh [i], and the element count of its draw. *)
Definition handle (a : list cell) (i : Z) : Z :=
  match a !! Z.to_nat i with
  | Some (UInt v) => v
  | _ => 0
  end.

Definition drawCount (sc : aiScene.t) (i : Z) : Z :=
  match aiScene.mMeshes sc !! Z.to_nat i with
  | Some m => allocated m
  | None => 0
  end.

(** The calls the specification expects for one attached mesh, for a node
    and, depth first in child order, for its subtree. *)
Definition meshCalls (sc : aiScene.t) (a : list cell) (i : Z) : list GL.command :=
  [GL.BindVertexArray (handle a i); GL.DrawElements (drawCount sc i);
   GL.BindVertexArray 0].

Fixpoint nodeCalls (sc : aiScene.t) (a : list cell) (node : aiNode.t)
    : list GL.command :=
  flat_map (meshCalls sc a) (aiNode.mMeshes node)
  ++ flat_map (fun child => match child with
                            | None => []
                            | Some c => nodeCalls sc a c
                            end) (aiNode.mChildren node).

(** The draws alone: one element count per attached mesh, then the
    children. *)
Fixpoint nodeDraws (sc : aiScene.t) (node : aiNode.t) : list Z :=
  map (drawCount sc) (aiNode.mMeshes node)
  ++ flat_map (fun child => match child with
                            | None => []
                            | Some c => nodeDraws sc c
                            end) (aiNode.mChildren node).

(** The null children of a subtree: one diagnostic line each. *)
Fixpoint nullNodes (node : aiNode.t) : nat :=
  fold_right Nat.add 0%nat
    (map (fun child => match child with
                       | None => 1%nat
                       | Some c => nullNodes c
                       end) (aiNode.mChildren node)).

(** Mesh [i] can be drawn: the index fits [int], its handle has been
    written, the mesh has a first face and its element count fits
    [GLsizei]. *)
Definition attachable (sc : aiScene.t) (a : list cell) (i : Z) : bool :=
  (0 <=? i) && (i <=? CInt.INT_MAX)
  && match a !! Z.to_nat i, aiScene.mMeshes sc !! Z.to_nat i with
     | Some (UInt _), Some m =>
         match aiMesh.mFaces m with
         | [] => false
         | _ :: _ => (0 <=? allocated m) && (allocated m <=? CInt.INT_MAX)
         end
     | _, _ => false
     end.

(** A well-formed subtree all of whose attached meshes can be drawn. *)
Fixpoint drawable (sc : aiScene.t) (a : list cell) (node : aiNode.t) : bool :=
  counts (aiNode.mNumMeshes node) (aiNode.mMeshes node)
  && forallb (attachable sc a) (aiNode.mMeshes node)
  && counts (aiNode.mNumChildren node) (aiNode.mChildren node)
  && forallb (fun child => match child with
                           | None => true
                           | Some c => drawable sc a c
                           end) (aiNode.mChildren node).

(** Every mesh index attached in the subtree is below [bound]. *)
Fixpoint indicesBelow (bound : Z) (node : aiNode.t) : bool :=
  forallb (fun i => (0 <=? i) && (i <? bound)) (aiNode.mMeshes node)
  && forallb (fun child => match child with
                           | None => true
                           | Some c => indicesBelow bound c
                           end) (aiNode.mChildren node).

(** A fault other than an access outside the handle table or outside the
    mesh collection of the scene. *)
Definition lookupsInBounds (f : fault) : Prop :=
  match f with
  | OutOfBounds array _ => array ≠ "vaoArray" ∧ array ≠ "scene->mMeshes"
  | _ => True
  end.

(** The line [load3DFile] writes when the load fails. *)
Definition loadError (w : World) : string :=
  if fileGood w objectFileName then GetErrorString w objectFileName
  else "Unable to open the 3D file.".

(** No event of the list is a press of the Escape key. *)
Definition noEscape (events : list event) : bool :=
  forallb (fun e => match e with
                    | Keyboard key _ _ => negb (key =? 27)
                    | _ => true
                    end) events.

(** ** Tools for the proofs *)

(** Induction on a node tree. *)
Section NodeInduction.
Variable P : aiNode.t → Prop.
Hypothesis step : ∀ nm ms nc cs,
  Forall (fun child => match child with Some c => P c | None => True end) cs →
  P (aiNode.mk nm ms nc cs).

Fixpoint aiNode_ind (node : aiNode.t) : P node :=
  match node with
  | aiNode.mk nm ms nc cs =>
      step nm ms nc cs
        ((fix all (l : list (option aiNode.t))
            : Forall (fun child => match child with
                                   | Some c => P c
                                   | None => True
                                   end) l :=
            match l with
            | [] => List.Forall_nil _
            | child :: l' =>
                @List.Forall_cons _ _ child l'
                  (match child return match child with
                                      | Some c => P c
                                      | None => True
                                      end
                   with
                   | Some c => aiNode_ind c
                   | None => I
                   end) (all l')
            end) cs)
  end.
End NodeInduction.

(** The state after the renderer has issued the calls [d] and written the
    lines [c]: every group of calls it issues ends with
    [glBindVertexArray(0)]. *)
Definition emit (d : list GL.command) (c : list string) (s : State) : State :=
  mkState (program s) (vPos s) (scene s) (vaoArray s) (faceArray s)
    (cout s ++ c)
    (GL.mkContext (GL.maxVertexAttribs (gl s)) (GL.nextVertexArray (gl s))
       (GL.nextBuffer (gl s)) (GL.vertexArrays (gl s)) (GL.buffers (gl s))
       (match d with [] => GL.vertexArrayBinding (gl s) | _ :: _ => 0 end)
       (GL.arrayBufferBinding (gl s)) (GL.commands (gl s) ++ d))
    (redisplayPosted s).

(** A computation that, on all states with the globals [g], either stops
    on the same fault or issues the same calls and lines and changes
    nothing else. *)
Definition uniform (g : Globals) (c : M unit) : Prop :=
  (∃ f, ∀ t, globals t = g → c t = Fault f)
  ∨ (∃ d l, ∀ t, globals t = g → c t = Ret tt (emit d l t)).

(** A computation that, on all states with the globals [g], issues the
    calls [d] and the lines [l] and changes nothing else. *)
Definition issues (g : Globals) (c : M unit) (d : list GL.command)
    (l : list string) : Prop :=
  ∀ t, globals t = g → c t = Ret tt (emit d l t).

(** A computation that keeps the globals [g], never exits, and whose
    faults all satisfy [ok]. *)
Definition keeps {A} (g : Globals) (ok : fault → Prop) (c : M A) : Prop :=
  ∀ s, globals s = g →
       match c s with
       | Ret _ s' => globals s' = g
       | Exit _ _ => False
       | Fault f => ok f
       end.

(** A computation that reads without touching the state. *)
Definition pure {A} (c : M A) : Prop :=
  (∃ x, ∀ s, c s = Ret x s) ∨ (∃ f, ∀ s, c s = Fault f).

(** A block of [capacity] cells of which the first hold [written]. *)
Definition filled (written : list Z) (capacity : nat) : list cell :=
  map UInt written ++ repeat Indeterminate (capacity - length written).

(** What holds once the first [k] meshes of [sc] have been uploaded by the
    loop of [init] entered in state [s0]: mesh [j] has the [j]-th name
    handed out, written to entry [j] of the handle table, and the vertex
    array object of that name holds the mesh. *)
Definition uploadedFirst (sc : aiScene.t) (s0 : State) (k : nat) (s : State)
    : Prop :=
  program s = program s0 ∧ vPos s = vPos s0 ∧ scene s = Some sc
  ∧ cout s = cout s0 ∧ redisplayPosted s = redisplayPosted s0
  ∧ GL.maxVertexAttribs (gl s) = GL.maxVertexAttribs (gl s0)
  ∧ GL.nextVertexArray (gl s) = GL.nextVertexArray (gl s0) + Z.of_nat k
  ∧ GL.nextBuffer (gl s0) <= GL.nextBuffer (gl s)
  ∧ GL.draws (GL.commands (gl s)) = GL.draws (GL.commands (gl s0))
  ∧ ∃ a, vaoArray s = Some a
         ∧ length a = length (aiScene.mMeshes sc)
         ∧ ∀ j m, (j < k)%nat → aiScene.mMeshes sc !! j = Some m →
                  a !! j = Some (UInt (GL.nextVertexArray (gl s0) + Z.of_nat j))
                  ∧ holdsMesh (gl s) (vPos s0)
                      (GL.nextVertexArray (gl s0) + Z.of_nat j) m.

(** ** Example scenes

    The scene of the specification's example has two meshes: mesh 0 with 4
    vertices and 2 triangular faces, mesh 1 with 3 vertices and 1 triangular
    face.  The root draws mesh 0 and has two children: a node that draws
    mesh 1, and a null pointer. *)

Definition exampleMesh0 : aiMesh.t :=
  aiMesh.mk 4 [aiVector3D.mk 0 0 0; aiVector3D.mk 1065353216 0 0;
               aiVector3D.mk 1065353216 1065353216 0;
               aiVector3D.mk 0 1065353216 0]
            2 [aiFace.mk 3 [0; 1; 2]; aiFace.mk 3 [0; 2; 3]].

Definition exampleMesh1 : aiMesh.t :=
  aiMesh.mk 3 [aiVector3D.mk 0 0 0; aiVector3D.mk 1065353216 0 0;
               aiVector3D.mk 0 1065353216 0]
            1 [aiFace.mk 3 [0; 1; 2]].

Definition exampleRoot : aiNode.t :=
  aiNode.mk 1 [0] 2 [Some (aiNode.mk 1 [1] 0 []); None].

Definition exampleScene : aiScene.t :=
  aiScene.mk (Some exampleRoot) 2 [exampleMesh0; exampleMesh1].

(** Three faces with 3, 2 and 4 indices: 9 indices in all, as many as
    three times the index count of the first face. *)
Definition mixedMesh : aiMesh.t :=
  aiMesh.mk 4 [aiVector3D.mk 0 0 0; aiVector3D.mk 1065353216 0 0;
               aiVector3D.mk 1065353216 1065353216 0;
               aiVector3D.mk 0 1065353216 0]
            3 [aiFace.mk 3 [0; 1; 2]; aiFace.mk 2 [0; 2];
               aiFace.mk 4 [0; 1; 2; 3]].

(** A scene with one mesh that has vertices and no face, attached to the
    root. *)
Definition pointsMesh : aiMesh.t :=
  aiMesh.mk 3 [aiVector3D.mk 0 0 0; aiVector3D.mk 1065353216 0 0;
               aiVector3D.mk 0 1065353216 0]
            0 [].

Definition pointsScene : aiScene.t :=
  aiScene.mk (Some (aiNode.mk 1 [0] 0 [])) 1 [pointsMesh].

(** A world in which the file is there, the import gives [sc], the shaders
    build and [vPos] is attribute 0. *)
Definition worldWith (sc : aiScene.t) : World :=
  mkWorld (fun _ => true) (fun _ => Some sc) (fun _ => "")
    (fun _ => "") (fun _ => []) (fun _ _ => []) (fun _ => [])
    (fun type => if type =? GL_VERTEX_SHADER then 1 else 2) 3
    (fun _ _ => 0) (fun _ => []) (fun _ => []) (fun _ => []) "3.3" "3.30".

(** A world in which the file cannot be opened. *)
Definition worldWithoutFile : World :=
  mkWorld (fun _ => false) (fun _ => None) (fun _ => "")
    (fun _ => "") (fun _ => []) (fun _ _ => []) (fun _ => [])
    (fun type => if type =? GL_VERTEX_SHADER then 1 else 2) 3
    (fun _ _ => 0) (fun _ => []) (fun _ => []) (fun _ => []) "3.3" "3.30".

(** The state in which the example scene has been uploaded. *)
Definition exampleReady : State :=
  match init (worldWith exampleScene) (startup 16) with
  | Ret _ s => s
  | _ => startup 16
  end.

(** ** The vocabulary of the further properties *)







(** Nothing is bound on the device: no vertex array object, no buffer to
    either target. *)
Definition unbound (g : GL.context) : Prop :=
  GL.vertexArrayBinding g = 0 ∧ GL.arrayBufferBinding g = 0
  ∧ GL.boundBuffer GL.ELEMENT_ARRAY_BUFFER g = 0.

(** The number of calls of [name] among the commands. *)
Definition calls (name : string) (cmds : list GL.command) : nat :=
  length (List.filter (fun cmd => match cmd with
                             | GL.Command n _ => bool_decide (n = name)
                             | _ => false
                             end) cmds).

(** The meshes of a scene that have positions, and those that have
    faces. *)
Definition withPositions (meshes : list aiMesh.t) : nat :=
  length (List.filter aiMesh.HasPositions meshes).
Definition withFaces (meshes : list aiMesh.t) : nat :=
  length (List.filter aiMesh.HasFaces meshes).

(** ** Further tools for the proofs *)

(** Partial correctness: from a state that satisfies [P] the computation
    does not end the process, and when it returns the value and the state
    satisfy [Q]. *)
Definition hoare {A} (P : State → Prop) (c : M A) (Q : A → State → Prop)
    : Prop :=
  ∀ s, P s → match c s with
             | Ret a s' => Q a s'
             | Exit _ _ => False
             | Fault _ => True
             end.

(** An invariant of a computation that may end the process. *)
Definition throughout {A} (I : State → Prop) (c : M A) : Prop :=
  ∀ s, I s → match c s with
             | Ret _ s' | Exit _ s' => I s'
             | Fault _ => True
             end.

(** ** Further example scenes *)

(** Two faces, the second with more indices than the first: 5 indices for
    an allocation of 2 x 2. *)
Definition raggedMesh : aiMesh.t :=
  aiMesh.mk 3 [aiVector3D.mk 0 0 0; aiVector3D.mk 1065353216 0 0;
               aiVector3D.mk 0 1065353216 0]
            2 [aiFace.mk 2 [0; 1]; aiFace.mk 3 [0; 1; 2]].


(** Two faces, the second with fewer indices than the first: 5 indices for
    an allocation of 2 x 3. *)
Definition looseMesh : aiMesh.t :=
  aiMesh.mk 3 [aiVector3D.mk 0 0 0; aiVector3D.mk 1065353216 0 0;
               aiVector3D.mk 0 1065353216 0]
            2 [aiFace.mk 3 [0; 1; 2]; aiFace.mk 2 [0; 1]].

Definition looseScene : aiScene.t :=
  aiScene.mk (Some (aiNode.mk 1 [0] 0 [])) 1 [looseMesh].




(** What the body of the draw loop needs of an attached mesh index: read
    as an [int] it is an index of the handle table at which a handle has
    been written, and an index of the mesh collection at which the mesh has
    a first face. *)
Definition drawn (sc : aiScene.t) (a : list cell) (i : Z) : bool :=
  let meshIndex := CInt.int_of_u32 i in
  (0 <=? meshIndex)
  && match a !! Z.to_nat meshIndex, aiScene.mMeshes sc !! Z.to_nat meshIndex with
     | Some (UInt _), Some m =>
         match aiMesh.mFaces m with [] => false | _ :: _ => true end
     | _, _ => false
     end.

(** The first [count] entries of an array exist and satisfy [ok]. *)
Fixpoint firstAll {A} (ok : A → bool) (count : nat) (a : list A) {struct a}
    : bool :=
  match count with
  | O => true
  | S count' =>
      match a with
      | [] => false
      | x :: a' => ok x && firstAll ok count' a'
      end
  end.

(** The traversal can read all it reads in the subtree: the first
    [mNumMeshes] attached indices and the first [mNumChildren] child
    pointers exist, the indices can be drawn, and so on in each child that
    is not null. *)
Fixpoint traversable (sc : aiScene.t) (a : list cell) (node : aiNode.t)
    : bool :=
  firstAll (drawn sc a) (Z.to_nat (aiNode.mNumMeshes node))
    (aiNode.mMeshes node)
  && firstAll (fun child => match child with
                            | None => true
                            | Some c => traversable sc a c
                            end)
       (Z.to_nat (aiNode.mNumChildren node)) (aiNode.mChildren node).

(** The scene [init] works on: the one the importer returns for the file
    of the program, when the file can be opened. *)
Definition loaded (w : World) : option aiScene.t :=
  if fileGood w objectFileName then ReadFile w objectFileName else None.

(** The meshes the loop of [init] goes through. *)
Definition uploaded (sc : aiScene.t) : list aiMesh.t :=
  take (Z.to_nat (aiScene.mNumMeshes sc)) (aiScene.mMeshes sc).

(** A command keeps [Inv]. *)
Definition stable (Inv : State → Prop) {A} (c : M A) : Prop :=
  hoare Inv c (fun _ => Inv).

(** The state has scene [sc] (when [sc] is given) and the device has been
    asked for [v] vertex array names and [b] buffer names. *)
Definition created (sc : option aiScene.t) (v b : nat) (s : State) : Prop :=
  match sc with Some _ => scene s = sc | None => True end
  ∧ calls "glGenVertexArrays" (GL.commands (gl s)) = v
  ∧ calls "glGenBuffers" (GL.commands (gl s)) = b.

(** A call that asks the device for no name. *)
Definition notGen (cmd : GL.command) : bool :=
  match cmd with
  | GL.Command n _ =>
      negb (bool_decide (n = "glGenVertexArrays"%string))
      && negb (bool_decide (n = "glGenBuffers"%string))
  | _ => true
  end.

(** ** The scene as the diagnostic printers read it

    [printAiSceneInfo] (assimp_utilities.hpp) reads more of Assimp's
    structures than the renderer does: names, transformation matrices,
    normals, texture coordinates, materials, lights, cameras and embedded
    textures.  The conventions are those of the structures above; a
    library call whose code is not the program's ([aiMaterial::Get],
    [GetTexture], [GetCameraMatrix]) is a field that holds its answer. *)

Module Assimp.

Module aiColor3D.
Record t := mk { r : Z; g : Z; b : Z }.
End aiColor3D.

Module aiMatrix4x4.
Record t := mk {
  a1 : Z; a2 : Z; a3 : Z; a4 : Z;
  b1 : Z; b2 : Z; b3 : Z; b4 : Z;
  c1 : Z; c2 : Z; c3 : Z; c4 : Z;
  d1 : Z; d2 : Z; d3 : Z; d4 : Z
}.
End aiMatrix4x4.

Module aiNode.
#[local] Unset Elimination Schemes.
Inductive t := mk {
  mName : string;
  mTransformation : aiMatrix4x4.t;
  mNumMeshes : Z;
  mMeshes : list Z;
  mNumChildren : Z;
  mChildren : list (option t)
}.
#[local] Set Elimination Schemes.
End aiNode.

Definition aiPrimitiveType_POINT : Z := 1.
Definition aiPrimitiveType_LINE : Z := 2.
Definition aiPrimitiveType_TRIANGLE : Z := 4.
Definition aiPrimitiveType_POLYGON : Z := 8.

(** The members of [enum aiPrimitiveType]; [mPrimitiveTypes] is a bitwise
    combination of them. *)
Definition primitiveTypes : list Z :=
  [aiPrimitiveType_POINT; aiPrimitiveType_LINE; aiPrimitiveType_TRIANGLE;
   aiPrimitiveType_POLYGON].

Definition AI_MAX_NUMBER_OF_TEXTURECOORDS : nat := 8.

Module aiMesh.
Record t := mk {
  mName : string;
  mPrimitiveTypes : Z;
  mMaterialIndex : Z;
  mNumVertices : Z;
  mVertices : list aiVector3D.t;
  mNormals : list aiVector3D.t;
  (** the array of the channels, a channel that is a null pointer being
      the empty list, as are the channels after the last one given *)
  mTextureCoords : list (list aiVector3D.t);
  mNumFaces : Z;
  mFaces : list aiFace.t
}.

Definition channel (m : t) (n : nat) : list aiVector3D.t :=
  default [] (mTextureCoords m !! n).

(** [mVertices != NULL && mNumVertices > 0] *)
Definition HasPositions (m : t) : bool :=
  match mVertices m with [] => false | _ :: _ => 0 <? mNumVertices m end.

(** [mFaces != NULL && mNumFaces > 0] *)
Definition HasFaces (m : t) : bool :=
  match mFaces m with [] => false | _ :: _ => 0 <? mNumFaces m end.

(** [mNormals != NULL && mNumVertices > 0] *)
Definition HasNormals (m : t) : bool :=
  match mNormals m with [] => false | _ :: _ => 0 <? mNumVertices m end.

(** [pIndex < AI_MAX_NUMBER_OF_TEXTURECOORDS
     && mTextureCoords[pIndex] != NULL && mNumVertices > 0] *)
Definition HasTextureCoords (m : t) (pIndex : nat) : bool :=
  (pIndex <? AI_MAX_NUMBER_OF_TEXTURECOORDS)%nat
  && match channel m pIndex with [] => false | _ :: _ => 0 <? mNumVertices m end.

(** [while (n < AI_MAX_NUMBER_OF_TEXTURECOORDS && mTextureCoords[n]) ++n;] *)
Fixpoint countChannels (m : t) (left : nat) (n : nat) : nat :=
  match left with
  | O => n
  | S left' =>
      match channel m n with
      | [] => n
      | _ :: _ => countChannels m left' (S n)
      end
  end.

Definition GetNumUVChannels (m : t) : Z :=
  Z.of_nat (countChannels m AI_MAX_NUMBER_OF_TEXTURECOORDS 0).
End aiMesh.

Module aiMaterial.
Inductive colorKey :=
| AI_MATKEY_COLOR_AMBIENT
| AI_MATKEY_COLOR_DIFFUSE
| AI_MATKEY_COLOR_SPECULAR
| AI_MATKEY_COLOR_EMISSIVE.

Inductive aiTextureType :=
| aiTextureType_DIFFUSE
| aiTextureType_SPECULAR
| aiTextureType_NORMALS.

(** What the calls on a material leave in the variable they are given, as
    a function of what the variable held; the count of the textures of a
    type; the path [GetTexture] gives when it returns [AI_SUCCESS]. *)
Record t := mk {
  GetName : string → string;
  GetColor : colorKey → aiColor3D.t → aiColor3D.t;
  GetShininess : Z → Z;
  GetTextureCount : aiTextureType → Z;
  GetTexture : aiTextureType → Z → option string
}.
End aiMaterial.

Definition aiLightSource_DIRECTIONAL : Z := 1.
Definition aiLightSource_POINT : Z := 2.
Definition aiLightSource_SPOT : Z := 3.

Module aiLight.
Record t := mk {
  mName : string;
  mType : Z;
  mPosition : aiVector3D.t;
  mDirection : aiVector3D.t;
  mColorAmbient : aiColor3D.t;
  mColorDiffuse : aiColor3D.t;
  mColorSpecular : aiColor3D.t;
  mAttenuationConstant : Z;
  mAttenuationLinear : Z;
  mAttenuationQuadratic : Z;
  mAngleInnerCone : Z;
  mAngleOuterCone : Z
}.
End aiLight.

Module aiCamera.
Record t := mk {
  mName : string;
  mPosition : aiVector3D.t;
  mLookAt : aiVector3D.t;
  mUp : aiVector3D.t;
  mAspect : Z;
  mHorizontalFOV : Z;
  mClipPlaneNear : Z;
  mClipPlaneFar : Z;
  (** the matrix [GetCameraMatrix] computes *)
  GetCameraMatrix : aiMatrix4x4.t
}.
End aiCamera.

Module aiTexture.
Record t := mk { mWidth : Z; mHeight : Z }.
End aiTexture.

Module aiScene.
Record t := mk {
  mRootNode : option aiNode.t;
  mNumMeshes : Z;
  mMeshes : list aiMesh.t;
  mNumMaterials : Z;
  mMaterials : list aiMaterial.t;
  mNumLights : Z;
  mLights : list aiLight.t;
  mNumCameras : Z;
  mCameras : list aiCamera.t;
  mNumTextures : Z;
  mTextures : list aiTexture.t;
  mNumAnimations : Z;
  (** the animations are not read, only counted *)
  mAnimations : list unit
}.

(** [array != NULL && count > 0] *)
Definition has {A} (array : list A) (count : Z) : bool :=
  match array with [] => false | _ :: _ => 0 <? count end.

Definition HasMeshes (sc : t) : bool := has (mMeshes sc) (mNumMeshes sc).
Definition HasMaterials (sc : t) : bool :=
  has (mMaterials sc) (mNumMaterials sc).
Definition HasLights (sc : t) : bool := has (mLights sc) (mNumLights sc).
Definition HasCameras (sc : t) : bool := has (mCameras sc) (mNumCameras sc).
Definition HasTextures (sc : t) : bool := has (mTextures sc) (mNumTextures sc).
Definition HasAnimations (sc : t) : bool :=
  has (mAnimations sc) (mNumAnimations sc).
End aiScene.

End Assimp.

(** The part of these structures that the renderer reads. *)
Fixpoint nodeView (node : Assimp.aiNode.t) : aiNode.t :=
  aiNode.mk (Assimp.aiNode.mNumMeshes node) (Assimp.aiNode.mMeshes node)
    (Assimp.aiNode.mNumChildren node)
    (map (option_map nodeView) (Assimp.aiNode.mChildren node)).

Definition meshView (m : Assimp.aiMesh.t) : aiMesh.t :=
  aiMesh.mk (Assimp.aiMesh.mNumVertices m) (Assimp.aiMesh.mVertices m)
    (Assimp.aiMesh.mNumFaces m) (Assimp.aiMesh.mFaces m).

Definition sceneView (sc : Assimp.aiScene.t) : aiScene.t :=
  aiScene.mk (option_map nodeView (Assimp.aiScene.mRootNode sc))
    (Assimp.aiScene.mNumMeshes sc)
    (map meshView (Assimp.aiScene.mMeshes sc)).

(** ** The diagnostic printers, operand by operand

    The printers only write to [cout].  What they write is kept as the
    sequence of the operands of [operator<<]: how the stream formats a
    number is not the program's.  A printer returns what it has written,
    or stops on an access outside an array. *)

Module Utilities.
Import Assimp.

Inductive item :=
| Text (s : string)
| Unsigned (u : Z)
| Real (bits : Z)
| Endl.

Inductive run (A : Type) :=
| Wrote (out : list item) (a : A)
| Stopped (f : fault).
Arguments Wrote {A} out a.
Arguments Stopped {A} f.

Definition ret {A} (a : A) : run A := Wrote [] a.

Definition bind {A B} (c : run A) (k : A → run B) : run B :=
  match c with
  | Wrote out a =>
      match k a with
      | Wrote out' b => Wrote (out ++ out') b
      | Stopped f => Stopped f
      end
  | Stopped f => Stopped f
  end.

Declare Scope out_scope.
Delimit Scope out_scope with out.
Notation "x <- c ;; k" := (bind c (fun x => k))
  (at level 100, c at next level, right associativity) : out_scope.
Notation "c ;; k" := (bind c (fun _ => k))
  (at level 100, right associativity) : out_scope.
Local Open Scope out_scope.

(** [cout << a << b << ...] *)
Definition write (items : list item) : run unit := Wrote items tt.

Definition when (b : bool) (c : run unit) : run unit :=
  if b then c else ret tt.

(** [a[i]] *)
Definition index {A} (array : string) (a : list A) (i : Z) : run A :=
  if (0 <=? i) then
    match a !! Z.to_nat i with
    | Some x => ret x
    | None => Stopped (OutOfBounds array i)
    end
  else Stopped (OutOfBounds array i).

(** [for (unsigned int i = 0; i < n; i++) body] *)
Fixpoint iterate (count : nat) (i : Z) (body : Z → run unit) : run unit :=
  match count with
  | O => ret tt
  | S count' => body i ;; iterate count' (i + 1) body
  end.

Definition for_loop (n : Z) (body : Z → run unit) : run unit :=
  iterate (Z.to_nat n) 0 body.

(** The loop over the children of a node, as [forChildren] above. *)
Fixpoint forChildren (onNull : run unit) (visit : aiNode.t → run unit)
    (rest : list (option aiNode.t)) (count : nat) (j : Z) {struct rest}
    : run unit :=
  match count with
  | O => ret tt
  | S count' =>
      match rest with
      | [] => Stopped (OutOfBounds "mChildren" j)
      | child :: rest' =>
          match child with
          | None => onNull
          | Some c => visit c
          end ;;
          forChildren onNull visit rest' count' (j + 1)
      end
  end.

Definition tab : string := String (Ascii.ascii_of_nat 9) EmptyString.

(** [void printVector3D(string name, aiVector3D vector)] *)
Definition printVector3D (name : string) (vector : aiVector3D.t) : run unit :=
  write [Text name; Text " "; Real (aiVector3D.x vector); Text " ";
         Real (aiVector3D.y vector); Text " "; Real (aiVector3D.z vector);
         Endl].

(** [void printColor3D(string name, aiColor3D color)] *)
Definition printColor3D (name : string) (color : aiColor3D.t) : run unit :=
  write [Text name; Text " "; Real (aiColor3D.r color); Text " ";
         Real (aiColor3D.g color); Text " "; Real (aiColor3D.b color); Endl].

(** [void indent(unsigned int layer)] *)
Definition indent (layer : Z) : run unit :=
  for_loop layer (fun m => write [Text "    "]).

(** [void printMatrix4x4(aiMatrix4x4 matrix, unsigned int layer = 0)] *)
Definition printMatrix4x4 (matrix : aiMatrix4x4.t) (layer : Z) : run unit :=
  indent layer ;;
  write [Real (aiMatrix4x4.a1 matrix); Text ", "; Real (aiMatrix4x4.a2 matrix);
         Text ", "; Real (aiMatrix4x4.a3 matrix); Text ", ";
         Real (aiMatrix4x4.a4 matrix); Endl] ;;
  indent layer ;;
  write [Real (aiMatrix4x4.b1 matrix); Text ", "; Real (aiMatrix4x4.b2 matrix);
         Text ", "; Real (aiMatrix4x4.b3 matrix); Text ", ";
         Real (aiMatrix4x4.b4 matrix); Endl] ;;
  indent layer ;;
  write [Real (aiMatrix4x4.c1 matrix); Text ", "; Real (aiMatrix4x4.c2 matrix);
         Text ", "; Real (aiMatrix4x4.c3 matrix); Text ", ";
         Real (aiMatrix4x4.c4 matrix); Endl] ;;
  indent layer ;;
  write [Real (aiMatrix4x4.d1 matrix); Text ", "; Real (aiMatrix4x4.d2 matrix);
         Text ", "; Real (aiMatrix4x4.d3 matrix); Text ", ";
         Real (aiMatrix4x4.d4 matrix); Endl].

Definition nullNode : list item :=
  [Text "printNodeTree(): null pointer"; Endl].

(** [printNodeTree] on a node that is not null; [layer + 1] is computed in
    [unsigned int]. *)
Fixpoint printNode (node : aiNode.t) (layer : Z) : run unit :=
  indent layer ;;
  write [Text "node: "; Text (aiNode.mName node)] ;;
  (if 0 <? aiNode.mNumMeshes node then
     write [Text "(Linked with mesh "] ;;
     for_loop (aiNode.mNumMeshes node)
       (fun i =>
          m <- index "node->mMeshes" (aiNode.mMeshes node) i ;;
          write [Text "#"; Unsigned m; Text " "]) ;;
     write [Text ")"; Endl]
   else write [Endl]) ;;
  indent layer ;;
  write [Text "Transformation matrix"; Endl] ;;
  printMatrix4x4 (aiNode.mTransformation node) layer ;;
  write [Endl] ;;
  forChildren (write nullNode)
    (fun child => printNode child (CInt.u32 (layer + 1)))
    (aiNode.mChildren node) (Z.to_nat (aiNode.mNumChildren node)) 0.

(** [void printNodeTree(const aiNode* node, unsigned int layer)] *)
Definition printNodeTree (node : option aiNode.t) (layer : Z) : run unit :=
  match node with
  | None => write nullNode
  | Some n => printNode n layer
  end.

Inductive AiScenePrintOption := PRINT_AISCENE_SUMMARY | PRINT_AISCENE_DETAIL.

Definition detail (option : AiScenePrintOption) : bool :=
  match option with
  | PRINT_AISCENE_DETAIL => true
  | PRINT_AISCENE_SUMMARY => false
  end.

(** The [switch] on [mPrimitiveTypes]. *)
Definition primitiveType (mPrimitiveTypes : Z) : string :=
  if mPrimitiveTypes =? aiPrimitiveType_POINT then "point"
  else if mPrimitiveTypes =? aiPrimitiveType_LINE then "line"
  else if mPrimitiveTypes =? aiPrimitiveType_TRIANGLE then "triangle"
  else if mPrimitiveTypes =? aiPrimitiveType_POLYGON then "polygon"
  else "unknown".

(** The body of the loop over the meshes (lines 104-194). *)
Definition printMesh (option : AiScenePrintOption) (i : Z)
    (currentMesh : aiMesh.t) : run unit :=
  write [Text "Mesh #"; Unsigned i; Endl] ;;
  write [Text "Name "; Text (aiMesh.mName currentMesh); Endl] ;;
  write [Text "This mesh has ";
         Unsigned (aiMesh.GetNumUVChannels currentMesh);
         Text " UV(Texture) channels."; Endl] ;;
  write [Text "This mesh is linked with material #";
         Unsigned (aiMesh.mMaterialIndex currentMesh); Endl] ;;
  write [Text "Primitive type ";
         Text (primitiveType (aiMesh.mPrimitiveTypes currentMesh)); Endl] ;;
  (if aiMesh.HasPositions currentMesh then
     write [Text "Number of vertex positions:";
            Unsigned (aiMesh.mNumVertices currentMesh); Endl] ;;
     when (detail option)
       (for_loop (aiMesh.mNumVertices currentMesh)
          (fun j =>
             v <- index "mVertices" (aiMesh.mVertices currentMesh) j ;;
             write [Text (tab ++ "vertex ("); Real (aiVector3D.x v);
                    Text ", "; Real (aiVector3D.y v); Text ", ";
                    Real (aiVector3D.z v); Text ")"; Endl]))
   else write [Text "There is no vertex position in mesh # "; Unsigned i;
               Endl]) ;;
  (if aiMesh.HasFaces currentMesh then
     write [Text "Number of faces:"; Unsigned (aiMesh.mNumFaces currentMesh);
            Endl] ;;
     when (detail option)
       (for_loop (aiMesh.mNumFaces currentMesh)
          (fun j =>
             write [Text (tab ++ "face #"); Unsigned j; Text ": "] ;;
             face <- index "mFaces" (aiMesh.mFaces currentMesh) j ;;
             for_loop (aiFace.mNumIndices face)
               (fun k =>
                  x <- index "mIndices" (aiFace.mIndices face) k ;;
                  write [Unsigned x; Text ", "]) ;;
             write [Endl]))
   else write [Text "There is no face (element) in mesh # "; Unsigned i;
               Endl]) ;;
  (if aiMesh.HasNormals currentMesh then
     write [Text "Number of normals:";
            Unsigned (aiMesh.mNumVertices currentMesh); Endl] ;;
     when (detail option)
       (for_loop (aiMesh.mNumVertices currentMesh)
          (fun j =>
             v <- index "mNormals" (aiMesh.mNormals currentMesh) j ;;
             write [Text (tab ++ "normal ("); Real (aiVector3D.x v);
                    Text ", "; Real (aiVector3D.y v); Text ", ";
                    Real (aiVector3D.z v); Text ")"; Endl]))
   else write [Text "There is no normal vectors in mesh # "; Unsigned i;
               Endl]) ;;
  (if aiMesh.HasTextureCoords currentMesh 0 then
     write [Text "Number of texture coordinates for UV(texture) channel 0:";
            Unsigned (aiMesh.mNumVertices currentMesh); Endl] ;;
     when (detail option)
       (for_loop (aiMesh.mNumVertices currentMesh)
          (fun j =>
             v <- index "mTextureCoords[0]" (aiMesh.channel currentMesh 0) j ;;
             write [Text (tab ++ "texture coordinates (");
                    Real (aiVector3D.x v); Text ", "; Real (aiVector3D.y v);
                    Text ")"; Endl]))
   else write [Text "There is no texture coordinate in mesh # "; Unsigned i;
               Endl]) ;;
  write [Endl].

Definition printColor (label : string) (color : aiColor3D.t) : run unit :=
  write [Text label; Real (aiColor3D.r color); Text ", ";
         Real (aiColor3D.g color); Text ", "; Real (aiColor3D.b color);
         Text "}"; Endl].

(** The three loops over the textures of a material (lines 229-254): the
    count, then the path of each texture that [GetTexture] finds, read
    through [scene->mMaterials[i]]. *)
Definition printTextures (sc : aiScene.t) (i : Z)
    (currentMaterial : aiMaterial.t) (type : aiMaterial.aiTextureType)
    (countLabel fileLabel : string) : run unit :=
  let count := aiMaterial.GetTextureCount currentMaterial type in
  write [Text countLabel; Unsigned count; Endl] ;;
  for_loop count
    (fun k =>
       material <- index "scene->mMaterials" (aiScene.mMaterials sc) i ;;
       match aiMaterial.GetTexture material type k with
       | Some textureFilePath => write [Text fileLabel; Text textureFilePath; Endl]
       | None => ret tt
       end).

(** The body of the loop over the materials (lines 204-256). *)
Definition printMaterial (sc : aiScene.t) (i : Z) : run unit :=
  write [Text "Material #"; Unsigned i; Endl] ;;
  currentMaterial <- index "scene->mMaterials" (aiScene.mMaterials sc) i ;;
  let matName := aiMaterial.GetName currentMaterial "" in
  write [Text "Name "; Text matName; Endl] ;;
  let color := aiColor3D.mk 0 0 0 in
  let color :=
    aiMaterial.GetColor currentMaterial aiMaterial.AI_MATKEY_COLOR_AMBIENT color in
  printColor "Ambient color {" color ;;
  let color :=
    aiMaterial.GetColor currentMaterial aiMaterial.AI_MATKEY_COLOR_DIFFUSE color in
  printColor "Diffuse color {" color ;;
  let color :=
    aiMaterial.GetColor currentMaterial aiMaterial.AI_MATKEY_COLOR_SPECULAR color in
  printColor "Specular color {" color ;;
  let shininess := aiMaterial.GetShininess currentMaterial 0 in
  write [Text "Shininess "; Real shininess; Endl] ;;
  let color :=
    aiMaterial.GetColor currentMaterial aiMaterial.AI_MATKEY_COLOR_EMISSIVE color in
  printColor "Emissive color {" color ;;
  printTextures sc i currentMaterial aiMaterial.aiTextureType_DIFFUSE
    "Diffuse texture count " "Diffuse Texture file: " ;;
  printTextures sc i currentMaterial aiMaterial.aiTextureType_SPECULAR
    "Specular texture count " "Specular texture file: " ;;
  printTextures sc i currentMaterial aiMaterial.aiTextureType_NORMALS
    "Normal map count " "Specular texture file: " ;;
  write [Endl].

(** The body of the loop over the lights (lines 265-307). *)
Definition printLight (i : Z) (currentLight : aiLight.t) : run unit :=
  let type := aiLight.mType currentLight in
  let point := type =? aiLightSource_POINT in
  let directional := type =? aiLightSource_DIRECTIONAL in
  let spot := type =? aiLightSource_SPOT in
  write [Text "Light index: "; Unsigned i; Endl] ;;
  write [Text "Name: "; Text (aiLight.mName currentLight); Endl] ;;
  write [Text "Type: "] ;;
  write [Text (if point then "point light"
               else if directional then "directional light"
               else if spot then "spotlight"
               else "unknown"); Endl] ;;
  when (point || spot)
    (printVector3D "Position" (aiLight.mPosition currentLight)) ;;
  when (directional || spot)
    (printVector3D "Direction" (aiLight.mDirection currentLight)) ;;
  printColor3D "Ambient color" (aiLight.mColorAmbient currentLight) ;;
  printColor3D "Diffuse color" (aiLight.mColorDiffuse currentLight) ;;
  printColor3D "Specular color" (aiLight.mColorSpecular currentLight) ;;
  when (point || spot)
    (write [Text "Constant attenuation ";
            Real (aiLight.mAttenuationConstant currentLight); Endl] ;;
     write [Text "Linear attenuation ";
            Real (aiLight.mAttenuationLinear currentLight); Endl] ;;
     write [Text "Quadratic attenuation ";
            Real (aiLight.mAttenuationQuadratic currentLight); Endl]) ;;
  when spot
    (write [Text "Inner cone angle ";
            Real (aiLight.mAngleInnerCone currentLight); Endl] ;;
     write [Text "Outer cone angle ";
            Real (aiLight.mAngleOuterCone currentLight); Endl]) ;;
  write [Endl].

(** The body of the loop over the cameras (lines 316-334). *)
Definition printCamera (i : Z) (currentCamera : aiCamera.t) : run unit :=
  write [Text "Camera index: "; Unsigned i; Endl] ;;
  write [Text "Name: "; Text (aiCamera.mName currentCamera); Endl] ;;
  printVector3D "Position" (aiCamera.mPosition currentCamera) ;;
  printVector3D "Look-at vector" (aiCamera.mLookAt currentCamera) ;;
  printVector3D "Up vector" (aiCamera.mUp currentCamera) ;;
  write [Text "Aspect ratio "; Real (aiCamera.mAspect currentCamera); Endl] ;;
  write [Text "Horizontal field of view ";
         Real (aiCamera.mHorizontalFOV currentCamera); Endl] ;;
  write [Text "Near clip plane ";
         Real (aiCamera.mClipPlaneNear currentCamera); Endl] ;;
  write [Text "Far clip plane ";
         Real (aiCamera.mClipPlaneFar currentCamera); Endl] ;;
  write [Text "Camera matrix"; Endl] ;;
  printMatrix4x4 (aiCamera.GetCameraMatrix currentCamera) 0 ;;
  write [Endl].

(** The body of the loop over the embedded textures (lines 343-348). *)
Definition printTexture (i : Z) (currentTexture : aiTexture.t) : run unit :=
  write [Text "Texture #"; Unsigned i; Endl] ;;
  write [Text "Height "; Unsigned (aiTexture.mHeight currentTexture); Endl] ;;
  write [Text "Width "; Unsigned (aiTexture.mWidth currentTexture); Endl].

(** [void printAiSceneInfo(const aiScene* scene,
       AiScenePrintOption option = PRINT_AISCENE_SUMMARY)] *)
Definition printAiSceneInfo (scene : option aiScene.t)
    (option : AiScenePrintOption) : run unit :=
  match scene with
  | None => write [Text "printAiSceneInfo(): null pointer"; Endl]
  | Some sc =>
      write [Endl; Text "---------- Node Tree ----------"; Endl] ;;
      printNodeTree (aiScene.mRootNode sc) 0 ;;
      when (aiScene.HasMeshes sc)
        (write [Endl; Text "---------- Meshes ----------"; Endl] ;;
         write [Text "Total number of meshes: ";
                Unsigned (aiScene.mNumMeshes sc); Endl; Endl] ;;
         for_loop (aiScene.mNumMeshes sc)
           (fun i =>
              currentMesh <- index "scene->mMeshes" (aiScene.mMeshes sc) i ;;
              printMesh option i currentMesh)) ;;
      when (aiScene.HasMaterials sc)
        (write [Endl; Text "---------- Materials ----------"; Endl] ;;
         write [Text "Total number of materials: ";
                Unsigned (aiScene.mNumMaterials sc); Endl; Endl] ;;
         for_loop (aiScene.mNumMaterials sc) (printMaterial sc)) ;;
      when (aiScene.HasLights sc)
        (write [Endl; Text "---------- lights ----------"; Endl] ;;
         write [Text "Total number of lights: ";
                Unsigned (aiScene.mNumLights sc); Endl; Endl] ;;
         for_loop (aiScene.mNumLights sc)
           (fun i =>
              currentLight <- index "scene->mLights" (aiScene.mLights sc) i ;;
              printLight i currentLight)) ;;
      when (aiScene.HasCameras sc)
        (write [Endl; Text "---------- Cameras ----------"; Endl] ;;
         write [Text "Total number of cameras: ";
                Unsigned (aiScene.mNumCameras sc); Endl; Endl] ;;
         for_loop (aiScene.mNumCameras sc)
           (fun i =>
              currentCamera <- index "scene->mCameras" (aiScene.mCameras sc) i ;;
              printCamera i currentCamera)) ;;
      when (aiScene.HasTextures sc)
        (write [Endl; Text "---------- Embedded textures ----------"; Endl] ;;
         write [Text "Total number of embedded textures: ";
                Unsigned (aiScene.mNumTextures sc); Endl; Endl] ;;
         for_loop (aiScene.mNumTextures sc)
           (fun i =>
              currentTexture <- index "scene->mTextures"
                                  (aiScene.mTextures sc) i ;;
              printTexture i currentTexture)) ;;
      when (aiScene.HasAnimations sc)
        (write [Endl; Text "Has animation"; Endl])
  end.

End Utilities.

(** ** Reading what the printers have written *)

(** A printer that returns. *)
Definition returns {A} (c : Utilities.run A) : bool :=
  match c with
  | Utilities.Wrote _ _ => true
  | Utilities.Stopped _ => false
  end.

(** The lines of an output: the operands before each [endl]. *)
Fixpoint lines (out : list Utilities.item) : list (list Utilities.item) :=
  match out with
  | [] => []
  | Utilities.Endl :: out' => [] :: lines out'
  | x :: out' =>
      match lines out' with
      | [] => []
      | l :: ls => (x :: l) :: ls
      end
  end.

(** The number of indentation units at the start of a line. *)
Fixpoint indentation (line : list Utilities.item) : nat :=
  match line with
  | Utilities.Text s :: line' =>
      if String.eqb s "    " then S (indentation line') else O
  | _ => O
  end.

(** The indentation and the name on a line that starts, after its
    indentation, with "node: ". *)
Definition header (line : list Utilities.item) : option (nat * string) :=
  match drop (indentation line) line with
  | Utilities.Text s :: Utilities.Text name :: _ =>
      if String.eqb s "node: " then Some (indentation line, name) else None
  | _ => None
  end.

Definition headers (out : list Utilities.item) : list (nat * string) :=
  omap header (lines out).


(** The number of nodes on the longest path from a node down. *)
Fixpoint height (node : Assimp.aiNode.t) : Z :=
  1 + fold_right Z.max 0
        (map (fun child => match child with
                           | Some c => height c
                           | None => 0
                           end) (Assimp.aiNode.mChildren node)).

(** All that [printNodeTree] reads in a subtree is there. *)
Fixpoint readable (node : Assimp.aiNode.t) : bool :=
  firstAll (fun _ => true) (Z.to_nat (Assimp.aiNode.mNumMeshes node))
    (Assimp.aiNode.mMeshes node)
  && firstAll (fun child => match child with
                            | None => true
                            | Some c => readable c
                            end)
       (Z.to_nat (Assimp.aiNode.mNumChildren node))
       (Assimp.aiNode.mChildren node).

(** The first [count] entries of an array exist. *)
Definition present {A} (count : Z) (a : list A) : bool :=
  firstAll (fun _ => true) (Z.to_nat count) a.

(** All that the loop body of [printAiSceneInfo] reads of a mesh is there:
    nothing with the summary option; with the detail option the vertices,
    the normals and the first channel of texture coordinates up to
    [mNumVertices], the faces up to [mNumFaces] and the indices of each of
    them up to its [mNumIndices], for each array the mesh has. *)
Definition meshReadable (option : Utilities.AiScenePrintOption)
    (m : Assimp.aiMesh.t) : bool :=
  negb (Utilities.detail option)
  || (implb (Assimp.aiMesh.HasPositions m)
        (present (Assimp.aiMesh.mNumVertices m) (Assimp.aiMesh.mVertices m))
      && implb (Assimp.aiMesh.HasFaces m)
           (firstAll (fun face => present (aiFace.mNumIndices face)
                                    (aiFace.mIndices face))
              (Z.to_nat (Assimp.aiMesh.mNumFaces m)) (Assimp.aiMesh.mFaces m))
      && implb (Assimp.aiMesh.HasNormals m)
           (present (Assimp.aiMesh.mNumVertices m) (Assimp.aiMesh.mNormals m))
      && implb (Assimp.aiMesh.HasTextureCoords m 0)
           (present (Assimp.aiMesh.mNumVertices m)
              (Assimp.aiMesh.channel m 0))).

(** All that [printAiSceneInfo] reads of a scene is there. *)
Definition sceneReadable (option : Utilities.AiScenePrintOption)
    (sc : Assimp.aiScene.t) : bool :=
  match Assimp.aiScene.mRootNode sc with
  | Some root => readable root
  | None => true
  end
  && implb (Assimp.aiScene.HasMeshes sc)
       (firstAll (meshReadable option)
          (Z.to_nat (Assimp.aiScene.mNumMeshes sc))
          (Assimp.aiScene.mMeshes sc))
  && implb (Assimp.aiScene.HasMaterials sc)
       (present (Assimp.aiScene.mNumMaterials sc)
          (Assimp.aiScene.mMaterials sc))
  && implb (Assimp.aiScene.HasLights sc)
       (present (Assimp.aiScene.mNumLights sc) (Assimp.aiScene.mLights sc))
  && implb (Assimp.aiScene.HasCameras sc)
       (present (Assimp.aiScene.mNumCameras sc) (Assimp.aiScene.mCameras sc))
  && implb (Assimp.aiScene.HasTextures sc)
       (present (Assimp.aiScene.mNumTextures sc)
          (Assimp.aiScene.mTextures sc)).

(** ** Tools for the proofs about the printers *)

(** Induction on a node tree of the printers. *)
Section FullNodeInduction.
Variable P : Assimp.aiNode.t → Prop.
Hypothesis step : ∀ name matrix nm ms nc cs,
  Forall (fun child => match child with Some c => P c | None => True end) cs →
  P (Assimp.aiNode.mk name matrix nm ms nc cs).

Fixpoint fullNode_ind (node : Assimp.aiNode.t) : P node :=
  match node with
  | Assimp.aiNode.mk name matrix nm ms nc cs =>
      step name matrix nm ms nc cs
        ((fix all (l : list (option Assimp.aiNode.t))
            : Forall (fun child => match child with
                                   | Some c => P c
                                   | None => True
                                   end) l :=
            match l with
            | [] => List.Forall_nil _
            | child :: l' =>
                @List.Forall_cons _ _ child l'
                  (match child return match child with
                                      | Some c => P c
                                      | None => True
                                      end
                   with
                   | Some c => fullNode_ind c
                   | None => I
                   end) (all l')
            end) cs)
  end.
End FullNodeInduction.

(** An output made of whole lines on which the headers are [hs]. *)
Definition says (out : list Utilities.item) (hs : list (nat * string))
    : Prop :=
  ∀ rest, headers (out ++ rest) = hs ++ headers rest.

(** Example: a root with a mesh and two children, one of them with a child
    of its own. *)
Definition identity : Assimp.aiMatrix4x4.t :=
  Assimp.aiMatrix4x4.mk 1065353216 0 0 0 0 1065353216 0 0
                        0 0 1065353216 0 0 0 0 1065353216.

Definition exampleTree : Assimp.aiNode.t :=
  Assimp.aiNode.mk "root" identity 1 [0] 2
    [Some (Assimp.aiNode.mk "body" identity 1 [1] 1
             [Some (Assimp.aiNode.mk "head" identity 0 [] 0 [])]);
     Some (Assimp.aiNode.mk "tail" identity 0 [] 0 [])].

(** Example: a scene with that tree, the two meshes of the example above
    with normals and one channel of texture coordinates, a material with
    one diffuse texture and one normal map, a spotlight, a camera and an
    embedded texture. *)
Definition exampleFullMesh (name : string) (m : aiMesh.t)
    : Assimp.aiMesh.t :=
  Assimp.aiMesh.mk name Assimp.aiPrimitiveType_TRIANGLE 0
    (aiMesh.mNumVertices m) (aiMesh.mVertices m)
    (map (fun _ => aiVector3D.mk 0 0 1065353216) (aiMesh.mVertices m))
    [aiMesh.mVertices m]
    (aiMesh.mNumFaces m) (aiMesh.mFaces m).

Definition exampleMaterial : Assimp.aiMaterial.t :=
  Assimp.aiMaterial.mk (fun _ => "stone")
    (fun _ _ => Assimp.aiColor3D.mk 1065353216 1065353216 1065353216)
    (fun _ => 1107296256)
    (fun type => match type with
                 | Assimp.aiMaterial.aiTextureType_SPECULAR => 0
                 | _ => 1
                 end)
    (fun type k =>
       match type with
       | Assimp.aiMaterial.aiTextureType_DIFFUSE =>
           if k =? 0 then Some "stone.png" else None
       | Assimp.aiMaterial.aiTextureType_SPECULAR => None
       | Assimp.aiMaterial.aiTextureType_NORMALS =>
           if k =? 0 then Some "stone_n.png" else None
       end).

Definition exampleFullScene : Assimp.aiScene.t :=
  Assimp.aiScene.mk (Some exampleTree)
    2 [exampleFullMesh "square" exampleMesh0;
       exampleFullMesh "triangle" exampleMesh1]
    1 [exampleMaterial]
    1 [Assimp.aiLight.mk "lamp" Assimp.aiLightSource_SPOT
         (aiVector3D.mk 0 1065353216 0) (aiVector3D.mk 0 3212836864 0)
         (Assimp.aiColor3D.mk 0 0 0)
         (Assimp.aiColor3D.mk 1065353216 1065353216 1065353216)
         (Assimp.aiColor3D.mk 1065353216 1065353216 1065353216)
         1065353216 0 0 1056964608 1061752795]
    1 [Assimp.aiCamera.mk "eye" (aiVector3D.mk 0 0 1065353216)
         (aiVector3D.mk 0 0 3212836864) (aiVector3D.mk 0 1065353216 0)
         1068149419 1061752795 1036831949 1120403456 identity]
    1 [Assimp.aiTexture.mk 64 64]
    0 [].

(** A line: operands without [endl]. *)
Definition noEndl (line : list Utilities.item) : Prop :=
  Forall (fun x => x ≠ Utilities.Endl) line.


(** * Properties *)

(** ** Sequencing *)

Lemma bind_Ret {A B} (c : M A) (k : A → M B) s a s' :
  c s = Ret a s' → bind c k s = k a s'.
Proof. intros H. unfold bind. now rewrite H. Qed.

Lemma bind_Fault {A B} (c : M A) (k : A → M B) s f :
  c s = Fault f → bind c k s = Fault f.
Proof. intros H. unfold bind. now rewrite H. Qed.

Lemma bind_inv_Ret {A B} (c : M A) (k : A → M B) s b s' :
  bind c k s = Ret b s' → ∃ a s1, c s = Ret a s1 ∧ k a s1 = Ret b s'.
Proof.
  unfold bind. destruct (c s) as [a s1| |]; try discriminate.
  intros H. now exists a, s1.
Qed.

Lemma iterate_S {A} count i (body : Z → A → M A) a :
  iterate (S count) i body a = bind (body i a) (iterate count (i + 1) body).
Proof. reflexivity. Qed.

(** ** Effects of the renderer *)

Lemma emit_nil s : emit [] [] s = s.
Proof.
  destruct s as [p v sc va fa co g r], g as [ma nv nb vas bs vb ab cs].
  unfold emit. simpl. now rewrite !app_nil_r.
Qed.

Lemma emit_emit d1 l1 d2 l2 s :
  emit d2 l2 (emit d1 l1 s) = emit (d1 ++ d2) (l1 ++ l2) s.
Proof.
  unfold emit. simpl. rewrite <- !app_assoc.
  destruct d1, d2; simpl; rewrite ?app_nil_r; reflexivity.
Qed.

Lemma globals_emit d l s : globals (emit d l s) = globals s.
Proof. reflexivity. Qed.

Lemma machine_emit_emit d l s :
  GL.machine (gl (emit d l (emit d l s))) = GL.machine (gl (emit d l s)).
Proof. unfold emit, GL.machine. simpl. now destruct d. Qed.

Lemma uniform_ret g : uniform g (ret tt).
Proof. right. exists [], []. intros t _. unfold ret. now rewrite emit_nil. Qed.

Lemma uniform_print g line : uniform g (print line).
Proof.
  right. exists [], [line]. intros t _.
  unfold print, modify, emit, set_cout. simpl. rewrite app_nil_r.
  now destruct t as [p v sc va fa co [ma nv nb vas bs vb ab cs] r].
Qed.

Lemma uniform_bind g (c : M unit) (k : unit → M unit) :
  uniform g c → uniform g (k tt) → uniform g (bind c k).
Proof.
  intros [[f Hf] | (d1 & l1 & H1)] Hk.
  - left. exists f. intros t Ht. now apply bind_Fault, Hf.
  - destruct Hk as [[f Hf] | (d2 & l2 & H2)].
    + left. exists f. intros t Ht.
      rewrite (bind_Ret _ _ _ _ _ (H1 t Ht)). now apply Hf.
    + right. exists (d1 ++ d2), (l1 ++ l2). intros t Ht.
      rewrite (bind_Ret _ _ _ _ _ (H1 t Ht)), H2 by exact Ht.
      apply f_equal, emit_emit.
Qed.

Lemma uniform_iterate g (body : Z → unit → M unit) :
  (∀ i, uniform g (body i tt)) →
  ∀ count i, uniform g (iterate count i body tt).
Proof.
  intros Hbody count. induction count as [|count IH]; intros i.
  - apply uniform_ret.
  - rewrite iterate_S. apply uniform_bind; [apply Hbody | apply IH].
Qed.

Lemma drawCalls_emit h n s :
  set_gl (GL.bindVertexArray 0
            (gl (set_gl (GL.drawElements n
                           (gl (set_gl (GL.bindVertexArray h (gl s)) s)))
                   (set_gl (GL.bindVertexArray h (gl s)) s))))
    (set_gl (GL.drawElements n (gl (set_gl (GL.bindVertexArray h (gl s)) s)))
       (set_gl (GL.bindVertexArray h (gl s)) s))
  = emit [GL.BindVertexArray h; GL.DrawElements n; GL.BindVertexArray 0] [] s.
Proof.
  destruct s as [p v sc va fa co [ma nv nb vas bs vb ab cs] r].
  unfold emit, set_gl, GL.bindVertexArray, GL.drawElements, GL.issue,
    GL.set_vertexArrayBinding. simpl.
  rewrite app_nil_r, <- !app_assoc. simpl.
  destruct (h =? 0); [reflexivity|].
  now destruct (vas !! h).
Qed.

Lemma pure_index {A} array (a : list A) i : pure (index array a i).
Proof.
  unfold pure, index. destruct (0 <=? i); [|right; eauto].
  destruct (a !! Z.to_nat i); [left|right]; eauto.
Qed.

Lemma pure_load array p i : pure (load array p i).
Proof.
  unfold pure, load. destruct p as [a|]; [|right; eauto].
  destruct (pure_index array a i) as [[c Hc]|[f Hf]].
  - destruct c; [right|left|right]; eexists; intros s;
      (erewrite bind_Ret by apply Hc); reflexivity.
  - right. exists f. intros s. now apply bind_Fault.
Qed.

Lemma pure_deref {A} pointer (p : option A) : pure (deref pointer p).
Proof. unfold pure, deref. destruct p; [left|right]; eauto. Qed.

(** One step of symbolic execution: the first computation of a sequence
    returns, by a hypothesis or by evaluation. *)
Ltac run :=
  erewrite bind_Ret by first [eassumption | reflexivity]; cbv beta zeta.

Lemma uniform_drawMesh g node i : uniform g (drawMesh node i).
Proof.
  destruct (pure_index "node->mMeshes" (aiNode.mMeshes node) i)
    as [[m Hm]|[f Hf]];
    [|left; exists f; intros t _; now apply bind_Fault].
  destruct (pure_load "vaoArray" (g_vaoArray g) (CInt.int_of_u32 m))
    as [[h Hh]|[f Hf]].
  2:{ left. exists f. intros t <-. unfold drawMesh.
      erewrite bind_Ret by apply Hm. cbv beta zeta. run. now apply bind_Fault. }
  destruct (pure_deref "scene" (g_scene g)) as [[sc Hsc]|[f Hf]].
  2:{ left. exists f. intros t <-. unfold drawMesh.
      erewrite bind_Ret by apply Hm. cbv beta zeta. run.
      erewrite bind_Ret by apply Hh. run. now apply bind_Fault. }
  destruct (pure_index "scene->mMeshes" (aiScene.mMeshes sc) (CInt.int_of_u32 m))
    as [[mesh Hmesh]|[f Hf]].
  2:{ left. exists f. intros t <-. unfold drawMesh.
      erewrite bind_Ret by apply Hm. cbv beta zeta. run.
      erewrite bind_Ret by apply Hh. run.
      erewrite bind_Ret by apply Hsc. now apply bind_Fault. }
  destruct (pure_index "mFaces" (aiMesh.mFaces mesh) 0) as [[face Hface]|[f Hf]].
  2:{ left. exists f. intros t <-. unfold drawMesh.
      erewrite bind_Ret by apply Hm. cbv beta zeta. run.
      erewrite bind_Ret by apply Hh. run.
      erewrite bind_Ret by apply Hsc. erewrite bind_Ret by apply Hmesh.
      now apply bind_Fault. }
  right. eexists _, []. intros t <-. unfold drawMesh.
  erewrite bind_Ret by apply Hm. cbv beta zeta. run.
  erewrite bind_Ret by apply Hh. run.
  erewrite bind_Ret by apply Hsc. erewrite bind_Ret by apply Hmesh.
  cbv beta zeta.
  erewrite bind_Ret by apply Hface. run.
  unfold gl_do, modify. f_equal. apply drawCalls_emit.
Qed.

Lemma visitNode_eq node :
  visitNode node
  = bind (for_loop (aiNode.mNumMeshes node) (fun i _ => drawMesh node i) tt)
      (fun _ => forChildren (print nullNodeMessage) visitNode
                  (aiNode.mChildren node)
                  (Z.to_nat (aiNode.mNumChildren node)) 0).
Proof. now destruct node. Qed.

Lemma uniform_forChildren g line visit cs :
  Forall (fun child => match child with
                       | Some c => uniform g (visit c)
                       | None => True
                       end) cs →
  ∀ count j, uniform g (forChildren (print line) visit cs count j).
Proof.
  induction 1 as [|child cs Hc _ IH]; intros [|count] j; simpl;
    try apply uniform_ret.
  - left. eexists. intros t _. reflexivity.
  - apply uniform_bind; [|apply IH].
    destruct child; [exact Hc | apply uniform_print].
Qed.

Lemma uniform_visitNode g node : uniform g (visitNode node).
Proof.
  induction node as [nm ms nc cs IH] using aiNode_ind.
  rewrite visitNode_eq. apply uniform_bind.
  - apply uniform_iterate. intros i. apply uniform_drawMesh.
  - now apply uniform_forChildren.
Qed.

Lemma uniform_nodeTreeTraversal g node : uniform g (nodeTreeTraversal node).
Proof. destruct node; [apply uniform_visitNode | apply uniform_print]. Qed.

Lemma issues_ret g : issues g (ret tt) [] [].
Proof. intros t _. unfold ret. now rewrite emit_nil. Qed.

Lemma issues_print g line : issues g (print line) [] [line].
Proof.
  intros t _. unfold print, modify, emit, set_cout. simpl. rewrite app_nil_r.
  now destruct t as [p v sc va fa co [ma nv nb vas bs vb ab cs] r].
Qed.

Lemma issues_bind g (c : M unit) (k : unit → M unit) d1 l1 d2 l2 :
  issues g c d1 l1 → issues g (k tt) d2 l2 →
  issues g (bind c k) (d1 ++ d2) (l1 ++ l2).
Proof.
  intros H1 H2 t Ht.
  rewrite (bind_Ret _ _ _ _ _ (H1 t Ht)), H2 by exact Ht.
  apply f_equal, emit_emit.
Qed.

Lemma draws_app c1 c2 : GL.draws (c1 ++ c2) = GL.draws c1 ++ GL.draws c2.
Proof. unfold GL.draws. now rewrite flat_map_app. Qed.

Lemma commands_emit d l s :
  GL.commands (gl (emit d l s)) = GL.commands (gl s) ++ d.
Proof. reflexivity. Qed.

Lemma cout_emit d l s : cout (emit d l s) = cout s ++ l.
Proof. reflexivity. Qed.

(** C7: the traversal leaves the globals (program, scene, handle table,
    face array) as they were, and a second traversal right after the first
    issues the same calls and the same lines once more and leaves the
    device as the first traversal left it. *)
Theorem nodeTreeTraversal_idempotent (node : option aiNode.t) (s s1 : State) :
  nodeTreeTraversal node s = Ret tt s1 →
  globals s1 = globals s
  ∧ ∃ d l s2,
      GL.commands (gl s1) = GL.commands (gl s) ++ d
      ∧ cout s1 = cout s ++ l
      ∧ nodeTreeTraversal node s1 = Ret tt s2
      ∧ GL.commands (gl s2) = GL.commands (gl s1) ++ d
      ∧ GL.draws (GL.commands (gl s2))
        = GL.draws (GL.commands (gl s)) ++ GL.draws d ++ GL.draws d
      ∧ cout s2 = cout s1 ++ l
      ∧ globals s2 = globals s1
      ∧ GL.machine (gl s2) = GL.machine (gl s1)
      ∧ redisplayPosted s2 = redisplayPosted s1.
Proof.
  intros Hrun.
  destruct (uniform_nodeTreeTraversal (globals s) node) as [[f Hf]|(d & l & H)].
  - rewrite Hf in Hrun by reflexivity. discriminate.
  - rewrite H in Hrun by reflexivity. injection Hrun as <-.
    split; [reflexivity|].
    exists d, l, (emit d l (emit d l s)).
    repeat split.
    + now apply H.
    + rewrite !commands_emit, !draws_app, <- app_assoc. reflexivity.
    + apply machine_emit_emit.
Qed.

Lemma nodeTreeTraversal_idempotent_witness :
  ∃ s1, nodeTreeTraversal (Some exampleRoot) exampleReady = Ret tt s1
        ∧ globals s1 = globals exampleReady
        ∧ ∃ d l s2,
            GL.commands (gl s1) = GL.commands (gl exampleReady) ++ d
            ∧ cout s1 = cout exampleReady ++ l
            ∧ nodeTreeTraversal (Some exampleRoot) s1 = Ret tt s2
            ∧ GL.commands (gl s2) = GL.commands (gl s1) ++ d
            ∧ GL.draws (GL.commands (gl s2))
              = GL.draws (GL.commands (gl exampleReady))
                ++ GL.draws d ++ GL.draws d
            ∧ cout s2 = cout s1 ++ l
            ∧ globals s2 = globals s1
            ∧ GL.machine (gl s2) = GL.machine (gl s1)
            ∧ redisplayPosted s2 = redisplayPosted s1.
Proof.
  eexists. split; [vm_compute; reflexivity|].
  apply (nodeTreeTraversal_idempotent (Some exampleRoot) exampleReady).
  vm_compute. reflexivity.
Defined.

(** ** The calls of a traversal *)

Lemma index_Ret {A} array (a : list A) i x s :
  0 <= i → a !! Z.to_nat i = Some x → index array a i s = Ret x s.
Proof.
  intros Hi Hx. unfold index.
  destruct (Z.leb_spec 0 i); [|lia]. now rewrite Hx.
Qed.

Lemma counts_spec {A} n (a : list A) :
  counts n a = true → n = Z.of_nat (length a) ∧ n <= CInt.UINT_MAX.
Proof. unfold counts. intros [H1 H2]%andb_prop. lia. Qed.

Lemma int_of_u32_small z : z <= CInt.INT_MAX → CInt.int_of_u32 z = z.
Proof. intros H. unfold CInt.int_of_u32. destruct (Z.leb_spec z CInt.INT_MAX); lia. Qed.

Lemma u32_small z : 0 <= z <= CInt.INT_MAX → CInt.u32 z = z.
Proof. unfold CInt.u32, CInt.INT_MAX. intros H. apply Z.mod_small. lia. Qed.

Lemma drawMesh_issues g sc a node i m :
  g_scene g = Some sc → g_vaoArray g = Some a →
  0 <= i → aiNode.mMeshes node !! Z.to_nat i = Some m →
  attachable sc a m = true →
  issues g (drawMesh node i) (meshCalls sc a m) [].
Proof.
  intros Hsc Ha Hi Hm Hatt t <-. simpl in Hsc, Ha.
  unfold attachable in Hatt. unfold meshCalls, handle, drawCount.
  apply andb_prop in Hatt as [[H0 Hmax]%andb_prop Hatt].
  apply Z.leb_le in H0, Hmax.
  destruct (a !! Z.to_nat m) as [[|v|]|] eqn:Hv; try discriminate.
  destruct (aiScene.mMeshes sc !! Z.to_nat m) as [mesh|] eqn:Hmesh;
    try discriminate.
  unfold allocated, firstFaceIndices in *.
  destruct (aiMesh.mFaces mesh) as [|face0 faces] eqn:Hfaces; try discriminate.
  apply andb_prop in Hatt as [Hlo Hhi]. apply Z.leb_le in Hlo, Hhi.
  unfold drawMesh.
  erewrite bind_Ret by (apply index_Ret; first [eassumption | lia]). cbv beta zeta.
  rewrite int_of_u32_small by exact Hmax. run.
  rewrite Ha. unfold load.
  erewrite bind_Ret
    by (erewrite bind_Ret by (apply index_Ret; first [eassumption | lia]); reflexivity).
  run. rewrite Hsc. run.
  erewrite bind_Ret by (apply index_Ret; first [eassumption | lia]). cbv beta zeta.
  rewrite Hfaces. run. run.
  unfold CInt.u32_mul. rewrite u32_small, int_of_u32_small by lia.
  unfold gl_do, modify. f_equal. apply drawCalls_emit.
Qed.

Lemma drawLoop_issues g sc a node :
  g_scene g = Some sc → g_vaoArray g = Some a →
  ∀ rest pre,
    aiNode.mMeshes node = pre ++ rest →
    forallb (attachable sc a) rest = true →
    issues g (iterate (length rest) (Z.of_nat (length pre))
                (fun i _ => drawMesh node i) tt)
      (flat_map (meshCalls sc a) rest) [].
Proof.
  intros Hsc Ha rest. induction rest as [|m rest IH]; intros pre Hms Hall.
  - apply issues_ret.
  - simpl in Hall. apply andb_prop in Hall as [Hm Hall].
    change (length (m :: rest)) with (S (length rest)). rewrite iterate_S.
    change (flat_map (meshCalls sc a) (m :: rest))
      with (meshCalls sc a m ++ flat_map (meshCalls sc a) rest).
    change (@nil string) with (@nil string ++ []).
    apply issues_bind.
    + eapply drawMesh_issues; eauto; [lia|].
      rewrite Nat2Z.id, Hms. apply list_lookup_middle. reflexivity.
    + replace (Z.of_nat (length pre) + 1) with (Z.of_nat (length (pre ++ [m])))
        by (rewrite length_app; simpl; lia).
      apply IH; [|exact Hall]. now rewrite <- app_assoc.
Qed.

Lemma forChildren_issues g sc a cs :
  Forall (fun child =>
            match child with
            | Some c => drawable sc a c = true →
                        issues g (visitNode c) (nodeCalls sc a c)
                          (repeat nullNodeMessage (nullNodes c))
            | None => True
            end) cs →
  forallb (fun child => match child with
                        | None => true
                        | Some c => drawable sc a c
                        end) cs = true →
  ∀ j, issues g (forChildren (print nullNodeMessage) visitNode cs
                   (length cs) j)
         (flat_map (fun child => match child with
                                 | None => []
                                 | Some c => nodeCalls sc a c
                                 end) cs)
         (repeat nullNodeMessage
            (fold_right Nat.add 0%nat
               (map (fun child => match child with
                                  | None => 1%nat
                                  | Some c => nullNodes c
                                  end) cs))).
Proof.
  induction 1 as [|child cs Hc _ IH]; intros Hall j.
  - apply issues_ret.
  - simpl in Hall. apply andb_prop in Hall as [Hd Hall].
    simpl. rewrite repeat_app. apply issues_bind; [|now apply IH].
    destruct child as [c|]; [now apply Hc | apply issues_print].
Qed.

Lemma visitNode_issues g sc a node :
  g_scene g = Some sc → g_vaoArray g = Some a →
  drawable sc a node = true →
  issues g (visitNode node) (nodeCalls sc a node)
    (repeat nullNodeMessage (nullNodes node)).
Proof.
  intros Hsc Ha.
  induction node as [nm ms nc cs IH] using aiNode_ind. intros Hd.
  simpl in Hd.
  apply andb_prop in Hd as [[[Hnm Hms]%andb_prop Hnc]%andb_prop Hcs].
  apply counts_spec in Hnm as [-> _], Hnc as [-> _].
  rewrite visitNode_eq. simpl aiNode.mNumMeshes. simpl aiNode.mChildren.
  simpl aiNode.mNumChildren. unfold for_loop. rewrite !Nat2Z.id.
  change (repeat nullNodeMessage (nullNodes (aiNode.mk (Z.of_nat (length ms)) ms (Z.of_nat (length cs)) cs)))
    with ([] ++ repeat nullNodeMessage (nullNodes (aiNode.mk (Z.of_nat (length ms)) ms (Z.of_nat (length cs)) cs))).
  simpl nodeCalls.
  apply issues_bind.
  - apply (drawLoop_issues g sc a _ Hsc Ha ms []); [reflexivity | exact Hms].
  - apply forChildren_issues; [|exact Hcs].
    eapply Forall_impl; [exact IH|]. intros [c|]; auto.
Qed.

Lemma draws_meshCalls sc a ms :
  GL.draws (flat_map (meshCalls sc a) ms) = map (drawCount sc) ms.
Proof. induction ms as [|m ms IH]; simpl; [|rewrite <- IH]; reflexivity. Qed.

Lemma draws_nodeCalls sc a node :
  GL.draws (nodeCalls sc a node) = nodeDraws sc node.
Proof.
  induction node as [nm ms nc cs IH] using aiNode_ind. simpl.
  rewrite draws_app, draws_meshCalls. f_equal.
  induction IH as [|child cs Hc _ IHcs]; [reflexivity|].
  simpl. rewrite draws_app, IHcs. f_equal. now destruct child.
Qed.

(** C4: on a subtree whose attached meshes can all be drawn, the traversal
    returns after issuing, for the node and then depth first for each child
    in array order, one bind / draw / unbind group per attached mesh in
    attachment order, the draw having the element count
    [mNumFaces * mFaces[0].mNumIndices] of that mesh; a node without meshes
    contributes only what its children contribute; a null child writes the
    diagnostic line and nothing else, as does a null root. *)
Theorem nodeTreeTraversal_draws (s : State) (sc : aiScene.t) (a : list cell)
    (node : aiNode.t) :
  scene s = Some sc → vaoArray s = Some a → drawable sc a node = true →
  ∃ s', nodeTreeTraversal (Some node) s = Ret tt s'
        ∧ GL.commands (gl s') = GL.commands (gl s) ++ nodeCalls sc a node
        ∧ GL.draws (GL.commands (gl s'))
          = GL.draws (GL.commands (gl s)) ++ nodeDraws sc node
        ∧ cout s' = cout s ++ repeat nullNodeMessage (nullNodes node)
        ∧ globals s' = globals s
        ∧ nodeTreeTraversal None s = Ret tt (emit [] [nullNodeMessage] s).
Proof.
  intros Hsc Ha Hd.
  pose proof (visitNode_issues (globals s) sc a node Hsc Ha Hd s eq_refl) as H.
  eexists. split; [exact H|]. repeat split.
  - now rewrite commands_emit, draws_app, draws_nodeCalls.
  - exact (issues_print (globals s) nullNodeMessage s eq_refl).
Qed.

Lemma nodeTreeTraversal_draws_witness :
  ∃ s', nodeTreeTraversal (Some exampleRoot) exampleReady = Ret tt s'
        ∧ GL.commands (gl s')
          = GL.commands (gl exampleReady)
            ++ nodeCalls exampleScene [UInt 1; UInt 2] exampleRoot
        ∧ GL.draws (GL.commands (gl s'))
          = GL.draws (GL.commands (gl exampleReady))
            ++ nodeDraws exampleScene exampleRoot
        ∧ cout s' = cout exampleReady
                    ++ repeat nullNodeMessage (nullNodes exampleRoot)
        ∧ globals s' = globals exampleReady
        ∧ nodeTreeTraversal None exampleReady
          = Ret tt (emit [] [nullNodeMessage] exampleReady).
Proof.
  apply (nodeTreeTraversal_draws exampleReady exampleScene [UInt 1; UInt 2]
           exampleRoot); vm_compute; reflexivity.
Defined.

(** ** Lookups of the traversal *)

Lemma keeps_bind {A B} g ok (c : M A) (k : A → M B) :
  keeps g ok c → (∀ a, keeps g ok (k a)) → keeps g ok (bind c k).
Proof.
  intros Hc Hk s Hs. unfold bind. specialize (Hc s Hs).
  destruct (c s) as [a s'| |]; [|exact Hc..].
  now apply Hk.
Qed.

Lemma keeps_ret {A} g ok (a : A) : keeps g ok (ret a).
Proof. intros s Hs. exact Hs. Qed.

Lemma keeps_print g ok line : keeps g ok (print line).
Proof. intros s Hs. exact Hs. Qed.

Lemma keeps_iterate {A} g ok (body : Z → A → M A) :
  (∀ i a, keeps g ok (body i a)) →
  ∀ count i a, keeps g ok (iterate count i body a).
Proof.
  intros Hbody count. induction count as [|count IH]; intros i a.
  - apply keeps_ret.
  - rewrite iterate_S. apply keeps_bind; [apply Hbody | intros a'; apply IH].
Qed.

Lemma keeps_drawMesh g sc a node i :
  g_scene g = Some sc → g_vaoArray g = Some a →
  Z.of_nat (length a) = aiScene.mNumMeshes sc →
  Z.of_nat (length (aiScene.mMeshes sc)) = aiScene.mNumMeshes sc →
  aiScene.mNumMeshes sc <= CInt.INT_MAX →
  forallb (fun i => (0 <=? i) && (i <? aiScene.mNumMeshes sc))
    (aiNode.mMeshes node) = true →
  keeps g lookupsInBounds (drawMesh node i).
Proof.
  intros Hsc Ha Hla Hlm Hmax Hall s <-. simpl in Hsc, Ha.
  unfold drawMesh, bind, index at 1.
  destruct (0 <=? i); [|simpl; split; discriminate].
  destruct (aiNode.mMeshes node !! Z.to_nat i) as [m|] eqn:Hm;
    [|simpl; split; discriminate].
  rewrite forallb_forall in Hall.
  assert (Hin : In m (aiNode.mMeshes node))
    by (apply list_elem_of_In, list_elem_of_lookup; eauto).
  apply Hall, andb_prop in Hin as [H0 Hlt].
  apply Z.leb_le in H0. apply Z.ltb_lt in Hlt.
  unfold ret. cbv beta iota zeta.
  rewrite int_of_u32_small by lia.
  unfold get, load, bind, index. rewrite Ha.
  destruct (Z.leb_spec 0 m); [|lia].
  destruct (lookup_lt_is_Some_2 a (Z.to_nat m)) as [c Hc]; [lia|].
  rewrite Hc. destruct c as [|v|]; simpl; trivial.
  rewrite Hsc. simpl.
  destruct (lookup_lt_is_Some_2 (aiScene.mMeshes sc) (Z.to_nat m))
    as [mesh Hmesh]; [lia|].
  rewrite Hmesh. simpl.
  destruct (aiMesh.mFaces mesh !! Z.to_nat 0); simpl;
    [reflexivity | split; discriminate].
Qed.

Lemma keeps_forChildren g ok line visit cs :
  (∀ j, ok (OutOfBounds "mChildren" j)) →
  Forall (fun child => match child with
                       | Some c => keeps g ok (visit c)
                       | None => True
                       end) cs →
  ∀ count j, keeps g ok (forChildren (print line) visit cs count j).
Proof.
  intros Hok. induction 1 as [|child cs Hc _ IH]; intros [|count] j; simpl;
    try apply keeps_ret.
  - intros s _. apply Hok.
  - apply keeps_bind; [|intros _; apply IH].
    destruct child; [exact Hc | apply keeps_print].
Qed.

Lemma keeps_visitNode g sc a node :
  g_scene g = Some sc → g_vaoArray g = Some a →
  Z.of_nat (length a) = aiScene.mNumMeshes sc →
  Z.of_nat (length (aiScene.mMeshes sc)) = aiScene.mNumMeshes sc →
  aiScene.mNumMeshes sc <= CInt.INT_MAX →
  indicesBelow (aiScene.mNumMeshes sc) node = true →
  keeps g lookupsInBounds (visitNode node).
Proof.
  intros Hsc Ha Hla Hlm Hmax.
  induction node as [nm ms nc cs IH] using aiNode_ind. intros Hb.
  simpl in Hb. apply andb_prop in Hb as [Hms Hcs].
  rewrite visitNode_eq. apply keeps_bind.
  - apply keeps_iterate. intros i _. eapply keeps_drawMesh; eauto.
  - intros _. apply keeps_forChildren.
    + intros j. split; discriminate.
    + rewrite forallb_forall in Hcs. rewrite List.Forall_forall in IH |- *.
      intros [c|] Hin; [|exact I].
      apply (IH _ Hin). exact (Hcs _ Hin).
Qed.

(** C10: with a handle table as long as the mesh collection of the scene,
    a mesh count that fits [int], and every attached mesh index below the
    mesh count, no lookup of the traversal in the handle table or in the
    mesh collection is out of bounds: whatever the traversal stops on, it is
    not an access outside [vaoArray] or [scene->mMeshes]. *)
Theorem traversal_lookups_in_bounds (s : State) (sc : aiScene.t)
    (a : list cell) (node : aiNode.t) :
  scene s = Some sc → vaoArray s = Some a →
  Z.of_nat (length a) = aiScene.mNumMeshes sc →
  Z.of_nat (length (aiScene.mMeshes sc)) = aiScene.mNumMeshes sc →
  aiScene.mNumMeshes sc <= CInt.INT_MAX →
  indicesBelow (aiScene.mNumMeshes sc) node = true →
  match nodeTreeTraversal (Some node) s with
  | Fault f => lookupsInBounds f
  | Ret _ _ => True
  | Exit _ _ => False
  end.
Proof.
  intros Hsc Ha Hla Hlm Hmax Hb.
  pose proof (keeps_visitNode (globals s) sc a node Hsc Ha Hla Hlm Hmax Hb
                s eq_refl) as H.
  simpl. destruct (visitNode node s); trivial.
Qed.

Lemma traversal_lookups_in_bounds_witness :
  match nodeTreeTraversal (Some exampleRoot) exampleReady with
  | Fault f => lookupsInBounds f
  | Ret _ _ => True
  | Exit _ _ => False
  end.
Proof.
  apply (traversal_lookups_in_bounds exampleReady exampleScene
           [UInt 1; UInt 2] exampleRoot); vm_compute; congruence.
Defined.

(** ** Start-up *)

Lemma draws_snoc_Command cmds name args :
  GL.draws (cmds ++ [GL.Command name args]) = GL.draws cmds.
Proof. rewrite draws_app. apply app_nil_r. Qed.

Lemma buildShaders_run w s :
  ∃ s1, buildShaders w s = Ret tt s1
        ∧ program s1 = createProgram w
        ∧ vPos s1 = attribLocation w (createProgram w) "vPos"
        ∧ scene s1 = scene s ∧ vaoArray s1 = vaoArray s
        ∧ faceArray s1 = faceArray s
        ∧ redisplayPosted s1 = redisplayPosted s
        ∧ GL.machine (gl s1) = GL.machine (gl s)
        ∧ GL.draws (GL.commands (gl s1)) = GL.draws (GL.commands (gl s))
        ∧ ∃ l, cout s1 = cout s ++ l.
Proof.
  unfold buildShaders, bind, when, gl_call, gl_do, modify, get, print,
    print_lines, printShaderInfoLog, printShaderProgramInfoLog, ret.
  simpl.
  destruct (createShader w GL_VERTEX_SHADER =? 0),
    (createShader w GL_FRAGMENT_SHADER =? 0), (createProgram w =? 0),
    (attribLocation w (createProgram w) "vPos" =? -1);
    (eexists; split; [reflexivity|]; simpl;
     rewrite ?draws_snoc_Command, <- ?app_assoc; repeat split; eauto).
Qed.

Lemma display_unset s :
  scene s = None →
  ∃ s', display s = Ret tt s' ∧ globals s' = globals s
        ∧ GL.draws (GL.commands (gl s')) = GL.draws (GL.commands (gl s))
        ∧ cout s' = cout s ∧ redisplayPosted s' = redisplayPosted s.
Proof.
  intros H. unfold display, bind, gl_call, gl_do, modify, get. simpl.
  rewrite H. eexists. split; [reflexivity|]. simpl.
  now rewrite !draws_snoc_Command.
Qed.

(** What stays true from event to event while no scene is loaded. *)
Lemma dispatch_unset e s :
  scene s = None → redisplayPosted s = false →
  match dispatch e s with
  | Ret _ s' =>
      scene s' = None ∧ redisplayPosted s' = false
      ∧ GL.draws (GL.commands (gl s')) = GL.draws (GL.commands (gl s))
      ∧ cout s' = cout s
  | Exit _ s' => s' = s ∧ ∃ x y, e = Keyboard 27 x y
  | Fault _ => False
  end.
Proof.
  intros Hsc Hr. destruct e as [|width height|key x y].
  - change (dispatch Expose s) with (display (set_redisplayPosted false s)).
    destruct (display_unset (set_redisplayPosted false s) Hsc)
      as (s' & -> & Hg & Hd & Hc & Hp).
    injection Hg as _ _ Hs _ _. now rewrite Hs, Hp, Hd, Hc.
  - unfold dispatch, callback, reshape, gl_call, gl_do, bind, modify, get, ret.
    simpl. rewrite Hr. simpl. now rewrite draws_snoc_Command.
  - unfold dispatch, callback, keyboard, glutPostRedisplay, bind, modify, get,
      exit, ret.
    destruct (Z.eqb_spec key 27) as [->|Hk]; [eauto|].
    match goal with
    | |- match ?o with _ => _ end =>
        change o with (display (set_redisplayPosted false s))
    end.
    destruct (display_unset (set_redisplayPosted false s) Hsc)
      as (s' & -> & Hg & Hd & Hc & Hp).
    injection Hg as _ _ Hs _ _. now rewrite Hs, Hp, Hd, Hc.
Qed.

Lemma glutMainLoop_unset events :
  ∀ s, scene s = None → redisplayPosted s = false →
       match glutMainLoop events s with
       | Ret _ s' | Exit _ s' =>
           scene s' = None
           ∧ GL.draws (GL.commands (gl s')) = GL.draws (GL.commands (gl s))
           ∧ cout s' = cout s
       | Fault _ => False
       end
       ∧ (noEscape events = true → ∃ s', glutMainLoop events s = Ret tt s').
Proof.
  induction events as [|e events IH]; intros s Hsc Hr.
  - simpl. unfold ret. eauto.
  - simpl. unfold bind.
    pose proof (dispatch_unset e s Hsc Hr) as He.
    destruct (dispatch e s) as [[] s1|n s1|f]; [| |contradiction].
    + destruct He as (Hsc1 & Hr1 & Hd1 & Hc1).
      destruct (IH s1 Hsc1 Hr1) as [H1 H2]. split.
      * destruct (glutMainLoop events s1); try exact H1;
          now rewrite <- Hd1, <- Hc1.
      * intros [_ Hne]%andb_prop. now apply H2.
    + destruct He as (-> & x & y & ->). split; [auto|]. discriminate.
Qed.

(** C6: when the file cannot be opened or the import fails, [init] writes
    the error line and returns with the scene and the handle table unset;
    whatever events follow, the program does not fault, the scene stays
    unset and no draw call is ever issued; the process only ends when the
    Escape key is pressed. *)
Theorem failed_load_draws_nothing (w : World) (maxAttribs : Z)
    (events : list event) :
  fileGood w objectFileName = false ∨ ReadFile w objectFileName = None →
  (∃ s1, init w (startup maxAttribs) = Ret tt s1
         ∧ scene s1 = None ∧ vaoArray s1 = None
         ∧ In (loadError w) (cout s1))
  ∧ match main w events (startup maxAttribs) with
    | Ret _ s' | Exit _ s' =>
        scene s' = None ∧ GL.draws (GL.commands (gl s')) = []
        ∧ In (loadError w) (cout s')
    | Fault _ => False
    end
  ∧ (noEscape events = true →
     ∃ s', main w events (startup maxAttribs) = Ret tt s').
Proof.
  intros Hfail.
  assert (Hinit : ∀ s, scene s = None → vaoArray s = None →
            redisplayPosted s = false → GL.draws (GL.commands (gl s)) = [] →
            ∃ s1, init w s = Ret tt s1 ∧ scene s1 = None ∧ vaoArray s1 = None
                  ∧ redisplayPosted s1 = false
                  ∧ GL.draws (GL.commands (gl s1)) = []
                  ∧ In (loadError w) (cout s1)).
  { intros s Hsc Hva Hr Hd.
    destruct (buildShaders_run w s)
      as (s1 & Hrun & _ & _ & Hsc1 & Hva1 & _ & Hr1 & _ & Hd1 & _).
    unfold init. rewrite (bind_Ret _ _ _ _ _ Hrun).
    unfold load3DFile, loadError.
    destruct (fileGood w objectFileName) eqn:Hgood.
    - destruct Hfail as [|Hread]; [discriminate|].
      unfold bind, print, modify, get. simpl. rewrite Hread. simpl.
      eexists. split; [reflexivity|]. simpl.
      rewrite !in_app_iff. simpl. intuition congruence.
    - unfold bind, print, modify, get, ret. simpl.
      eexists. split; [reflexivity|]. simpl.
      rewrite !in_app_iff. simpl. intuition congruence. }
  split.
  - destruct (Hinit (startup maxAttribs)) as (s1 & H & ? & ? & _ & _ & ?);
      eauto.
  - unfold main, checkOpenGLError, print_lines.
    do 4 (erewrite bind_Ret by reflexivity).
    match goal with
    | |- context [bind (init w) _ ?st] =>
        destruct (Hinit st)
          as (s1 & H & Hsc1 & _ & Hr1 & Hd1 & Hin1); try reflexivity
    end.
    rewrite (bind_Ret _ _ _ _ _ H).
    destruct (glutMainLoop_unset events s1 Hsc1 Hr1) as [H1 H2].
    split; [|exact H2].
    destruct (glutMainLoop events s1) as [u s2|n s2|f]; [| |exact H1];
      destruct H1 as (? & Hd2 & Hc2); rewrite Hd2, Hc2; auto.
Qed.

Lemma failed_load_draws_nothing_witness :
  (∃ s1, init worldWithoutFile (startup 16) = Ret tt s1
         ∧ scene s1 = None ∧ vaoArray s1 = None
         ∧ In (loadError worldWithoutFile) (cout s1))
  ∧ match main worldWithoutFile [Expose; Keyboard 97 0 0; Reshape 640 480]
            (startup 16) with
    | Ret _ s' | Exit _ s' =>
        scene s' = None ∧ GL.draws (GL.commands (gl s')) = []
        ∧ In (loadError worldWithoutFile) (cout s')
    | Fault _ => False
    end
  ∧ (noEscape [Expose; Keyboard 97 0 0; Reshape 640 480] = true →
     ∃ s', main worldWithoutFile [Expose; Keyboard 97 0 0; Reshape 640 480]
             (startup 16) = Ret tt s').
Proof.
  apply (failed_load_draws_nothing worldWithoutFile 16
           [Expose; Keyboard 97 0 0; Reshape 640 480]).
  left. reflexivity.
Defined.

(** ** The flattening loop *)

Lemma set_faceArray_id s a : faceArray s = a → set_faceArray a s = s.
Proof. intros <-. now destruct s. Qed.

Lemma set_faceArray_twice a b s :
  set_faceArray a (set_faceArray b s) = set_faceArray a s.
Proof. reflexivity. Qed.

Lemma length_filled done cap :
  (length done <= cap)%nat → length (filled done cap) = cap.
Proof.
  intros H. unfold filled. rewrite length_app, length_map, repeat_length. lia.
Qed.

Lemma insert_filled done cap x :
  (length done < cap)%nat →
  <[length done := UInt x]> (filled done cap) = filled (done ++ [x]) cap.
Proof.
  intros H. unfold filled.
  rewrite insert_app_r_alt by (rewrite length_map; lia).
  rewrite length_map, Nat.sub_diag, map_app, length_app, <- app_assoc. simpl.
  destruct (cap - length done)%nat as [|n] eqn:E; [lia|].
  simpl. do 3 f_equal. lia.
Qed.

Lemma copyIndex_run face k x done cap s :
  0 <= k → aiFace.mIndices face !! Z.to_nat k = Some x →
  faceArray s = Some (filled done cap) →
  (length done < cap)%nat → Z.of_nat (length done) < CInt.INT_MAX →
  copyIndex face k (Z.of_nat (length done)) s
  = Ret (Z.of_nat (length (done ++ [x])))
        (set_faceArray (Some (filled (done ++ [x]) cap)) s).
Proof.
  intros Hk Hx Hfa Hcap Hmax. unfold copyIndex.
  erewrite bind_Ret by (apply index_Ret; eassumption). run.
  rewrite Hfa. unfold store. rewrite length_filled by lia.
  destruct (Z.leb_spec 0 (Z.of_nat (length done))); [|lia].
  destruct (Z.ltb_spec (Z.of_nat (length done)) (Z.of_nat cap)); [|lia].
  simpl andb. cbv iota. run. run.
  unfold int_incr. destruct (Z.ltb_spec (Z.of_nat (length done)) CInt.INT_MAX);
    [|lia].
  unfold ret. rewrite Nat2Z.id, insert_filled by exact Hcap.
  rewrite length_app. simpl. do 2 f_equal. lia.
Qed.

Lemma copyIndices_run face cap :
  ∀ rest pre done s,
    aiFace.mIndices face = pre ++ rest →
    faceArray s = Some (filled done cap) →
    (length done + length rest <= cap)%nat →
    Z.of_nat (length done + length rest) <= CInt.INT_MAX →
    iterate (length rest) (Z.of_nat (length pre)) (copyIndex face)
      (Z.of_nat (length done)) s
    = Ret (Z.of_nat (length (done ++ rest)))
          (set_faceArray (Some (filled (done ++ rest) cap)) s).
Proof.
  induction rest as [|x rest IH]; intros pre done s Hix Hfa Hcap Hmax.
  - simpl. unfold ret. rewrite app_nil_r.
    now rewrite set_faceArray_id.
  - simpl length in *. rewrite iterate_S.
    erewrite bind_Ret.
    2:{ apply copyIndex_run with (x := x) (cap := cap); try eassumption;
          try lia.
        rewrite Nat2Z.id, Hix. now apply list_lookup_middle. }
    replace (Z.of_nat (length pre) + 1) with (Z.of_nat (length (pre ++ [x])))
      by (rewrite length_app; simpl; lia).
    rewrite IH.
    + now rewrite <- app_assoc.
    + now rewrite <- app_assoc.
    + reflexivity.
    + rewrite length_app. simpl. lia.
    + rewrite length_app. simpl. lia.
Qed.

Lemma copyFace_run m j face done cap s :
  0 <= j → aiMesh.mFaces m !! Z.to_nat j = Some face →
  face_wf face = true →
  faceArray s = Some (filled done cap) →
  (length done + length (aiFace.mIndices face) <= cap)%nat →
  Z.of_nat (length done + length (aiFace.mIndices face)) <= CInt.INT_MAX →
  copyFace m j (Z.of_nat (length done)) s
  = Ret (Z.of_nat (length (done ++ aiFace.mIndices face)))
        (set_faceArray (Some (filled (done ++ aiFace.mIndices face) cap)) s).
Proof.
  intros Hj Hface Hwf Hfa Hcap Hmax. unfold copyFace.
  erewrite bind_Ret by (apply index_Ret; eassumption).
  apply counts_spec in Hwf as [-> _]. unfold for_loop. rewrite Nat2Z.id.
  now apply (copyIndices_run face cap (aiFace.mIndices face) []).
Qed.

Lemma copyFaces_run m cap :
  ∀ rest pre done s,
    aiMesh.mFaces m = pre ++ rest →
    forallb face_wf rest = true →
    faceArray s = Some (filled done cap) →
    (length done + length (concat (map aiFace.mIndices rest)) <= cap)%nat →
    Z.of_nat (length done + length (concat (map aiFace.mIndices rest)))
    <= CInt.INT_MAX →
    iterate (length rest) (Z.of_nat (length pre)) (copyFace m)
      (Z.of_nat (length done)) s
    = Ret (Z.of_nat (length (done ++ concat (map aiFace.mIndices rest))))
          (set_faceArray
             (Some (filled (done ++ concat (map aiFace.mIndices rest)) cap)) s).
Proof.
  induction rest as [|face rest IH]; intros pre done s Hfs Hwf Hfa Hcap Hmax.
  - simpl. unfold ret. rewrite app_nil_r. now rewrite set_faceArray_id.
  - simpl in Hwf. apply andb_prop in Hwf as [Hface Hwf].
    simpl map in *. simpl concat in *. rewrite length_app in Hcap, Hmax.
    simpl length. rewrite iterate_S.
    erewrite bind_Ret.
    2:{ apply copyFace_run with (face := face) (cap := cap);
          try eassumption; try lia.
        rewrite Nat2Z.id, Hfs. now apply list_lookup_middle. }
    replace (Z.of_nat (length pre) + 1)
      with (Z.of_nat (length (pre ++ [face])))
      by (rewrite length_app; simpl; lia).
    rewrite IH.
    + now rewrite <- app_assoc.
    + now rewrite <- app_assoc.
    + exact Hwf.
    + reflexivity.
    + rewrite length_app. lia.
    + rewrite length_app. lia.
Qed.

Lemma indexTotal_length m :
  forallb face_wf (aiMesh.mFaces m) = true →
  indexTotal m = Z.of_nat (length (faceIndices m)).
Proof.
  unfold indexTotal, faceIndices.
  induction (aiMesh.mFaces m) as [|face faces IH]; intros Hwf; [reflexivity|].
  simpl in Hwf. apply andb_prop in Hwf as [Hface Hwf].
  apply counts_spec in Hface as [Hface _].
  simpl. rewrite length_app, IH, Hface by exact Hwf. lia.
Qed.

Lemma mesh_wf_spec m :
  mesh_wf m = true →
  (aiMesh.mNumVertices m = Z.of_nat (length (aiMesh.mVertices m))
   ∧ aiMesh.mNumVertices m <= CInt.UINT_MAX)
  ∧ (aiMesh.mNumFaces m = Z.of_nat (length (aiMesh.mFaces m))
     ∧ aiMesh.mNumFaces m <= CInt.UINT_MAX)
  ∧ forallb face_wf (aiMesh.mFaces m) = true.
Proof.
  unfold mesh_wf. intros [[H1 H2]%andb_prop H3]%andb_prop.
  auto using counts_spec.
Qed.

Lemma malloc_allocated m face0 faces :
  aiMesh.mFaces m = face0 :: faces →
  0 <= aiMesh.mNumFaces m <= CInt.UINT_MAX →
  0 <= allocated m <= CInt.INT_MAX →
  malloc (CInt.usize_mul
            (CInt.usize_mul CInt.sizeof_uint (aiMesh.mNumFaces m))
            (aiFace.mNumIndices face0))
  = filled [] (Z.to_nat (allocated m)).
Proof.
  intros Hfs HF Hal. unfold allocated, firstFaceIndices in *. rewrite Hfs in *.
  unfold malloc, filled, CInt.usize_mul, CInt.usize, CInt.sizeof_uint,
    CInt.UINT_MAX, CInt.INT_MAX in *.
  simpl map. simpl length. rewrite Nat.sub_0_r. simpl app.
  rewrite (Z.mod_small (4 * aiMesh.mNumFaces m)) by lia.
  rewrite <- Z.mul_assoc.
  rewrite Z.mod_small by lia.
  do 2 f_equal. rewrite Z.mul_comm, Z.div_mul by lia.
  reflexivity.
Qed.

Lemma flattenFaces_run m s :
  mesh_wf m = true → aiMesh.HasFaces m = true →
  indexTotal m <= allocated m → allocated m <= CInt.INT_MAX →
  flattenFaces m s
  = Ret (indexTotal m) (set_faceArray (Some (indexStore m)) s).
Proof.
  intros Hwf Hhas Hfit Hmax.
  apply mesh_wf_spec in Hwf as (_ & [HF HFmax] & Hfaces).
  unfold aiMesh.HasFaces in Hhas.
  destruct (aiMesh.mFaces m) as [|face0 faces] eqn:Hfs; [discriminate|].
  pose proof (indexTotal_length m) as Htot. rewrite Hfs in Htot.
  specialize (Htot Hfaces).
  unfold flattenFaces. rewrite Hfs.
  erewrite bind_Ret by reflexivity. cbv beta.
  rewrite (malloc_allocated m face0 faces Hfs) by lia.
  run. unfold for_loop. rewrite HF, Nat2Z.id, <- Hfs.
  rewrite (copyFaces_run m (Z.to_nat (allocated m)) (aiMesh.mFaces m) [] [] _).
  - simpl app. fold (faceIndices m). rewrite <- Htot. f_equal.
    rewrite set_faceArray_twice. unfold indexStore, filled.
    do 4 f_equal. lia.
  - reflexivity.
  - now rewrite Hfs.
  - reflexivity.
  - simpl. fold (faceIndices m). lia.
  - simpl. fold (faceIndices m). lia.
Qed.

Lemma iterate_Ret_inv {A} (I : Z → A → Prop) (body : Z → A → M A) :
  (∀ j a s a' s', I j a → body j a s = Ret a' s' → I (j + 1) a') →
  ∀ count i a s a' s',
    I i a → iterate count i body a s = Ret a' s' → I (i + Z.of_nat count) a'.
Proof.
  intros Hbody count. induction count as [|count IH]; intros i a s a' s' Hi Hrun.
  - injection Hrun as Ha _. subst a'. now rewrite Z.add_0_r.
  - rewrite iterate_S in Hrun.
    apply bind_inv_Ret in Hrun as (a1 & s1 & H1 & H2).
    replace (i + Z.of_nat (S count)) with (i + 1 + Z.of_nat count) by lia.
    eapply IH; [|exact H2]. eapply Hbody; eauto.
Qed.

Lemma index_inv_Ret {A} array (a : list A) i x s s' :
  index array a i s = Ret x s' → 0 <= i ∧ a !! Z.to_nat i = Some x.
Proof.
  unfold index. destruct (Z.leb_spec 0 i); [|discriminate].
  destruct (a !! Z.to_nat i); [|discriminate].
  intros Heq. injection Heq as Hx _. subst. auto.
Qed.

Lemma copyIndex_inv_Ret face k idx s idx' s' :
  copyIndex face k idx s = Ret idx' s' →
  idx' = idx + 1 ∧ idx' <= CInt.INT_MAX.
Proof.
  unfold copyIndex. intros H.
  apply bind_inv_Ret in H as (v & s1 & _ & H).
  apply bind_inv_Ret in H as (s2 & s3 & _ & H).
  apply bind_inv_Ret in H as (a & s4 & _ & H).
  apply bind_inv_Ret in H as (u & s5 & _ & H).
  unfold int_incr in H. destruct (Z.ltb_spec idx CInt.INT_MAX); [|discriminate].
  injection H as Hidx _. lia.
Qed.

Lemma copyFace_inv_Ret m j idx s idx' s' :
  forallb face_wf (aiMesh.mFaces m) = true →
  idx <= CInt.INT_MAX →
  copyFace m j idx s = Ret idx' s' →
  ∃ face, 0 <= j ∧ aiMesh.mFaces m !! Z.to_nat j = Some face
          ∧ idx' = idx + aiFace.mNumIndices face ∧ idx' <= CInt.INT_MAX.
Proof.
  intros Hwf Hidx H. unfold copyFace in H.
  apply bind_inv_Ret in H as (face & s1 & Hface & H).
  apply index_inv_Ret in Hface as [Hj Hface].
  exists face. split; [exact Hj|]. split; [exact Hface|].
  rewrite forallb_forall in Hwf.
  assert (Hin : In face (aiMesh.mFaces m))
    by (apply list_elem_of_In, list_elem_of_lookup; eauto).
  apply Hwf, counts_spec in Hin as [Hn _].
  apply (iterate_Ret_inv (fun k a => a = idx + k ∧ a <= CInt.INT_MAX))
    in H.
  - rewrite Z2Nat.id in H by lia. lia.
  - intros k a s2 a' s2' [-> _] Hstep.
    apply copyIndex_inv_Ret in Hstep. lia.
  - lia.
Qed.

Lemma sumCounts_app (l1 l2 : list aiFace.t) :
  fold_right Z.add 0 (map aiFace.mNumIndices (l1 ++ l2))
  = fold_right Z.add 0 (map aiFace.mNumIndices l1)
    + fold_right Z.add 0 (map aiFace.mNumIndices l2).
Proof. induction l1 as [|f l1 IH]; simpl; [|rewrite IH]; lia. Qed.

Lemma flattenFaces_inv_Ret m s idx s' :
  mesh_wf m = true →
  flattenFaces m s = Ret idx s' →
  idx = indexTotal m ∧ idx <= CInt.INT_MAX.
Proof.
  intros Hwf H. apply mesh_wf_spec in Hwf as (_ & [HF _] & Hfaces).
  unfold flattenFaces in H.
  apply bind_inv_Ret in H as (face0 & s1 & _ & H).
  apply bind_inv_Ret in H as (u & s2 & _ & H).
  apply (iterate_Ret_inv
           (fun j a => 0 <= j
                       ∧ a = fold_right Z.add 0
                               (map aiFace.mNumIndices
                                    (take (Z.to_nat j) (aiMesh.mFaces m)))
                       ∧ a <= CInt.INT_MAX)) in H.
  - destruct H as (_ & -> & Hmax). split; [|exact Hmax].
    rewrite HF, Z.add_0_l, !Nat2Z.id, firstn_all. reflexivity.
  - intros j a s3 a' s3' (Hj & -> & Hmax) Hstep.
    apply copyFace_inv_Ret in Hstep as (face & _ & Hface & -> & Hmax');
      [|exact Hfaces|exact Hmax].
    split; [lia|]. split; [|exact Hmax'].
    replace (Z.to_nat (j + 1)) with (S (Z.to_nat j)) by lia.
    rewrite (take_S_r _ _ _ Hface), sumCounts_app. simpl. lia.
  - simpl. unfold CInt.INT_MAX. lia.
Qed.

Lemma uniformFaces_total m :
  mesh_wf m = true → uniformFaces m = true → indexTotal m = allocated m.
Proof.
  intros Hwf Hu. apply mesh_wf_spec in Hwf as (_ & [HF _] & _).
  unfold indexTotal, allocated, uniformFaces in *. rewrite HF. clear HF.
  generalize dependent (firstFaceIndices m). intros K Hu.
  induction (aiMesh.mFaces m) as [|f fs IH]; [reflexivity|].
  simpl in Hu. apply andb_prop in Hu as [Hf Hu]. apply Z.eqb_eq in Hf.
  simpl map. simpl fold_right. rewrite IH by exact Hu.
  simpl length. lia.
Qed.

(** C9, as amended: for a well-formed mesh with at least one face, the
    flattening loop runs to its end having written exactly
    [mNumFaces * mFaces[0].mNumIndices] entries if and only if the index
    counts of the faces add up to that product and the product fits [int];
    the array then holds the indices in face order.  Faces that all have the
    index count of face 0 are one way for the counts to add up. *)
Theorem flattening_fills_exactly (m : aiMesh.t) (s : State) :
  mesh_wf m = true → aiMesh.HasFaces m = true →
  (fillsExactly m s
   ↔ indexTotal m = allocated m ∧ allocated m <= CInt.INT_MAX)
  ∧ (indexTotal m = allocated m → allocated m <= CInt.INT_MAX →
     flattenFaces m s
     = Ret (allocated m)
           (set_faceArray (Some (map UInt (faceIndices m))) s))
  ∧ (uniformFaces m = true → indexTotal m = allocated m).
Proof.
  intros Hwf Hhas.
  assert (Hrun : indexTotal m = allocated m → allocated m <= CInt.INT_MAX →
                 flattenFaces m s
                 = Ret (allocated m)
                       (set_faceArray (Some (map UInt (faceIndices m))) s)).
  { intros Heq Hmax. rewrite flattenFaces_run by (trivial; lia).
    unfold indexStore. rewrite Heq, Z.sub_diag. simpl. now rewrite app_nil_r. }
  split; [split|split].
  - intros [s' H]. apply flattenFaces_inv_Ret in H as [H1 H2]; [|exact Hwf].
    split; [congruence | exact H2].
  - intros [Heq Hmax]. eexists. now apply Hrun.
  - exact Hrun.
  - now apply uniformFaces_total.
Qed.

Lemma flattening_fills_exactly_witness :
  (fillsExactly exampleMesh0 (startup 16)
   ↔ indexTotal exampleMesh0 = allocated exampleMesh0
     ∧ allocated exampleMesh0 <= CInt.INT_MAX)
  ∧ (indexTotal exampleMesh0 = allocated exampleMesh0 →
     allocated exampleMesh0 <= CInt.INT_MAX →
     flattenFaces exampleMesh0 (startup 16)
     = Ret (allocated exampleMesh0)
           (set_faceArray (Some (map UInt (faceIndices exampleMesh0)))
              (startup 16)))
  ∧ (uniformFaces exampleMesh0 = true →
     indexTotal exampleMesh0 = allocated exampleMesh0).
Proof.
  apply (flattening_fills_exactly exampleMesh0 (startup 16)); reflexivity.
Defined.

(** C9, as stated, fails: the loop fills the allocation of [mixedMesh]
    exactly although its faces have 3, 2 and 4 indices. *)
Lemma uniform_faces_not_necessary :
  ¬ (fillsExactly mixedMesh (startup 16) ↔ uniformFaces mixedMesh = true).
Proof.
  intros [H _].
  assert (Hfill : fillsExactly mixedMesh (startup 16))
    by (eexists; vm_compute; reflexivity).
  apply H in Hfill. vm_compute in Hfill. discriminate.
Qed.

(** ** Uploading one mesh *)

(** Evaluation of the device operations on a context given by its fields. *)
Ltac gl_eval :=
  cbv [GL.vertexAttribPointer GL.enableVertexAttribArray GL.validAttrib
       GL.issue GL.set_vertexArrays GL.set_buffers GL.bindBuffer
       GL.bindVertexArray GL.genBuffer GL.genVertexArray GL.boundBuffer
       GL.set_arrayBufferBinding GL.set_vertexArrayBinding GL.set_nextBuffer
       GL.set_nextVertexArray GL.maxVertexAttribs GL.nextVertexArray
       GL.nextBuffer GL.vertexArrays GL.buffers GL.vertexArrayBinding
       GL.arrayBufferBinding GL.commands gl set_gl set_faceArray
       set_vaoArray program vPos scene vaoArray faceArray cout
       redisplayPosted fst snd].

Lemma bufferData_exact tg size data g :
  Z.to_nat (size / 4) = length data → GL.boundBuffer tg g ≠ 0 →
  GL.bufferData tg size data g
  = Some (GL.issue (GL.Command "glBufferData" [GL.enum tg; size])
            (GL.set_buffers (<[GL.boundBuffer tg g := data]>) g)).
Proof.
  intros Hn Hb. unfold GL.bufferData. rewrite Hn, Nat.leb_refl.
  destruct (Z.eqb_spec (GL.boundBuffer tg g) 0); [contradiction|].
  now rewrite firstn_all.
Qed.

Lemma length_positions m :
  length (positions m) = (3 * length (aiMesh.mVertices m))%nat.
Proof.
  unfold positions. induction (aiMesh.mVertices m) as [|v vs IH];
    [reflexivity|].
  simpl. rewrite IH. lia.
Qed.

Lemma length_indexStore m :
  forallb face_wf (aiMesh.mFaces m) = true →
  indexTotal m <= allocated m →
  length (indexStore m) = Z.to_nat (allocated m).
Proof.
  intros Hwf Hfit. apply indexTotal_length in Hwf.
  unfold indexStore. rewrite length_app, length_map, repeat_length. lia.
Qed.

Lemma uploadPositions_run m s :
  mesh_wf m = true → 1 <= GL.nextBuffer (gl s) →
  ∃ g', uploadPositions m s = Ret tt (set_gl g' s)
    ∧ GL.maxVertexAttribs g' = GL.maxVertexAttribs (gl s)
    ∧ GL.nextVertexArray g' = GL.nextVertexArray (gl s)
    ∧ GL.nextBuffer g' = GL.nextBuffer (gl s) + 1
    ∧ GL.vertexArrayBinding g' = GL.vertexArrayBinding (gl s)
    ∧ GL.draws (GL.commands g') = GL.draws (GL.commands (gl s))
    ∧ GL.buffers g'
      = <[GL.nextBuffer (gl s) := positions m]> (GL.buffers (gl s))
    ∧ GL.vertexArrays g'
      = (if GL.validAttrib (CInt.u32_of_int (vPos s)) (gl s)
         then alter (GL.setAttribSource (CInt.u32_of_int (vPos s))
                       (GL.nextBuffer (gl s)))
                (GL.vertexArrayBinding (gl s))
                (alter (GL.enableAttrib (CInt.u32_of_int (vPos s)))
                   (GL.vertexArrayBinding (gl s)) (GL.vertexArrays (gl s)))
         else GL.vertexArrays (gl s)).
Proof.
  intros Hwf Hnb.
  apply mesh_wf_spec in Hwf as ([HN HNmax] & _ & _).
  destruct s as [p vp sc va fa co [ma nv nb vas bs vb ab cs] r].
  simpl in Hnb. unfold uploadPositions.
  run. run.
  erewrite bind_Ret.
  2:{ unfold glBufferData. rewrite bufferData_exact; [reflexivity| |].
      - fold (positions m). rewrite length_positions, HN.
        unfold CInt.usize_mul, CInt.usize, CInt.sizeof_float, CInt.UINT_MAX in *.
        change (4 * 3) with 12. rewrite (Z.mod_small 12) by lia.
        rewrite Z.mod_small by lia.
        replace (12 * Z.of_nat (length (aiMesh.mVertices m)))
          with (Z.of_nat (3 * length (aiMesh.mVertices m)) * 4) by lia.
        rewrite Z.div_mul by lia. apply Nat2Z.id.
      - simpl. lia. }
  run. run. unfold gl_do, modify. eexists. split; [reflexivity|].
  fold (positions m). gl_eval.
  destruct ((0 <=? CInt.u32_of_int vp) && (CInt.u32_of_int vp <? ma)) eqn:Hv;
    gl_eval; rewrite ?Hv; gl_eval;
    rewrite ?draws_snoc_Command; repeat split; reflexivity.
Qed.

Lemma uploadFaces_run m s :
  mesh_wf m = true → aiMesh.HasFaces m = true →
  indexTotal m <= allocated m → allocated m <= CInt.INT_MAX →
  1 <= GL.nextBuffer (gl s) →
  is_Some (GL.vertexArrays (gl s) !! GL.vertexArrayBinding (gl s)) →
  ∃ g', uploadFaces m s
        = Ret tt (set_faceArray (Some (indexStore m)) (set_gl g' s))
    ∧ GL.maxVertexAttribs g' = GL.maxVertexAttribs (gl s)
    ∧ GL.nextVertexArray g' = GL.nextVertexArray (gl s)
    ∧ GL.nextBuffer g' = GL.nextBuffer (gl s) + 1
    ∧ GL.vertexArrayBinding g' = GL.vertexArrayBinding (gl s)
    ∧ GL.arrayBufferBinding g' = GL.arrayBufferBinding (gl s)
    ∧ GL.draws (GL.commands g') = GL.draws (GL.commands (gl s))
    ∧ GL.buffers g'
      = <[GL.nextBuffer (gl s) := indexStore m]> (GL.buffers (gl s))
    ∧ GL.vertexArrays g'
      = alter (GL.setElementBinding (GL.nextBuffer (gl s)))
          (GL.vertexArrayBinding (gl s)) (GL.vertexArrays (gl s)).
Proof.
  intros Hwf Hhas Hfit Hmax Hnb [va0 Hva0].
  pose proof (flattenFaces_run m s Hwf Hhas Hfit Hmax) as Hflat.
  apply mesh_wf_spec in Hwf as (_ & [HF HFmax] & Hfaces).
  pose proof (length_indexStore m Hfaces Hfit) as Hlen.
  pose proof (indexTotal_length m Hfaces) as Htot.
  unfold aiMesh.HasFaces in Hhas.
  destruct (aiMesh.mFaces m) as [|face0 faces] eqn:Hfs; [discriminate|].
  assert (Hsize : Z.to_nat
                    (CInt.usize_mul
                       (CInt.usize_mul CInt.sizeof_uint (aiMesh.mNumFaces m))
                       (aiFace.mNumIndices face0) / 4)
                  = length (indexStore m)).
  { rewrite Hlen. unfold allocated, firstFaceIndices in *. rewrite Hfs in *.
    unfold CInt.usize_mul, CInt.usize, CInt.sizeof_uint, CInt.UINT_MAX,
      CInt.INT_MAX in *.
    rewrite (Z.mod_small (4 * aiMesh.mNumFaces m)) by lia.
    rewrite <- Z.mul_assoc. rewrite Z.mod_small by lia.
    now rewrite Z.mul_comm, Z.div_mul by lia. }
  destruct s as [p vp sc va fa co [ma nv nb vas bs vb ab cs] r].
  simpl in Hnb, Hva0. unfold uploadFaces.
  rewrite (bind_Ret _ _ _ _ _ Hflat). run. run. rewrite Hfs.
  erewrite bind_Ret by reflexivity. cbv beta. run.
  unfold glBufferData. simpl faceArray. cbv iota.
  rewrite bufferData_exact; [| exact Hsize |].
  2:{ simpl. rewrite lookup_alter_eq, Hva0. simpl. lia. }
  eexists. split; [reflexivity|]. simpl.
  rewrite lookup_alter_eq, Hva0. simpl.
  rewrite ?draws_snoc_Command. repeat split; reflexivity.
Qed.
Lemma load_Ret array a i v s :
  0 <= i → a !! Z.to_nat i = Some (UInt v) →
  load array (Some a) i s = Ret v s.
Proof.
  intros Hi Hv. unfold load.
  erewrite bind_Ret by (apply index_Ret; eassumption). reflexivity.
Qed.

Lemma glGenVertexArrays_vaoArray_run i a s :
  vaoArray s = Some a → 0 <= i → (Z.to_nat i < length a)%nat →
  glGenVertexArrays_vaoArray i s
  = Ret tt (set_vaoArray
              (Some (<[Z.to_nat i := UInt (GL.nextVertexArray (gl s))]> a))
              (set_gl (snd (GL.genVertexArray (gl s))) s)).
Proof.
  intros Ha Hi Hlt. unfold glGenVertexArrays_vaoArray. run.
  unfold GL.genVertexArray at 1. cbv beta iota zeta.
  rewrite Ha. unfold store.
  destruct (Z.leb_spec 0 i); [|lia].
  destruct (Z.ltb_spec i (Z.of_nat (length a))); [|lia].
  simpl andb. cbv iota. run. reflexivity.
Qed.

(** The device after [glGenVertexArrays] and the binding of the new name. *)
Lemma genBind_fields g :
  1 <= GL.nextVertexArray g →
  let g' := GL.bindVertexArray (GL.nextVertexArray g)
              (snd (GL.genVertexArray g)) in
  GL.maxVertexAttribs g' = GL.maxVertexAttribs g
  ∧ GL.nextVertexArray g' = GL.nextVertexArray g + 1
  ∧ GL.nextBuffer g' = GL.nextBuffer g
  ∧ GL.vertexArrayBinding g' = GL.nextVertexArray g
  ∧ GL.draws (GL.commands g') = GL.draws (GL.commands g)
  ∧ GL.buffers g' = GL.buffers g
  ∧ GL.vertexArrays g'
    = <[GL.nextVertexArray g := GL.defaultVertexArray]> (GL.vertexArrays g).
Proof.
  destruct g as [ma nv nb vas bs vb ab cs]. intros Hnv. gl_eval.
  destruct (Z.eqb_spec nv 0) as [|_]; [simpl in Hnv; lia|].
  rewrite lookup_insert_eq. gl_eval.
  rewrite draws_app, draws_snoc_Command, app_nil_r. repeat split.
Qed.

(** The device after the three unbinding calls that end the loop body. *)
Lemma unbind_fields g :
  let g' := GL.bindBuffer GL.ELEMENT_ARRAY_BUFFER 0
              (GL.bindBuffer GL.ARRAY_BUFFER 0 (GL.bindVertexArray 0 g)) in
  GL.maxVertexAttribs g' = GL.maxVertexAttribs g
  ∧ GL.nextVertexArray g' = GL.nextVertexArray g
  ∧ GL.nextBuffer g' = GL.nextBuffer g
  ∧ GL.vertexArrayBinding g' = 0
  ∧ GL.draws (GL.commands g') = GL.draws (GL.commands g)
  ∧ GL.buffers g' = GL.buffers g
  ∧ GL.vertexArrays g'
    = alter (GL.setElementBinding 0) 0 (GL.vertexArrays g).
Proof.
  destruct g as [ma nv nb vas bs vb ab cs]. gl_eval.
  change (0 =? 0) with true. gl_eval.
  rewrite !draws_snoc_Command, draws_app, app_nil_r. repeat split.
Qed.

Lemma when_uploadPositions_run m s :
  mesh_wf m = true → 1 <= GL.nextBuffer (gl s) →
  ∃ g', when (aiMesh.HasPositions m) (uploadPositions m) s
        = Ret tt (set_gl g' s)
    ∧ GL.maxVertexAttribs g' = GL.maxVertexAttribs (gl s)
    ∧ GL.nextVertexArray g' = GL.nextVertexArray (gl s)
    ∧ GL.nextBuffer g'
      = GL.nextBuffer (gl s) + (if aiMesh.HasPositions m then 1 else 0)
    ∧ GL.vertexArrayBinding g' = GL.vertexArrayBinding (gl s)
    ∧ GL.draws (GL.commands g') = GL.draws (GL.commands (gl s))
    ∧ GL.buffers g'
      = (if aiMesh.HasPositions m
         then <[GL.nextBuffer (gl s) := positions m]> (GL.buffers (gl s))
         else GL.buffers (gl s))
    ∧ GL.vertexArrays g'
      = (if aiMesh.HasPositions m
            && GL.validAttrib (CInt.u32_of_int (vPos s)) (gl s)
         then alter (GL.setAttribSource (CInt.u32_of_int (vPos s))
                       (GL.nextBuffer (gl s)))
                (GL.vertexArrayBinding (gl s))
                (alter (GL.enableAttrib (CInt.u32_of_int (vPos s)))
                   (GL.vertexArrayBinding (gl s)) (GL.vertexArrays (gl s)))
         else GL.vertexArrays (gl s)).
Proof.
  intros Hwf Hnb. destruct (aiMesh.HasPositions m); simpl.
  - now apply uploadPositions_run.
  - exists (gl s). unfold ret. rewrite Z.add_0_r.
    repeat split. now destruct s.
Qed.

Lemma when_uploadFaces_run m s :
  mesh_wf m = true → mesh_uploadable m = true →
  1 <= GL.nextBuffer (gl s) →
  is_Some (GL.vertexArrays (gl s) !! GL.vertexArrayBinding (gl s)) →
  ∃ g' fa, when (aiMesh.HasFaces m) (uploadFaces m) s
           = Ret tt (set_faceArray fa (set_gl g' s))
    ∧ GL.maxVertexAttribs g' = GL.maxVertexAttribs (gl s)
    ∧ GL.nextVertexArray g' = GL.nextVertexArray (gl s)
    ∧ GL.nextBuffer g'
      = GL.nextBuffer (gl s) + (if aiMesh.HasFaces m then 1 else 0)
    ∧ GL.vertexArrayBinding g' = GL.vertexArrayBinding (gl s)
    ∧ GL.draws (GL.commands g') = GL.draws (GL.commands (gl s))
    ∧ GL.buffers g'
      = (if aiMesh.HasFaces m
         then <[GL.nextBuffer (gl s) := indexStore m]> (GL.buffers (gl s))
         else GL.buffers (gl s))
    ∧ GL.vertexArrays g'
      = (if aiMesh.HasFaces m
         then alter (GL.setElementBinding (GL.nextBuffer (gl s)))
                (GL.vertexArrayBinding (gl s)) (GL.vertexArrays (gl s))
         else GL.vertexArrays (gl s)).
Proof.
  intros Hwf Hup Hnb Hva. unfold mesh_uploadable in Hup.
  destruct (aiMesh.HasFaces m) eqn:Hhas; simpl in *.
  - apply andb_prop in Hup as [Hfit Hmax]. apply Z.leb_le in Hfit, Hmax.
    destruct (uploadFaces_run m s Hwf Hhas Hfit Hmax Hnb Hva)
      as (g' & Hrun & H1 & H2 & H3 & H4 & _ & H5 & H6 & H7).
    exists g', (Some (indexStore m)). repeat split; assumption.
  - exists (gl s), (faceArray s). unfold ret. rewrite Z.add_0_r.
    repeat split. now destruct s.
Qed.
Lemma gl_set_gl g s : gl (set_gl g s) = g.
Proof. reflexivity. Qed.

Lemma uploadMesh_run sc i m a s :
  scene s = Some sc → 0 <= i →
  aiScene.mMeshes sc !! Z.to_nat i = Some m →
  vaoArray s = Some a → (Z.to_nat i < length a)%nat →
  mesh_wf m = true → mesh_uploadable m = true →
  1 <= GL.nextVertexArray (gl s) → 1 <= GL.nextBuffer (gl s) →
  ∃ s', uploadMesh i s = Ret tt s'
    ∧ program s' = program s ∧ vPos s' = vPos s ∧ scene s' = scene s
    ∧ cout s' = cout s ∧ redisplayPosted s' = redisplayPosted s
    ∧ vaoArray s'
      = Some (<[Z.to_nat i := UInt (GL.nextVertexArray (gl s))]> a)
    ∧ GL.maxVertexAttribs (gl s') = GL.maxVertexAttribs (gl s)
    ∧ GL.nextVertexArray (gl s') = GL.nextVertexArray (gl s) + 1
    ∧ GL.nextBuffer (gl s) <= GL.nextBuffer (gl s')
    ∧ GL.vertexArrayBinding (gl s') = 0
    ∧ GL.draws (GL.commands (gl s')) = GL.draws (GL.commands (gl s))
    ∧ (∀ x, x ≠ GL.nextVertexArray (gl s) → x ≠ 0 →
            GL.vertexArrays (gl s') !! x = GL.vertexArrays (gl s) !! x)
    ∧ (∀ x, x < GL.nextBuffer (gl s) →
            GL.buffers (gl s') !! x = GL.buffers (gl s) !! x)
    ∧ holdsMesh (gl s') (vPos s) (GL.nextVertexArray (gl s)) m.
Proof.
  intros Hsc Hi Hm Ha Hlt Hwf Hup Hnv Hnb.
  unfold uploadMesh. run. rewrite Hsc.
  erewrite bind_Ret by reflexivity. cbv beta.
  erewrite bind_Ret by (apply index_Ret; eassumption).
  erewrite bind_Ret by (apply glGenVertexArrays_vaoArray_run; eassumption).
  run.
  erewrite bind_Ret.
  2:{ apply load_Ret; [exact Hi|]. now apply list_lookup_insert_eq. }
  run.
  match goal with |- ∃ s', bind _ _ ?st = _ ∧ _ => set (s2 := st) end.
  destruct (genBind_fields (gl s) Hnv) as (A1 & A2 & A3 & A4 & A5 & A6 & A7).
  change (GL.bindVertexArray (GL.nextVertexArray (gl s))
            (snd (GL.genVertexArray (gl s)))) with (gl s2) in *.
  destruct (when_uploadPositions_run m s2 Hwf)
    as (g3 & Hrun3 & B1 & B2 & B3 & B4 & B5 & B6 & B7); [lia|].
  rewrite (bind_Ret _ _ _ _ _ Hrun3).
  assert (Hvalid : GL.validAttrib (CInt.u32_of_int (vPos s2)) (gl s2)
                   = GL.validAttrib (CInt.u32_of_int (vPos s)) (gl s))
    by (unfold GL.validAttrib; now rewrite A1).
  rewrite Hvalid, A4, A7, A3 in B7. rewrite A6, A3 in B6. rewrite A3 in B3.
  rewrite A1 in B1. rewrite A2 in B2. rewrite A4 in B4. rewrite A5 in B5.
  change (vPos s2) with (vPos s) in B7.
  destruct (when_uploadFaces_run m (set_gl g3 s2) Hwf Hup)
    as (g4 & fa & Hrun4 & C1 & C2 & C3 & C4 & C5 & C6 & C7).
  { simpl. rewrite B3. destruct (aiMesh.HasPositions m); lia. }
  { simpl. rewrite B4, B7.
    destruct (aiMesh.HasPositions m
              && GL.validAttrib (CInt.u32_of_int (vPos s)) (gl s));
      rewrite ?lookup_alter_eq, lookup_insert_eq; simpl; eauto. }
  rewrite (bind_Ret _ _ _ _ _ Hrun4).
  simpl gl in C1, C2, C3, C4, C5, C6, C7.
  rewrite B1 in C1. rewrite B2 in C2. rewrite B3 in C3, C6, C7.
  rewrite B4 in C4, C7. rewrite B5 in C5. rewrite B6 in C6. rewrite B7 in C7.
  clear B1 B2 B3 B4 B5 B6 B7 A1 A2 A3 A4 A5 A6 A7 Hvalid Hrun3 Hrun4.
  run. run.
  destruct (unbind_fields g4) as (D1 & D2 & D3 & D4 & D5 & D6 & D7).
  rewrite C1 in D1. rewrite C2 in D2. rewrite C3 in D3. rewrite C5 in D5.
  rewrite C6 in D6. rewrite C7 in D7.
  clear C1 C2 C3 C4 C5 C6 C7.
  exists (set_gl (GL.bindBuffer GL.ELEMENT_ARRAY_BUFFER 0
                    (GL.bindBuffer GL.ARRAY_BUFFER 0
                       (GL.bindVertexArray 0 g4)))
            (set_faceArray fa (set_gl g3 s2))).
  split; [reflexivity|].
  rewrite !gl_set_gl.
  set (v := GL.nextVertexArray (gl s)) in *.
  set (nb := GL.nextBuffer (gl s)) in *.
  repeat (split; [first [reflexivity | assumption]|]).
  split; [rewrite D3; destruct (aiMesh.HasPositions m), (aiMesh.HasFaces m); lia|].
  split; [assumption|]. split; [assumption|].
  split; [|split].
  - intros x Hxv Hx0. rewrite D7.
    destruct (aiMesh.HasFaces m),
      (aiMesh.HasPositions m
       && GL.validAttrib (CInt.u32_of_int (vPos s)) (gl s));
      rewrite ?lookup_alter_ne, ?lookup_insert_ne by congruence; reflexivity.
  - intros x Hx. rewrite D6.
    destruct (aiMesh.HasFaces m), (aiMesh.HasPositions m);
      rewrite ?lookup_insert_ne by lia; reflexivity.
  - unfold holdsMesh. rewrite D7, D6, D3.
    unfold GL.validAttrib. rewrite D1.
    fold (GL.validAttrib (CInt.u32_of_int (vPos s)) (gl s)).
    rewrite lookup_alter_ne by (unfold v; lia).
    destruct (aiMesh.HasFaces m) eqn:Hf, (aiMesh.HasPositions m) eqn:Hp,
      (GL.validAttrib (CInt.u32_of_int (vPos s)) (gl s)) eqn:Hv; simpl;
      rewrite ?lookup_alter_eq, ?lookup_insert_eq; simpl;
      eexists; (split; [reflexivity|]); simpl;
      rewrite ?lookup_insert_eq;
      repeat split; try lia; try discriminate; intros _;
      try (exists nb; rewrite ?lookup_insert_eq,
             ?(lookup_insert_ne _ (nb + 1) nb) by lia;
           rewrite ?lookup_insert_eq;
           repeat split; try lia; try discriminate; auto).
Qed.
(** ** The loop over the meshes *)

Lemma holdsMesh_frame g g' vp v m :
  holdsMesh g vp v m →
  GL.vertexArrays g' !! v = GL.vertexArrays g !! v →
  (∀ x, x < GL.nextBuffer g → GL.buffers g' !! x = GL.buffers g !! x) →
  GL.nextBuffer g <= GL.nextBuffer g' →
  GL.maxVertexAttribs g' = GL.maxVertexAttribs g →
  holdsMesh g' vp v m.
Proof.
  intros (va & Hva & Hf & Hp) Hvas Hbs Hnb Hma.
  exists va. split; [congruence|]. split.
  - destruct (aiMesh.HasFaces m); [|exact Hf].
    destruct Hf as [Hr Hb]. split; [lia|]. rewrite Hbs by lia. exact Hb.
  - intros Hhas. destruct (Hp Hhas) as (b & Hr & Hb & Hsrc).
    exists b. split; [lia|]. split; [rewrite Hbs by lia; exact Hb|].
    unfold GL.validAttrib in *. rewrite Hma. exact Hsrc.
Qed.

Lemma forallb_lookup {A} (f : A → bool) (l : list A) i x :
  forallb f l = true → l !! i = Some x → f x = true.
Proof.
  rewrite forallb_forall. intros H Hx. apply H.
  apply list_elem_of_In, list_elem_of_lookup. eauto.
Qed.

Lemma uploadLoop_run sc s0 :
  forallb mesh_wf (aiScene.mMeshes sc) = true →
  scene_uploadable sc = true →
  1 <= GL.nextVertexArray (gl s0) → 1 <= GL.nextBuffer (gl s0) →
  ∀ count i s,
    (i + count)%nat = length (aiScene.mMeshes sc) →
    uploadedFirst sc s0 i s →
    ∃ s', iterate count (Z.of_nat i) (fun i _ => uploadMesh i) tt s = Ret tt s'
          ∧ uploadedFirst sc s0 (length (aiScene.mMeshes sc)) s'.
Proof.
  intros Hwf Hup Hnv Hnb count.
  induction count as [|count IH]; intros i s Hlen Hinv.
  - exists s. split; [reflexivity|].
    now replace (length (aiScene.mMeshes sc)) with i by lia.
  - destruct Hinv as (I1 & I2 & I3 & I4 & I5 & I6 & I7 & I8 & I9
                      & a & Ia & Il & Iall).
    destruct (lookup_lt_is_Some_2 (aiScene.mMeshes sc) i) as [m Hm]; [lia|].
    destruct (uploadMesh_run sc (Z.of_nat i) m a s)
      as (s1 & Hrun & U1 & U2 & U3 & U4 & U5 & U6 & U7 & U8 & U9 & U10 & U11
          & U12 & U13 & U14);
      rewrite ?Nat2Z.id; try assumption; try lia.
    { eapply forallb_lookup; eassumption. }
    { eapply forallb_lookup; eassumption. }
    rewrite Nat2Z.id in U6.
    rewrite iterate_S, (bind_Ret _ _ _ _ _ Hrun).
    replace (Z.of_nat i + 1) with (Z.of_nat (S i)) by lia.
    apply IH; [lia|].
    unfold uploadedFirst.
    repeat (split; [first [congruence | lia]|]).
    exists (<[i := UInt (GL.nextVertexArray (gl s))]> a).
    split; [exact U6|]. split; [now rewrite length_insert|].
    intros j mj Hj Hmj.
    destruct (decide (j = i)) as [->|Hne].
    + rewrite list_lookup_insert_eq by lia.
      replace mj with m by congruence. rewrite <- I7, <- I2. auto.
    + rewrite list_lookup_insert_ne by congruence.
      destruct (Iall j mj) as [Ha Hh]; [lia|exact Hmj|].
      split; [exact Ha|].
      eapply holdsMesh_frame; [exact Hh| | |lia|congruence].
      * apply U12; lia.
      * exact U13.
Qed.
(** ** [init] on a scene that loads *)

Lemma issues_nil_bind g (c : M unit) (k : unit → M unit) l1 l2 :
  issues g c [] l1 → issues g (k tt) [] l2 → issues g (bind c k) [] (l1 ++ l2).
Proof. exact (issues_bind g c k [] l1 [] l2). Qed.

Lemma issues_print_lines g lines : issues g (print_lines lines) [] lines.
Proof.
  intros t _. unfold print_lines, modify, emit, set_cout. simpl.
  rewrite app_nil_r.
  now destruct t as [p v sc va fa co [ma nv nb vas bs vb ab cs] r].
Qed.

Lemma emit_lines l s : emit [] l s = set_cout (cout s ++ l) s.
Proof.
  destruct s as [p v sc va fa co [ma nv nb vas bs vb ab cs] r].
  unfold emit, set_cout. simpl. now rewrite app_nil_r.
Qed.

(** A loop that reads the entries of an array one after the other. *)
Lemma readLoop_issues {A} g array (arr : list A) (use : Z → A → M unit) :
  (∀ i x, ∃ l, issues g (use i x) [] l) →
  ∀ rest pre,
    arr = pre ++ rest →
    ∃ l, issues g (iterate (length rest) (Z.of_nat (length pre))
                     (fun i _ => x <- index array arr i ;; use i x) tt) [] l.
Proof.
  intros Huse rest. induction rest as [|x rest IH]; intros pre Harr.
  - exists []. apply issues_ret.
  - destruct (Huse (Z.of_nat (length pre)) x) as [l1 H1].
    destruct (IH (pre ++ [x])) as [l2 H2]; [now rewrite <- app_assoc|].
    exists (l1 ++ l2). change (length (x :: rest)) with (S (length rest)).
    rewrite iterate_S. apply issues_nil_bind.
    + intros t Ht. erewrite bind_Ret.
      2:{ apply index_Ret; [lia|].
          rewrite Nat2Z.id, Harr. now apply list_lookup_middle. }
      now apply H1.
    + replace (Z.of_nat (length pre) + 1)
        with (Z.of_nat (length (pre ++ [x])))
        by (rewrite length_app; simpl; lia).
      exact H2.
Qed.

Lemma printChildren_issues g w cs :
  Forall (fun child =>
            match child with
            | Some c => node_wf c = true → ∃ l, issues g (printNode w c) [] l
            | None => True
            end) cs →
  forallb (fun child => match child with
                        | None => true
                        | Some c => node_wf c
                        end) cs = true →
  ∀ j, ∃ l, issues g (forChildren (print printNullNode) (printNode w) cs
                        (length cs) j) [] l.
Proof.
  induction 1 as [|child cs Hc _ IH]; intros Hall j.
  - exists []. apply issues_ret.
  - simpl in Hall. apply andb_prop in Hall as [Hd Hall].
    destruct (IH Hall (j + 1)) as [l2 H2].
    assert (∃ l1, issues g match child with
                           | Some c => printNode w c
                           | None => print printNullNode
                           end [] l1) as [l1 H1].
    { destruct child as [c|]; [now apply Hc|].
      eexists. apply issues_print. }
    exists (l1 ++ l2). simpl. now apply issues_nil_bind.
Qed.

Lemma printNode_eq w node :
  printNode w node
  = bind (for_loop (aiNode.mNumMeshes node)
            (fun i _ => bind (index "node->mMeshes" (aiNode.mMeshes node) i)
                          (fun _ => ret tt)) tt)
      (fun _ => bind (print_lines (nodeInfo w node))
                  (fun _ => forChildren (print printNullNode) (printNode w)
                              (aiNode.mChildren node)
                              (Z.to_nat (aiNode.mNumChildren node)) 0)).
Proof. now destruct node. Qed.

Lemma printNode_issues g w node :
  node_wf node = true → ∃ l, issues g (printNode w node) [] l.
Proof.
  induction node as [nm ms nc cs IH] using aiNode_ind. intros Hwf.
  simpl in Hwf. apply andb_prop in Hwf as [[Hnm Hnc]%andb_prop Hcs].
  apply counts_spec in Hnm as [-> _], Hnc as [-> _].
  rewrite printNode_eq. simpl aiNode.mNumMeshes. simpl aiNode.mMeshes.
  simpl aiNode.mNumChildren. simpl aiNode.mChildren.
  unfold for_loop. rewrite !Nat2Z.id.
  destruct (readLoop_issues g "node->mMeshes" ms (fun _ _ => ret tt)) with
    (rest := ms) (pre := @nil Z) as [l1 H1]; [|reflexivity|].
  { intros _ _. exists []. apply issues_ret. }
  destruct (printChildren_issues g w cs IH Hcs 0) as [l3 H3].
  eexists.
  apply issues_nil_bind; [exact H1|].
  apply issues_nil_bind; [apply issues_print_lines | exact H3].
Qed.

Lemma printAiSceneInfo_issues g w sc :
  scene_wf sc = true → ∃ l, issues g (printAiSceneInfo w (Some sc)) [] l.
Proof.
  unfold scene_wf, meshes_wf. intros [[Hn _]%andb_prop Hroot]%andb_prop.
  apply counts_spec in Hn as [Hn _].
  assert (∃ l, issues g (printNodeTree w (aiScene.mRootNode sc)) [] l)
    as [l1 H1].
  { destruct (aiScene.mRootNode sc) as [root|];
      [now apply printNode_issues | eexists; apply issues_print]. }
  assert (∃ l, issues g
                 (when (aiScene.HasMeshes sc)
                    (bind (print "")
                       (fun _ => bind (print "---------- Meshes ----------")
                          (fun _ => bind (print ("Total number of meshes: "
                                                 ++ decimal w
                                                      (aiScene.mNumMeshes sc)))
                             (fun _ => bind (print "")
                                (fun _ => for_loop (aiScene.mNumMeshes sc)
                                   (fun i _ =>
                                      bind (index "scene->mMeshes"
                                              (aiScene.mMeshes sc) i)
                                        (fun currentMesh =>
                                           print_lines
                                             (meshInfo w i currentMesh)))
                                   tt)))))) [] l)
    as [l2 H2].
  { destruct (aiScene.HasMeshes sc); [|exists []; apply issues_ret].
    unfold for_loop. rewrite Hn, Nat2Z.id.
    destruct (readLoop_issues g "scene->mMeshes" (aiScene.mMeshes sc)
                (fun i m => print_lines (meshInfo w i m))) with
      (rest := aiScene.mMeshes sc) (pre := @nil aiMesh.t) as [l H];
      [|reflexivity|].
    { intros i m. eexists. apply issues_print_lines. }
    eexists. simpl when.
    repeat (apply issues_nil_bind; [apply issues_print|]). exact H. }
  eexists. unfold printAiSceneInfo.
  apply issues_nil_bind; [apply issues_print|].
  apply issues_nil_bind; [apply issues_print|].
  apply issues_nil_bind; [exact H1|].
  apply issues_nil_bind; [exact H2|].
  apply issues_print_lines.
Qed.

Lemma load3DFile_run w sc s :
  fileGood w objectFileName = true → ReadFile w objectFileName = Some sc →
  scene_wf sc = true →
  ∃ l, load3DFile w objectFileName s
       = Ret true (set_cout (cout s ++ l) (set_scene (Some sc) s)).
Proof.
  intros Hgood Hread Hwf. unfold load3DFile. rewrite Hgood.
  run. run. run.
  change (scene (set_scene (ReadFile w objectFileName)
                   (set_cout (cout s ++ [("Loading 3D file "
                                          ++ objectFileName)%string]) s)))
    with (ReadFile w objectFileName).
  rewrite Hread. run.
  match goal with
  | |- ∃ l, bind _ _ ?st = _ => set (s1 := st)
  end.
  destruct (printAiSceneInfo_issues (globals s1) w sc Hwf) as [l Hl].
  rewrite (bind_Ret _ _ _ _ _ (Hl s1 eq_refl)), emit_lines.
  eexists. unfold ret, s1, set_cout, set_scene. simpl.
  rewrite <- !app_assoc. reflexivity.
Qed.

Lemma scene_wf_meshes sc : scene_wf sc = true → meshes_wf sc = true.
Proof. unfold scene_wf. now intros [H _]%andb_prop. Qed.

Lemma length_malloc_uints n :
  0 <= n <= CInt.UINT_MAX →
  length (malloc (CInt.usize_mul CInt.sizeof_uint n)) = Z.to_nat n.
Proof.
  intros Hn. unfold malloc, CInt.usize_mul, CInt.usize, CInt.sizeof_uint,
    CInt.UINT_MAX in *.
  rewrite repeat_length, Z.mod_small by lia.
  now rewrite Z.mul_comm, Z.div_mul by lia.
Qed.

Lemma machine_fields g g' :
  GL.machine g' = GL.machine g →
  GL.maxVertexAttribs g' = GL.maxVertexAttribs g
  ∧ GL.nextVertexArray g' = GL.nextVertexArray g
  ∧ GL.nextBuffer g' = GL.nextBuffer g
  ∧ GL.vertexArrays g' = GL.vertexArrays g
  ∧ GL.buffers g' = GL.buffers g
  ∧ GL.vertexArrayBinding g' = GL.vertexArrayBinding g.
Proof.
  unfold GL.machine. intros H. injection H. intros. repeat split; assumption.
Qed.

Lemma init_run w s0 maxAttribs sc :
  gl s0 = GL.fresh maxAttribs →
  fileGood w objectFileName = true → ReadFile w objectFileName = Some sc →
  scene_wf sc = true → scene_uploadable sc = true →
  ∃ s' a, init w s0 = Ret tt s'
    ∧ scene s' = Some sc
    ∧ redisplayPosted s' = redisplayPosted s0
    ∧ GL.draws (GL.commands (gl s')) = []
    ∧ GL.maxVertexAttribs (gl s') = maxAttribs
    ∧ vaoArray s' = Some a
    ∧ length a = length (aiScene.mMeshes sc)
    ∧ ∀ j m, aiScene.mMeshes sc !! j = Some m →
             a !! j = Some (UInt (1 + Z.of_nat j))
             ∧ holdsMesh (gl s') (vPos s') (1 + Z.of_nat j) m.
Proof.
  intros Hfresh Hgood Hread Hswf Hup.
  pose proof (scene_wf_meshes sc Hswf) as Hwf.
  unfold meshes_wf in Hwf. apply andb_prop in Hwf as [Hn Hwf].
  apply counts_spec in Hn as [Hn Hnmax].
  destruct (buildShaders_run w s0)
    as (s1 & Hrun1 & _ & _ & _ & _ & _ & Hr1 & Hm1 & Hd1 & _).
  apply machine_fields in Hm1 as (M1 & M2 & M3 & _ & _ & _).
  rewrite Hfresh in M1, M2, M3, Hd1. simpl in M1, M2, M3, Hd1.
  unfold init. rewrite (bind_Ret _ _ _ _ _ Hrun1).
  destruct (load3DFile_run w sc s1 Hgood Hread Hswf) as [lines Hload].
  rewrite (bind_Ret _ _ _ _ _ Hload).
  cbv beta. change (negb true) with false. cbv iota. run.
  erewrite bind_Ret by reflexivity. cbv beta. run.
  match goal with
  | |- ∃ s' a, bind (for_loop _ _ _) _ ?st = _ ∧ _ => set (s3 := st)
  end.
  destruct (uploadLoop_run sc s3 Hwf Hup) with
    (count := length (aiScene.mMeshes sc)) (i := 0%nat) (s := s3)
    as (s4 & Hrun4 & I1 & I2 & I3 & I4 & I5 & I6 & I7 & I8 & I9
        & a & Ia & Il & Iall).
  { simpl. lia. }
  { simpl. lia. }
  { reflexivity. }
  { unfold uploadedFirst. repeat (split; [first [reflexivity | lia]|]).
    eexists. split; [reflexivity|]. split; [|intros j m Hj; lia].
    rewrite length_malloc_uints by lia. lia. }
  unfold for_loop. rewrite Hn, Nat2Z.id.
  change (Z.of_nat 0) with 0 in Hrun4.
  rewrite (bind_Ret _ _ _ _ _ Hrun4).
  eexists. exists a. split; [reflexivity|].
  unfold checkOpenGLError, print_lines, gl_call, gl_do, modify, bind.
  simpl. rewrite !draws_snoc_Command.
  simpl in I2, I6, I7, I9.
  split; [exact I3|]. split; [now rewrite I5|]. split; [congruence|].
  split; [congruence|]. split; [exact Ia|]. split; [exact Il|].
  intros j m Hm.
  destruct (Iall j m) as [Ha Hh];
    [apply lookup_lt_Some in Hm; lia | exact Hm |].
  simpl in Ha, Hh. rewrite M2 in Ha, Hh. split; [exact Ha|].
  rewrite I2. eapply holdsMesh_frame; [exact Hh| | | |]; simpl;
    first [reflexivity | lia].
Qed.

(** ** What [init] leaves on the device *)

Lemma lookup_concat_uniform {A} (ls : list (list A)) K j q l x :
  Forall (fun l => length l = K) ls →
  ls !! j = Some l → l !! q = Some x →
  concat ls !! (j * K + q)%nat = Some x.
Proof.
  intros Hall. revert j. induction Hall as [|l0 ls Hl0 _ IH]; intros j Hl Hx.
  - discriminate.
  - destruct j as [|j]; simpl in Hl |- *.
    + injection Hl as ->. now apply lookup_app_l_Some.
    + rewrite lookup_app_r by lia.
      replace (K + j * K + q - length l0)%nat with (j * K + q)%nat by lia.
      now apply IH.
Qed.

Lemma uniform_indexStore m K :
  mesh_wf m = true → aiMesh.HasFaces m = true →
  (∀ f, In f (aiMesh.mFaces m) → aiFace.mNumIndices f = K) →
  indexStore m = map UInt (faceIndices m)
  ∧ Z.of_nat (length (faceIndices m)) = aiMesh.mNumFaces m * K
  ∧ Forall (fun l => length l = Z.to_nat K) (map aiFace.mIndices (aiMesh.mFaces m)).
Proof.
  intros Hwf Hhas HK.
  pose proof (mesh_wf_spec m Hwf) as (_ & _ & Hfaces).
  assert (Hfirst : firstFaceIndices m = K).
  { unfold firstFaceIndices, aiMesh.HasFaces in *.
    destruct (aiMesh.mFaces m); [discriminate|]. apply HK. now left. }
  assert (Hu : uniformFaces m = true).
  { unfold uniformFaces. apply forallb_forall. intros f Hf.
    rewrite Hfirst. apply Z.eqb_eq. now apply HK. }
  pose proof (uniformFaces_total m Hwf Hu) as Htot.
  split; [|split].
  - unfold indexStore. rewrite Htot, Z.sub_diag. simpl. apply app_nil_r.
  - rewrite <- indexTotal_length, Htot by exact Hfaces.
    unfold allocated. now rewrite Hfirst.
  - apply List.Forall_forall. intros l Hl. apply in_map_iff in Hl as (f & <- & Hf).
    rewrite forallb_forall in Hfaces. specialize (Hfaces f Hf).
    apply counts_spec in Hfaces as [Hc _]. rewrite <- (HK f Hf), Hc. lia.
Qed.

(** C1: when the scene loads and the copy loop stays inside its
    allocation for every mesh, [init] returns, and for every mesh with
    faces, all of [K] indices, the index buffer of the vertex array object
    whose name is in the mesh's entry of the handle table holds the indices
    of the faces in face order, each face in index order: [mNumFaces * K]
    entries, index [q] of face [j] at position [j * K + q]. *)
Theorem index_buffer_flattened (w : World) (maxAttribs : Z) (sc : aiScene.t) :
  fileGood w objectFileName = true → ReadFile w objectFileName = Some sc →
  scene_wf sc = true → scene_uploadable sc = true →
  ∃ s' a, init w (startup maxAttribs) = Ret tt s'
    ∧ vaoArray s' = Some a
    ∧ ∀ i m K,
        aiScene.mMeshes sc !! i = Some m → aiMesh.HasFaces m = true →
        (∀ f, In f (aiMesh.mFaces m) → aiFace.mNumIndices f = K) →
        ∃ v, a !! i = Some (UInt v)
             ∧ GL.elementStore v (gl s') = Some (map UInt (faceIndices m))
             ∧ Z.of_nat (length (map UInt (faceIndices m)))
               = aiMesh.mNumFaces m * K
             ∧ ∀ j q f x,
                 aiMesh.mFaces m !! j = Some f →
                 aiFace.mIndices f !! q = Some x →
                 map UInt (faceIndices m) !! (j * Z.to_nat K + q)%nat
                 = Some (UInt x).
Proof.
  intros Hgood Hread Hwf Hup.
  destruct (init_run w (startup maxAttribs) maxAttribs sc eq_refl Hgood Hread
              Hwf Hup)
    as (s' & a & Hrun & _ & _ & _ & _ & Ha & _ & Hall).
  exists s', a. split; [exact Hrun|]. split; [exact Ha|].
  intros i m K Hm Hhas HK.
  destruct (Hall i m Hm) as [Hv (va & Hva & Hf & _)].
  rewrite Hhas in Hf. destruct Hf as [_ Hstore].
  apply scene_wf_meshes in Hwf.
  unfold meshes_wf in Hwf. apply andb_prop in Hwf as [_ Hwf].
  pose proof (forallb_lookup _ _ _ _ Hwf Hm) as Hmwf.
  destruct (uniform_indexStore m K Hmwf Hhas HK) as (Hix & Hlen & Hlens).
  exists (1 + Z.of_nat i). split; [exact Hv|]. split; [|split].
  - unfold GL.elementStore. rewrite Hva. simpl. now rewrite <- Hix.
  - now rewrite length_map.
  - intros j q f x Hf Hx. rewrite list_lookup_fmap. unfold faceIndices.
    erewrite lookup_concat_uniform; [reflexivity|exact Hlens| |exact Hx].
    rewrite list_lookup_fmap, Hf. reflexivity.
Qed.

Lemma index_buffer_flattened_witness :
  ∃ s' a, init (worldWith exampleScene) (startup 16) = Ret tt s'
    ∧ vaoArray s' = Some a
    ∧ ∀ i m K,
        aiScene.mMeshes exampleScene !! i = Some m →
        aiMesh.HasFaces m = true →
        (∀ f, In f (aiMesh.mFaces m) → aiFace.mNumIndices f = K) →
        ∃ v, a !! i = Some (UInt v)
             ∧ GL.elementStore v (gl s') = Some (map UInt (faceIndices m))
             ∧ Z.of_nat (length (map UInt (faceIndices m)))
               = aiMesh.mNumFaces m * K
             ∧ ∀ j q f x,
                 aiMesh.mFaces m !! j = Some f →
                 aiFace.mIndices f !! q = Some x →
                 map UInt (faceIndices m) !! (j * Z.to_nat K + q)%nat
                 = Some (UInt x).
Proof.
  apply (index_buffer_flattened (worldWith exampleScene) 16 exampleScene);
    reflexivity.
Defined.

(** The example of the specification: the handle table has two entries,
    the index buffer of mesh 0 has 6 entries and that of mesh 1 has 3. *)
Example example_index_buffers :
  vaoArray exampleReady = Some [UInt 1; UInt 2]
  ∧ GL.elementStore 1 (gl exampleReady)
    = Some [UInt 0; UInt 1; UInt 2; UInt 0; UInt 2; UInt 3]
  ∧ GL.elementStore 2 (gl exampleReady) = Some [UInt 0; UInt 1; UInt 2].
Proof. vm_compute. repeat split. Qed.

(** C2: when the scene loads, for every mesh with vertex positions a
    buffer of the device holds the flat position array of the mesh, float
    for float in the same order, [3 * mNumVertices] floats; when [vPos] is a
    valid attribute index, that attribute of the mesh's vertex array object
    reads from this buffer. *)
Theorem position_buffer_identity (w : World) (maxAttribs : Z)
    (sc : aiScene.t) :
  fileGood w objectFileName = true → ReadFile w objectFileName = Some sc →
  scene_wf sc = true → scene_uploadable sc = true →
  ∃ s' a, init w (startup maxAttribs) = Ret tt s'
    ∧ vaoArray s' = Some a
    ∧ ∀ i m,
        aiScene.mMeshes sc !! i = Some m → aiMesh.HasPositions m = true →
        ∃ v b, a !! i = Some (UInt v)
               ∧ GL.buffers (gl s') !! b
                 = Some (flat_map aiVector3D.cells (aiMesh.mVertices m))
               ∧ Z.of_nat (length (flat_map aiVector3D.cells
                                     (aiMesh.mVertices m)))
                 = 3 * aiMesh.mNumVertices m
               ∧ (GL.validAttrib (CInt.u32_of_int (vPos s')) (gl s') = true →
                  GL.attribStore v (CInt.u32_of_int (vPos s')) (gl s')
                  = Some (flat_map aiVector3D.cells (aiMesh.mVertices m))).
Proof.
  intros Hgood Hread Hwf Hup.
  destruct (init_run w (startup maxAttribs) maxAttribs sc eq_refl Hgood Hread
              Hwf Hup)
    as (s' & a & Hrun & _ & _ & _ & _ & Ha & _ & Hall).
  exists s', a. split; [exact Hrun|]. split; [exact Ha|].
  intros i m Hm Hhas.
  destruct (Hall i m Hm) as [Hv (va & Hva & _ & Hp)].
  destruct (Hp Hhas) as (b & _ & Hb & Hsrc).
  apply scene_wf_meshes in Hwf.
  unfold meshes_wf in Hwf. apply andb_prop in Hwf as [_ Hwf].
  pose proof (forallb_lookup _ _ _ _ Hwf Hm) as Hmwf.
  apply mesh_wf_spec in Hmwf as ([HN _] & _ & _).
  exists (1 + Z.of_nat i), b. split; [exact Hv|]. split; [exact Hb|].
  split.
  - fold (positions m). rewrite length_positions, HN. lia.
  - intros Hvalid. unfold GL.attribStore. rewrite Hva. simpl.
    rewrite (Hsrc Hvalid). simpl. exact Hb.
Qed.

Lemma position_buffer_identity_witness :
  ∃ s' a, init (worldWith exampleScene) (startup 16) = Ret tt s'
    ∧ vaoArray s' = Some a
    ∧ ∀ i m,
        aiScene.mMeshes exampleScene !! i = Some m →
        aiMesh.HasPositions m = true →
        ∃ v b, a !! i = Some (UInt v)
               ∧ GL.buffers (gl s') !! b
                 = Some (flat_map aiVector3D.cells (aiMesh.mVertices m))
               ∧ Z.of_nat (length (flat_map aiVector3D.cells
                                     (aiMesh.mVertices m)))
                 = 3 * aiMesh.mNumVertices m
               ∧ (GL.validAttrib (CInt.u32_of_int (vPos s')) (gl s') = true →
                  GL.attribStore v (CInt.u32_of_int (vPos s')) (gl s')
                  = Some (flat_map aiVector3D.cells (aiMesh.mVertices m))).
Proof.
  apply (position_buffer_identity (worldWith exampleScene) 16 exampleScene);
    reflexivity.
Defined.

(** C3: when the scene loads, the event loop, the only caller of
    [display], is entered in a state in which the handle table has one
    entry per mesh of the scene, entry [i] names a vertex array object that
    holds mesh [i], no two entries name the same object, and no draw call
    has been issued yet. *)
Theorem handle_table_aligned (w : World) (maxAttribs : Z) (sc : aiScene.t) :
  fileGood w objectFileName = true → ReadFile w objectFileName = Some sc →
  scene_wf sc = true → scene_uploadable sc = true →
  ∃ s' a, (∀ events,
             main w events (startup maxAttribs) = glutMainLoop events s')
    ∧ scene s' = Some sc
    ∧ vaoArray s' = Some a
    ∧ Z.of_nat (length a) = aiScene.mNumMeshes sc
    ∧ (∀ i m, aiScene.mMeshes sc !! i = Some m →
              ∃ v, a !! i = Some (UInt v) ∧ holdsMesh (gl s') (vPos s') v m)
    ∧ NoDup a
    ∧ GL.draws (GL.commands (gl s')) = [].
Proof.
  intros Hgood Hread Hwf Hup.
  destruct (init_run w
              (set_cout
                 (((([] ++ [("OpenGL version " ++ glVersion w)%string])
                    ++ [("OpenGL Shading Language version "
                         ++ glslVersion w)%string])
                   ++ [""%string]) ++ openGLErrors w "main()")
                 (startup maxAttribs))
              maxAttribs sc eq_refl Hgood Hread Hwf Hup)
    as (s' & a & Hrun & Hsc & _ & Hd & _ & Ha & Hlen & Hall).
  apply scene_wf_meshes in Hwf.
  unfold meshes_wf in Hwf. apply andb_prop in Hwf as [Hn _].
  apply counts_spec in Hn as [Hn _].
  exists s', a. split; [|repeat split; try assumption].
  - intros events. unfold main, checkOpenGLError, print_lines.
    do 4 (erewrite bind_Ret by reflexivity).
    exact (bind_Ret (init w) _ _ _ _ Hrun).
  - lia.
  - intros i m Hm. exists (1 + Z.of_nat i). now apply Hall.
  - apply NoDup_alt. intros i j x Hi Hj.
    destruct (lookup_lt_is_Some_2 (aiScene.mMeshes sc) i) as [mi Hmi];
      [apply lookup_lt_Some in Hi; lia|].
    destruct (lookup_lt_is_Some_2 (aiScene.mMeshes sc) j) as [mj Hmj];
      [apply lookup_lt_Some in Hj; lia|].
    destruct (Hall i mi Hmi) as [Hi' _]. destruct (Hall j mj Hmj) as [Hj' _].
    rewrite Hi' in Hi. rewrite Hj' in Hj.
    assert (UInt (1 + Z.of_nat i) = UInt (1 + Z.of_nat j)) as Heq
      by congruence.
    injection Heq. lia.
Qed.

Lemma handle_table_aligned_witness :
  ∃ s' a, (∀ events,
             main (worldWith exampleScene) events (startup 16)
             = glutMainLoop events s')
    ∧ scene s' = Some exampleScene
    ∧ vaoArray s' = Some a
    ∧ Z.of_nat (length a) = aiScene.mNumMeshes exampleScene
    ∧ (∀ i m, aiScene.mMeshes exampleScene !! i = Some m →
              ∃ v, a !! i = Some (UInt v) ∧ holdsMesh (gl s') (vPos s') v m)
    ∧ NoDup a
    ∧ GL.draws (GL.commands (gl s')) = [].
Proof.
  apply (handle_table_aligned (worldWith exampleScene) 16 exampleScene);
    reflexivity.
Defined.

(** ** A mesh without faces *)

Lemma drawMesh_without_faces s sc a node i mi v m :
  scene s = Some sc → vaoArray s = Some a →
  0 <= i → aiNode.mMeshes node !! Z.to_nat i = Some mi →
  0 <= mi <= CInt.INT_MAX →
  a !! Z.to_nat mi = Some (UInt v) →
  aiScene.mMeshes sc !! Z.to_nat mi = Some m →
  aiMesh.mFaces m = [] →
  drawMesh node i s = Fault (OutOfBounds "mFaces" 0).
Proof.
  intros Hsc Ha Hi Hmi Hr Hv Hm Hfaces. unfold drawMesh.
  erewrite bind_Ret by (apply index_Ret; eassumption). cbv beta zeta.
  rewrite int_of_u32_small by lia. run.
  rewrite Ha. erewrite bind_Ret by (apply load_Ret; [lia | eassumption]).
  run. rewrite Hsc. erewrite bind_Ret by reflexivity. cbv beta.
  erewrite bind_Ret by (apply index_Ret; [lia | eassumption]).
  cbv beta zeta. rewrite Hfaces. reflexivity.
Qed.

(** For every mesh without faces of a scene that loads: its vertex array
    object has no index buffer after [init], and the body of the draw loop,
    reached with the index of that mesh, reads [mFaces[0]]. *)
Lemma zero_face_meshes_fault w maxAttribs sc i m node q :
  fileGood w objectFileName = true → ReadFile w objectFileName = Some sc →
  scene_wf sc = true → scene_uploadable sc = true →
  aiScene.mMeshes sc !! i = Some m → aiMesh.mFaces m = [] →
  Z.of_nat i <= CInt.INT_MAX →
  aiNode.mMeshes node !! q = Some (Z.of_nat i) →
  ∃ s' v, init w (startup maxAttribs) = Ret tt s'
          ∧ (∃ a, vaoArray s' = Some a ∧ a !! i = Some (UInt v))
          ∧ (∃ va, GL.vertexArrays (gl s') !! v = Some va
                   ∧ GL.elementBinding va = 0)
          ∧ drawMesh node (Z.of_nat q) s' = Fault (OutOfBounds "mFaces" 0).
Proof.
  intros Hgood Hread Hwf Hup Hm Hfaces Hi Hq.
  destruct (init_run w (startup maxAttribs) maxAttribs sc eq_refl Hgood Hread
              Hwf Hup)
    as (s' & a & Hrun & Hsc & _ & _ & _ & Ha & _ & Hall).
  destruct (Hall i m Hm) as [Hv (va & Hva & Hf & _)].
  assert (Hhas : aiMesh.HasFaces m = false)
    by (unfold aiMesh.HasFaces; now rewrite Hfaces).
  rewrite Hhas in Hf.
  exists s', (1 + Z.of_nat i). split; [exact Hrun|].
  split; [eauto|]. split; [eauto|].
  eapply drawMesh_without_faces; eauto; rewrite ?Nat2Z.id; eauto; lia.
Qed.

(** C5, on the scene whose only mesh has no face: [init] returns and the
    vertex array object of the mesh has no index buffer, but [display] does
    not skip the mesh: the traversal reads [mFaces[0]] of the empty face
    array. *)
Theorem zero_face_mesh_not_skipped :
  ∃ s1 va,
    init (worldWith pointsScene) (startup 16) = Ret tt s1
    ∧ vaoArray s1 = Some [UInt 1]
    ∧ GL.vertexArrays (gl s1) !! 1 = Some va
    ∧ GL.elementBinding va = 0
    ∧ GL.elementStore 1 (gl s1) = None
    ∧ display s1 = Fault (OutOfBounds "mFaces" 0).
Proof.
  eexists. eexists. split; [vm_compute; reflexivity|].
  vm_compute. repeat split.
Qed.

(** ** The keyboard *)

Lemma uniform_keeps g c : uniform g c → keeps g (fun _ => True) c.
Proof.
  intros [[f Hf]|(d & l & H)] s Hs.
  - now rewrite Hf.
  - now rewrite H.
Qed.

Lemma keeps_display g : keeps g (fun _ => True) display.
Proof.
  unfold display.
  apply keeps_bind; [intros s Hs; exact Hs|]. intros _.
  apply keeps_bind; [intros s Hs; exact Hs|]. intros s.
  apply keeps_bind; [intros t Ht; exact Ht|]. intros _.
  apply keeps_bind; [|intros _ t Ht; exact Ht].
  destruct (scene s) as [sc|]; [|apply keeps_ret].
  apply uniform_keeps, uniform_nodeTreeTraversal.
Qed.

(** C8: the Escape key (27) ends the process with [EXIT_SUCCESS]; any other
    key returns after posting a redisplay, which changes neither the
    globals, the device nor the console, and which makes the event loop run
    [display] next; the globals (shader program, scene, handle table, face
    array) are still the same after that redraw. *)
Theorem keyboard_escape_or_redisplay (key x y : Z) (s : State) :
  keyboard key x y s
  = (if key =? 27 then Exit EXIT_SUCCESS s
     else Ret tt (set_redisplayPosted true s))
  ∧ globals (set_redisplayPosted true s) = globals s
  ∧ gl (set_redisplayPosted true s) = gl s
  ∧ cout (set_redisplayPosted true s) = cout s
  ∧ redisplayPosted (set_redisplayPosted true s) = true
  ∧ dispatch (Keyboard key x y) s
    = (if key =? 27 then Exit EXIT_SUCCESS s
       else display (set_redisplayPosted false s))
  ∧ match dispatch (Keyboard key x y) s with
    | Ret _ s' => globals s' = globals s
    | Exit _ s' => s' = s ∧ key = 27
    | Fault _ => True
    end.
Proof.
  assert (Hd : dispatch (Keyboard key x y) s
               = (if key =? 27 then Exit EXIT_SUCCESS s
                  else display (set_redisplayPosted false s))).
  { unfold dispatch, callback, keyboard, bind, exit, ret, glutPostRedisplay,
      modify, get.
    now destruct (key =? 27). }
  repeat split; try exact Hd.
  - unfold keyboard, bind, exit, ret, glutPostRedisplay, modify.
    now destruct (key =? 27).
  - rewrite Hd. destruct (Z.eqb_spec key 27) as [->|_]; [now split|].
    pose proof (keeps_display (globals s) (set_redisplayPosted false s)
                  eq_refl) as H.
    destruct (display (set_redisplayPosted false s)); trivial. contradiction.
Qed.

(** * Further properties *)

(** ** Invariants *)

Lemma hoare_bind {A B} P (c : M A) R (k : A → M B) Q :
  hoare P c R → (∀ a, hoare (R a) (k a) Q) → hoare P (bind c k) Q.
Proof.
  intros Hc Hk s Hs. unfold bind. specialize (Hc s Hs).
  destruct (c s) as [a s'| |]; [|exact Hc..].
  now apply Hk.
Qed.

Lemma hoare_weaken {A} (P P' : State → Prop) (c : M A) (Q Q' : A → State → Prop) :
  hoare P c Q → (∀ s, P' s → P s) → (∀ a s, Q a s → Q' a s) → hoare P' c Q'.
Proof.
  intros Hc HP HQ s Hs. specialize (Hc s (HP s Hs)).
  destruct (c s); auto.
Qed.

Lemma hoare_ret {A} P (a : A) : hoare P (ret a) (fun x s => x = a ∧ P s).
Proof. intros s Hs. now split. Qed.

Lemma hoare_get P : hoare P get (fun x s => x = s ∧ P s).
Proof. intros s Hs. now split. Qed.

Lemma hoare_modify P f : hoare P (modify f) (fun _ s' => ∃ s, P s ∧ s' = f s).
Proof. intros s Hs. simpl. eauto. Qed.

Lemma hoare_raise {A} P f (Q : A → State → Prop) : hoare P (raise f) Q.
Proof. intros s Hs. exact I. Qed.

Lemma hoare_pure {A} P (c : M A) :
  pure c → hoare P c (fun a s => P s ∧ c s = Ret a s).
Proof.
  intros [[x Hx]|[f Hf]] s Hs.
  - rewrite Hx. split; [exact Hs | apply Hx].
  - now rewrite Hf.
Qed.

Lemma hoare_iterate {A} (Inv : A → State → Prop) (body : Z → A → M A) :
  (∀ i a, hoare (Inv a) (body i a) Inv) →
  ∀ count i a, hoare (Inv a) (iterate count i body a) Inv.
Proof.
  intros Hbody count. induction count as [|count IH]; intros i a.
  - intros s Hs. exact Hs.
  - rewrite iterate_S. eapply hoare_bind; [apply Hbody|].
    intros a'. apply IH.
Qed.

Lemma hoare_forChildren (Inv : State → Prop) onNull visit cs :
  hoare Inv onNull (fun _ => Inv) →
  Forall (fun child => match child with
                       | Some c => hoare Inv (visit c) (fun _ => Inv)
                       | None => True
                       end) cs →
  ∀ count j, hoare Inv (forChildren onNull visit cs count j) (fun _ => Inv).
Proof.
  intros Hnull. induction 1 as [|child cs Hc _ IH]; intros [|count] j; simpl;
    try (intros s Hs; exact Hs).
  - intros s Hs. exact I.
  - eapply hoare_bind with (R := fun _ => Inv); [|intros u; apply IH].
    destruct child; [exact Hc | exact Hnull].
Qed.

Lemma pure_store array p i v : pure (store array p i v).
Proof.
  unfold pure, store. destruct p as [a|]; [|right; eauto].
  destruct ((0 <=? i) && (i <? Z.of_nat (length a))); [left|right]; eauto.
Qed.

Lemma pure_int_incr variable i : pure (int_incr variable i).
Proof.
  unfold pure, int_incr. destruct (i <? CInt.INT_MAX); [left|right]; eauto.
Qed.

(** What each device operation adds to the record of the commands. *)
Lemma commands_bindVertexArray v g :
  GL.commands (GL.bindVertexArray v g) = GL.commands g ++ [GL.BindVertexArray v].
Proof.
  unfold GL.bindVertexArray. destruct (v =? 0); [reflexivity|].
  now destruct (GL.vertexArrays g !! v).
Qed.

Lemma commands_bindBuffer tg b g :
  GL.commands (GL.bindBuffer tg b g)
  = GL.commands g ++ [GL.Command "glBindBuffer" [GL.enum tg; b]].
Proof. now destruct tg. Qed.

Lemma commands_enableVertexAttribArray i g :
  GL.commands (GL.enableVertexAttribArray i g)
  = GL.commands g ++ [GL.Command "glEnableVertexAttribArray" [i]].
Proof.
  unfold GL.enableVertexAttribArray. now destruct (GL.validAttrib i g).
Qed.

Lemma commands_vertexAttribPointer i g :
  GL.commands (GL.vertexAttribPointer i g)
  = GL.commands g ++ [GL.Command "glVertexAttribPointer" [i; 3]].
Proof.
  unfold GL.vertexAttribPointer. now destruct (GL.validAttrib i g).
Qed.

Lemma commands_genBuffer g :
  GL.commands (snd (GL.genBuffer g))
  = GL.commands g ++ [GL.Command "glGenBuffers" [1]].
Proof. reflexivity. Qed.

Lemma commands_genVertexArray g :
  GL.commands (snd (GL.genVertexArray g))
  = GL.commands g ++ [GL.Command "glGenVertexArrays" [1]].
Proof. reflexivity. Qed.

Lemma commands_bufferData tg size data g g' :
  GL.bufferData tg size data g = Some g' →
  GL.commands g'
  = GL.commands g ++ [GL.Command "glBufferData" [GL.enum tg; size]].
Proof.
  unfold GL.bufferData.
  destruct (Z.to_nat (size / 4) <=? length data)%nat; [|discriminate].
  intros H. injection H as <-.
  now destruct (GL.boundBuffer tg g =? 0).
Qed.

(** An invariant that the state keeps at every step: it depends neither
    on the console nor on the globals, and the device operations of the
    upload keep it. *)
Section Stable.
Variable Inv : State → Prop.
Variable quiet : GL.command → bool.
Hypothesis I_cout : ∀ s c, Inv s → Inv (set_cout c s).
Hypothesis I_program : ∀ s p, Inv s → Inv (set_program p s).
Hypothesis I_vPos : ∀ s v, Inv s → Inv (set_vPos v s).
Hypothesis I_scene : ∀ s sc, Inv s → Inv (set_scene sc s).
Hypothesis I_vaoArray : ∀ s a, Inv s → Inv (set_vaoArray a s).
Hypothesis I_faceArray : ∀ s a, Inv s → Inv (set_faceArray a s).


Lemma stable_bind {A B} (c : M A) (k : A → M B) :
  stable Inv c → (∀ a, stable Inv (k a)) → stable Inv (bind c k).
Proof. intros Hc Hk. eapply hoare_bind; [exact Hc|exact Hk]. Qed.

Lemma stable_pure {A} (c : M A) : pure c → stable Inv c.
Proof.
  intros Hc. eapply hoare_weaken; [apply (hoare_pure Inv c Hc)|auto|].
  now intros a s [H _].
Qed.

Lemma stable_ret {A} (a : A) : stable Inv (ret a).
Proof. intros s Hs. exact Hs. Qed.

Lemma stable_get : stable Inv get.
Proof. intros s Hs. exact Hs. Qed.

Lemma stable_raise {A} f : stable Inv (@raise A f).
Proof. intros s Hs. exact I. Qed.

Lemma stable_print line : stable Inv (print line).
Proof. intros s Hs. now apply I_cout. Qed.

Lemma stable_print_lines lines : stable Inv (print_lines lines).
Proof. intros s Hs. now apply I_cout. Qed.

Lemma stable_when b c : stable Inv c → stable Inv (when b c).
Proof. intros Hc. destruct b; [exact Hc | apply stable_ret]. Qed.

Lemma stable_iterate {A} (body : Z → A → M A) :
  (∀ i a, stable Inv (body i a)) → ∀ count i a, stable Inv (iterate count i body a).
Proof.
  intros Hbody count i a.
  apply (hoare_iterate (fun _ => Inv) body Hbody).
Qed.

Lemma stable_for_loop {A} n (body : Z → A → M A) a :
  (∀ i a, stable Inv (body i a)) → stable Inv (for_loop n body a).
Proof. intros Hbody. now apply stable_iterate. Qed.

Lemma stable_printNode w node : stable Inv (printNode w node).
Proof.
  induction node as [nm ms nc cs IH] using aiNode_ind.
  rewrite printNode_eq. apply stable_bind.
  - apply stable_for_loop. intros i _.
    apply stable_bind; [apply stable_pure, pure_index|].
    intros _. apply stable_ret.
  - intros _. apply stable_bind; [apply stable_print_lines|]. intros _.
    apply hoare_forChildren; [apply stable_print | exact IH].
Qed.

Lemma stable_printAiSceneInfo w sc : stable Inv (printAiSceneInfo w sc).
Proof.
  destruct sc as [sc|]; [|apply stable_print]. unfold printAiSceneInfo.
  repeat (apply stable_bind; [apply stable_print|]; intros _).
  apply stable_bind.
  { destruct (aiScene.mRootNode sc);
      [apply stable_printNode | apply stable_print]. }
  intros _. apply stable_bind; [|intros _; apply stable_print_lines].
  apply stable_when.
  repeat (apply stable_bind; [apply stable_print|]; intros _).
  apply stable_for_loop. intros i _.
  apply stable_bind; [apply stable_pure, pure_index|].
  intros m. apply stable_print_lines.
Qed.

Lemma stable_load3DFile w filename : stable Inv (load3DFile w filename).
Proof.
  unfold load3DFile. destruct (fileGood w filename).
  - apply stable_bind; [apply stable_print|]. intros _.
    apply stable_bind; [intros s Hs; now apply I_scene|]. intros _.
    apply stable_bind; [apply stable_get|]. intros s.
    destruct (scene s).
    + apply stable_bind; [apply stable_print|]. intros _.
      apply stable_bind; [apply stable_printAiSceneInfo|]. intros _.
      apply stable_ret.
    + apply stable_bind; [apply stable_print|]. intros _. apply stable_ret.
  - apply stable_bind; [apply stable_print|]. intros _. apply stable_ret.
Qed.

(** The device operations: the invariant may depend on the commands
    issued, not on the rest of the device, and the commands that are
    [quiet] do not change it. *)
Hypothesis I_gl : ∀ s g cmd,
  Inv s → GL.commands g = GL.commands (gl s) ++ [cmd] → quiet cmd = true →
  Inv (set_gl g s).

Lemma stable_gl_do f cmd :
  (∀ g, GL.commands (f g) = GL.commands g ++ [cmd]) → quiet cmd = true →
  stable Inv (gl_do f).
Proof. intros Hf Hq s Hs. now apply (I_gl s _ cmd). Qed.

Lemma stable_gl_call name args :
  quiet (GL.Command name args) = true → stable Inv (gl_call name args).
Proof. intros Hq. now apply (stable_gl_do _ (GL.Command name args)). Qed.

Lemma stable_glGenBuffers :
  quiet (GL.Command "glGenBuffers" [1]) = true → stable Inv glGenBuffers.
Proof. intros Hq s Hs. now apply (I_gl s _ (GL.Command "glGenBuffers" [1])). Qed.

Lemma stable_glBufferData tg size data :
  quiet (GL.Command "glBufferData" [GL.enum tg; size]) = true →
  stable Inv (glBufferData tg size data).
Proof.
  intros Hq s Hs. unfold glBufferData.
  destruct (GL.bufferData tg size _ (gl s)) as [g|] eqn:Hg; [|exact I].
  eapply I_gl; [exact Hs| |exact Hq]. eapply commands_bufferData, Hg.
Qed.

Lemma stable_glGenVertexArrays_vaoArray i :
  quiet (GL.Command "glGenVertexArrays" [1]) = true →
  stable Inv (glGenVertexArrays_vaoArray i).
Proof.
  intros Hq s Hs. unfold glGenVertexArrays_vaoArray, bind, get.
  cbv beta iota zeta. unfold GL.genVertexArray at 1. cbv beta iota zeta.
  destruct (pure_store "vaoArray" (vaoArray s) i (GL.nextVertexArray (gl s)))
    as [[a Ha]|[f Hf]].
  - rewrite Ha. apply I_vaoArray.
    now apply (I_gl s _ (GL.Command "glGenVertexArrays" [1])).
  - now rewrite Hf.
Qed.

Hypothesis quiet_Command : ∀ name args,
  name ≠ "glGenBuffers"%string → name ≠ "glGenVertexArrays"%string →
  quiet (GL.Command name args) = true.
Hypothesis quiet_BindVertexArray : ∀ v, quiet (GL.BindVertexArray v) = true.

Lemma stable_bindVertexArray v : stable Inv (gl_do (GL.bindVertexArray v)).
Proof.
  apply (stable_gl_do _ (GL.BindVertexArray v));
    [intros g; apply commands_bindVertexArray | apply quiet_BindVertexArray].
Qed.

Lemma stable_bindBuffer tg b : stable Inv (gl_do (GL.bindBuffer tg b)).
Proof.
  eapply stable_gl_do; [intros g; apply commands_bindBuffer|].
  now apply quiet_Command.
Qed.

Lemma stable_call name args :
  name ≠ "glGenBuffers"%string → name ≠ "glGenVertexArrays"%string →
  stable Inv (gl_call name args).
Proof. intros H1 H2. now apply stable_gl_call, quiet_Command. Qed.

Lemma stable_buildShaders w : stable Inv (buildShaders w).
Proof.
  unfold buildShaders.
  repeat first
    [ apply stable_bind; [|intros ?]
    | apply stable_call; discriminate
    | apply stable_when
    | apply stable_print
    | apply stable_print_lines
    | apply stable_get
    | (intros s Hs; first [now apply I_program | now apply I_vPos]) ].
Qed.

(** The reads and writes of the flattening loop. *)
Lemma stable_flattenFaces m : stable Inv (flattenFaces m).
Proof.
  unfold flattenFaces.
  apply stable_bind; [apply stable_pure, pure_index|]. intros face0.
  apply stable_bind; [intros s Hs; now apply I_faceArray|]. intros _.
  apply stable_for_loop. intros j idx. unfold copyFace.
  apply stable_bind; [apply stable_pure, pure_index|]. intros face.
  apply stable_for_loop. intros k idx'. unfold copyIndex.
  apply stable_bind; [apply stable_pure, pure_index|]. intros v.
  apply stable_bind; [apply stable_get|]. intros s.
  apply stable_bind; [apply stable_pure, pure_store|]. intros a.
  apply stable_bind; [intros t Ht; now apply I_faceArray|]. intros _.
  apply stable_pure, pure_int_incr.
Qed.

Lemma stable_attributes :
  stable Inv (s <- get ;;
          gl_do (GL.enableVertexAttribArray (CInt.u32_of_int (vPos s))) ;;
          gl_do (GL.vertexAttribPointer (CInt.u32_of_int (vPos s)))).
Proof.
  apply stable_bind; [apply stable_get|]. intros s.
  apply stable_bind; [|intros _].
  - eapply stable_gl_do; [intros g; apply commands_enableVertexAttribArray|].
    now apply quiet_Command.
  - eapply stable_gl_do; [intros g; apply commands_vertexAttribPointer|].
    now apply quiet_Command.
Qed.

(** When the invariant does not count the objects created either, the
    whole of [init] keeps it. *)
Hypothesis quiet_glGenBuffers : quiet (GL.Command "glGenBuffers" [1]) = true.
Hypothesis quiet_glGenVertexArrays :
  quiet (GL.Command "glGenVertexArrays" [1]) = true.

Lemma stable_uploadPositions m : stable Inv (uploadPositions m).
Proof.
  unfold uploadPositions.
  apply stable_bind; [now apply stable_glGenBuffers|]. intros buffer.
  apply stable_bind; [apply stable_bindBuffer|]. intros _.
  apply stable_bind; [|intros _; apply stable_attributes].
  now apply stable_glBufferData, quiet_Command.
Qed.

Lemma stable_uploadFaces m : stable Inv (uploadFaces m).
Proof.
  unfold uploadFaces.
  apply stable_bind; [apply stable_flattenFaces|]. intros _.
  apply stable_bind; [now apply stable_glGenBuffers|]. intros buffer.
  apply stable_bind; [apply stable_bindBuffer|]. intros _.
  apply stable_bind; [apply stable_pure, pure_index|]. intros face0.
  apply stable_bind; [apply stable_get|]. intros s.
  now apply stable_glBufferData, quiet_Command.
Qed.

Lemma stable_uploadMesh i : stable Inv (uploadMesh i).
Proof.
  unfold uploadMesh.
  apply stable_bind; [apply stable_get|]. intros s.
  apply stable_bind; [apply stable_pure, pure_deref|]. intros sc.
  apply stable_bind; [apply stable_pure, pure_index|]. intros m.
  apply stable_bind; [now apply stable_glGenVertexArrays_vaoArray|]. intros _.
  apply stable_bind; [apply stable_get|]. intros s'.
  apply stable_bind; [apply stable_pure, pure_load|]. intros vao.
  apply stable_bind; [apply stable_bindVertexArray|]. intros _.
  apply stable_bind; [apply stable_when, stable_uploadPositions|]. intros _.
  apply stable_bind; [apply stable_when, stable_uploadFaces|]. intros _.
  apply stable_bind; [apply stable_bindVertexArray|]. intros _.
  apply stable_bind; [apply stable_bindBuffer|]. intros _.
  apply stable_bindBuffer.
Qed.

Lemma stable_init w : stable Inv (init w).
Proof.
  unfold init.
  apply stable_bind; [apply stable_buildShaders|]. intros _.
  apply stable_bind; [apply stable_load3DFile|]. intros fileLoaded.
  destruct fileLoaded; simpl; [|apply stable_ret].
  apply stable_bind; [apply stable_get|]. intros s.
  apply stable_bind; [apply stable_pure, pure_deref|]. intros sc.
  apply stable_bind; [intros t Ht; now apply I_vaoArray|]. intros _.
  apply stable_bind.
  { apply stable_for_loop. intros i _. apply stable_uploadMesh. }
  intros _.
  repeat (apply stable_bind; [apply stable_call; discriminate|]; intros _).
  apply stable_print_lines.
Qed.

End Stable.

(** ** What [init] never does *)

(** X3: [init] issues no draw call and does not end the process, whatever the
    driver answers and whatever the scene is. *)
Theorem init_never_draws (w : World) (s : State) :
  match init w s with
  | Ret _ s' =>
      GL.draws (GL.commands (gl s')) = GL.draws (GL.commands (gl s))
      ∧ redisplayPosted s' = redisplayPosted s
  | Exit _ _ => False
  | Fault _ => True
  end.
Proof.
  apply (stable_init
           (fun t => GL.draws (GL.commands (gl t)) = GL.draws (GL.commands (gl s))
                     ∧ redisplayPosted t = redisplayPosted s)
           (fun cmd => match cmd with GL.DrawElements _ => false | _ => true end));
    try (intros; assumption); try reflexivity; try (split; reflexivity).
  intros t g cmd [Hd Hr] Hg Hq. split; [|exact Hr].
  simpl. rewrite Hg, draws_app, Hd. destruct cmd; try discriminate;
    apply app_nil_r.
Qed.

(** ** The bindings after [init] *)

Lemma unbound_unbind g :
  unbound (GL.bindBuffer GL.ELEMENT_ARRAY_BUFFER 0
             (GL.bindBuffer GL.ARRAY_BUFFER 0 (GL.bindVertexArray 0 g))).
Proof.
  destruct g as [ma nv nb vas bs vb ab cs]. unfold unbound. gl_eval.
  change (0 =? 0) with true. gl_eval. repeat split.
  rewrite lookup_alter_eq. now destruct (vas !! 0).
Qed.

Lemma unbound_issue cmd g : unbound g → unbound (GL.issue cmd g).
Proof. now destruct g. Qed.

Lemma uploadMesh_unbinds i :
  hoare (fun _ => True) (uploadMesh i) (fun _ s => unbound (gl s)).
Proof.
  pose (T := fun _ : State => True).
  pose (q := fun _ : GL.command => true).
  assert (Hgl : ∀ (s : State) (g : GL.context) (cmd : GL.command),
             T s → GL.commands g = GL.commands (gl s) ++ [cmd] →
             q cmd = true → T (set_gl g s)) by (intros; exact I).
  assert (Hset : ∀ (s : State) (a : option (list cell)),
             T s → T (set_vaoArray a s)) by (intros; exact I).
  assert (Hface : ∀ (s : State) (a : option (list cell)),
             T s → T (set_faceArray a s)) by (intros; exact I).
  unfold uploadMesh.
  eapply hoare_bind with (R := fun _ => T); [apply (stable_get T)|]. intros s.
  eapply hoare_bind with (R := fun _ => T);
    [apply (stable_pure T), pure_deref|]. intros sc.
  eapply hoare_bind with (R := fun _ => T);
    [apply (stable_pure T), pure_index|]. intros m.
  eapply hoare_bind with (R := fun _ => T);
    [now apply (stable_glGenVertexArrays_vaoArray T q)|]. intros _.
  eapply hoare_bind with (R := fun _ => T); [apply (stable_get T)|]. intros s'.
  eapply hoare_bind with (R := fun _ => T);
    [apply (stable_pure T), pure_load|]. intros vao.
  eapply hoare_bind with (R := fun _ => T);
    [now apply (stable_bindVertexArray T q)|]. intros _.
  eapply hoare_bind with (R := fun _ => T);
    [now apply (stable_when T), (stable_uploadPositions T q)|]. intros _.
  eapply hoare_bind with (R := fun _ => T);
    [now apply (stable_when T), (stable_uploadFaces T q)|]. intros _.
  intros t _. unfold bind, gl_do, modify. simpl. apply unbound_unbind.
Qed.

(** X4: When nothing is bound on entry, nothing is bound when [init] returns:
    the vertex array object and the buffers of a mesh are unbound before
    the next mesh is taken. *)
Theorem init_leaves_nothing_bound (w : World) (s : State) :
  unbound (gl s) →
  match init w s with
  | Ret _ s' => unbound (gl s')
  | Exit _ _ => False
  | Fault _ => True
  end.
Proof.
  revert s.
  change (hoare (fun s => unbound (gl s)) (init w) (fun _ s => unbound (gl s))).
  pose (U := fun s : State => unbound (gl s)).
  unfold init.
  eapply hoare_bind with (R := fun _ => U).
  { intros s Hs. destruct (buildShaders_run w s)
      as (s1 & -> & _ & _ & _ & _ & _ & _ & Hm & _).
    unfold GL.machine in Hm. injection Hm as _ _ _ Hvas _ Hvb Hab.
    unfold U, unbound, GL.boundBuffer in *.
    rewrite Hvas, Hvb, Hab. exact Hs. }
  intros _.
  eapply hoare_bind with (R := fun _ => U).
  { apply (stable_load3DFile U); intros; assumption. }
  intros fileLoaded. destruct fileLoaded; simpl; [|intros s Hs; exact Hs].
  eapply hoare_bind with (R := fun _ => U); [apply (stable_get U)|]. intros s.
  eapply hoare_bind with (R := fun _ => U);
    [apply (stable_pure U), pure_deref|]. intros sc.
  eapply hoare_bind with (R := fun _ => U); [intros t Ht; exact Ht|]. intros _.
  eapply hoare_bind with (R := fun _ => U).
  { unfold for_loop. apply (hoare_iterate (fun _ => U)). intros i _.
    eapply hoare_weaken; [apply uploadMesh_unbinds|intros; exact I|auto]. }
  intros _. intros t Ht. unfold bind, gl_call, gl_do, modify, checkOpenGLError,
    print_lines. simpl. now repeat apply unbound_issue.
Qed.

Lemma init_leaves_nothing_bound_witness :
  match init (worldWith exampleScene) (startup 16) with
  | Ret _ s' => unbound (gl s')
  | Exit _ _ => False
  | Fault _ => True
  end.
Proof.
  apply (init_leaves_nothing_bound (worldWith exampleScene) (startup 16)).
  vm_compute. auto.
Defined.

(** ** The event loop *)

Lemma throughout_bind {A B} Inv (c : M A) (k : A → M B) :
  throughout Inv c → (∀ a, throughout Inv (k a)) → throughout Inv (bind c k).
Proof.
  intros Hc Hk s Hs. unfold bind. specialize (Hc s Hs).
  destruct (c s) as [a s'| |]; [|exact Hc..].
  now apply Hk.
Qed.

Lemma keeps_throughout {A} g ok (c : M A) :
  keeps g ok c → throughout (fun s => globals s = g) c.
Proof.
  intros Hc s Hs. specialize (Hc s Hs).
  destruct (c s); [exact Hc | contradiction | exact I].
Qed.

Lemma throughout_dispatch g e :
  throughout (fun s => globals s = g) (dispatch e).
Proof.
  unfold dispatch. apply throughout_bind.
  - destruct e as [|width height|key x y]; simpl.
    + intros s Hs. exact Hs.
    + intros s Hs. exact Hs.
    + unfold keyboard. apply throughout_bind.
      * destruct (key =? 27); intros s Hs; exact Hs.
      * intros _ s Hs. exact Hs.
  - intros _. apply throughout_bind; [intros s Hs; exact Hs|]. intros s.
    destruct (redisplayPosted s); [|intros t Ht; exact Ht].
    apply throughout_bind; [intros t Ht; exact Ht|]. intros _.
    eapply keeps_throughout, keeps_display.
Qed.

(** X12: The globals (shader program, attribute index, scene, handle table, face
    array) are the same after any number of events, whether the loop
    returns or the process ends: only [init] writes them. *)
Theorem event_loop_keeps_globals (events : list event) (s : State) :
  match glutMainLoop events s with
  | Ret _ s' | Exit _ s' => globals s' = globals s
  | Fault _ => True
  end.
Proof.
  assert (H : throughout (fun t => globals t = globals s) (glutMainLoop events)).
  { clear. induction events as [|e events IH]; simpl.
    - intros t Ht. exact Ht.
    - apply throughout_bind; [apply throughout_dispatch|]. intros _. exact IH. }
  exact (H s eq_refl).
Qed.

Lemma glutMainLoop_app before after s :
  glutMainLoop (before ++ after) s
  = bind (glutMainLoop before) (fun _ => glutMainLoop after) s.
Proof.
  revert s. induction before as [|e before IH]; intros s; [reflexivity|].
  simpl. unfold bind. destruct (dispatch e s) as [u s1| |]; try reflexivity.
  rewrite IH. reflexivity.
Qed.

Lemma dispatch_Escape x y s :
  dispatch (Keyboard 27 x y) s = Exit EXIT_SUCCESS s.
Proof. reflexivity. Qed.

Lemma dispatch_Exit e s n s' :
  dispatch e s = Exit n s' →
  n = EXIT_SUCCESS ∧ s' = s ∧ ∃ x y, e = Keyboard 27 x y.
Proof.
  destruct e as [|width height|key x y].
  - change (dispatch Expose s) with (display (set_redisplayPosted false s)).
    intros H.
    pose proof (keeps_display (globals s) (set_redisplayPosted false s) eq_refl)
      as Hk.
    rewrite H in Hk. contradiction.
  - unfold dispatch, callback, reshape, gl_call, gl_do, bind, modify, get.
    simpl. destruct (redisplayPosted s); [|discriminate].
    intros H.
    match type of H with
    | display ?t = _ =>
        pose proof (keeps_display (globals t) t eq_refl) as Hk;
        rewrite H in Hk; contradiction
    end.
  - unfold dispatch, callback, keyboard, glutPostRedisplay, bind, modify, get,
      exit, ret.
    destruct (Z.eqb_spec key 27) as [->|Hk].
    + intros H. injection H as <- <-. eauto.
    + simpl. intros H.
      match type of H with
      | display ?t = _ =>
          pose proof (keeps_display (globals t) t eq_refl) as Hk';
          rewrite H in Hk'; contradiction
      end.
Qed.

(** X13: The process ends exactly when the loop reaches a press of the Escape
    key: the status is [EXIT_SUCCESS], the state is the one the events
    before the key have left, and the events after the key are never
    taken. *)
Theorem exit_only_by_escape (events : list event) (s s' : State) (n : Z) :
  glutMainLoop events s = Exit n s'
  ↔ n = EXIT_SUCCESS
    ∧ ∃ before x y after,
        events = before ++ Keyboard 27 x y :: after
        ∧ glutMainLoop before s = Ret tt s'.
Proof.
  split.
  - revert s. induction events as [|e events IH]; intros s; [discriminate|].
    simpl. unfold bind. destruct (dispatch e s) as [[] s1|m s1|f] eqn:He.
    + intros H. destruct (IH s1 H) as (-> & before & x & y & after & -> & Hb).
      split; [reflexivity|]. exists (e :: before), x, y, after.
      split; [reflexivity|]. simpl. unfold bind. now rewrite He.
    + intros H. injection H as -> ->.
      apply dispatch_Exit in He as (-> & -> & x & y & ->).
      split; [reflexivity|]. now exists [], x, y, events.
    + discriminate.
  - intros (-> & before & x & y & after & -> & Hb).
    rewrite glutMainLoop_app. unfold bind. rewrite Hb. reflexivity.
Qed.

(** ** The calls of a frame *)







(** ** The shaders and the file *)


Lemma uniform_print_lines g lines : uniform g (print_lines lines).
Proof.
  right. exists [], lines. intros t _.
  unfold print_lines, modify. now rewrite emit_lines.
Qed.

Lemma uniform_pure_bind {A} g (c : M A) (k : A → M unit) :
  pure c → (∀ x, uniform g (k x)) → uniform g (bind c k).
Proof.
  intros [[x Hx]|[f Hf]] Hk.
  - destruct (Hk x) as [[f Hf]|(d & l & H)].
    + left. exists f. intros t Ht. rewrite (bind_Ret _ _ _ _ _ (Hx t)).
      now apply Hf.
    + right. exists d, l. intros t Ht. rewrite (bind_Ret _ _ _ _ _ (Hx t)).
      now apply H.
  - left. exists f. intros t _. now apply bind_Fault.
Qed.

Lemma uniform_when g b c : uniform g c → uniform g (when b c).
Proof. intros H. destruct b; [exact H | apply uniform_ret]. Qed.

Lemma uniform_printNode g w node : uniform g (printNode w node).
Proof.
  induction node as [nm ms nc cs IH] using aiNode_ind.
  rewrite printNode_eq. apply uniform_bind.
  - apply uniform_iterate. intros i.
    apply uniform_pure_bind; [apply pure_index|]. intros _. apply uniform_ret.
  - apply uniform_bind; [apply uniform_print_lines|].
    now apply uniform_forChildren.
Qed.

Lemma uniform_printAiSceneInfo g w sc : uniform g (printAiSceneInfo w sc).
Proof.
  destruct sc as [sc|]; [|apply uniform_print]. unfold printAiSceneInfo.
  repeat (apply uniform_bind; [apply uniform_print|]).
  apply uniform_bind.
  { destruct (aiScene.mRootNode sc);
      [apply uniform_printNode | apply uniform_print]. }
  apply uniform_bind; [|apply uniform_print_lines].
  apply uniform_when.
  repeat (apply uniform_bind; [apply uniform_print|]).
  apply uniform_iterate. intros i.
  apply uniform_pure_bind; [apply pure_index|]. intros m.
  apply uniform_print_lines.
Qed.

(** What [printAiSceneInfo] does to a state: lines on the console, or a
    fault when a count of the scene exceeds its array. *)
Lemma printAiSceneInfo_cases w sc s :
  match printAiSceneInfo w (Some sc) s with
  | Ret _ s' => ∃ l, s' = set_cout (cout s ++ l) s
  | Exit _ _ => False
  | Fault _ => scene_wf sc = false
  end.
Proof.
  destruct (uniform_printAiSceneInfo (globals s) w (Some sc))
    as [[f Hf]|(d & l & H)].
  - rewrite Hf by reflexivity.
    destruct (scene_wf sc) eqn:Hwf; [|reflexivity].
    destruct (printAiSceneInfo_issues (globals s) w sc Hwf) as [l Hl].
    specialize (Hl s eq_refl). rewrite Hf in Hl by reflexivity. discriminate.
  - pose proof (stable_printAiSceneInfo (fun t => gl t = gl s)
                  (fun t c Ht => Ht) w (Some sc) s eq_refl) as Hst.
    rewrite H in * by reflexivity.
    exists l. destruct s as [p v sce va fa co g r].
    unfold emit, set_cout in *. simpl in *. now rewrite Hst.
Qed.

Lemma load3DFile_cases (w : World) (filename : string) (s : State) :
  match load3DFile w filename s with
  | Ret loaded s' =>
      program s' = program s ∧ vPos s' = vPos s ∧ vaoArray s' = vaoArray s
      ∧ faceArray s' = faceArray s ∧ gl s' = gl s
      ∧ if loaded
        then fileGood w filename = true
             ∧ (∃ sc, ReadFile w filename = Some sc ∧ scene s' = Some sc)
             ∧ ∃ l, cout s'
                    = cout s
                      ++ [("Loading 3D file " ++ filename)%string;
                          ("3D file " ++ filename ++ " loaded.")%string]
                      ++ l
        else if fileGood w filename
             then ReadFile w filename = None ∧ scene s' = None
                  ∧ cout s'
                    = cout s ++ [("Loading 3D file " ++ filename)%string;
                                 GetErrorString w filename]
             else scene s' = scene s
                  ∧ cout s' = cout s ++ ["Unable to open the 3D file."%string]
  | Exit _ _ => False
  | Fault _ =>
      ∃ sc, fileGood w filename = true ∧ ReadFile w filename = Some sc
            ∧ scene_wf sc = false
  end.
Proof.
  unfold load3DFile. destruct (fileGood w filename) eqn:Hgood.
  - run. run. run.
    change (scene (set_scene (ReadFile w filename)
                     (set_cout (cout s ++ [("Loading 3D file "
                                            ++ filename)%string]) s)))
      with (ReadFile w filename).
    destruct (ReadFile w filename) as [sc|] eqn:Hread.
    + run.
      match goal with
      | |- match bind _ _ ?st with _ => _ end => set (s1 := st)
      end.
      pose proof (printAiSceneInfo_cases w sc s1) as Hp.
      unfold bind.
      destruct (printAiSceneInfo w (Some sc) s1) as [[] s2| |];
        [|contradiction|eauto].
      destruct Hp as [l ->]. unfold ret. simpl.
      repeat (split; [reflexivity|]). split; [eauto|].
      exists l. now rewrite <- !app_assoc.
    + unfold bind, print, modify, ret. simpl. rewrite ?Hgood.
      rewrite <- !app_assoc. repeat split; reflexivity.
  - unfold bind, print, modify, ret. simpl. rewrite ?Hgood.
    repeat split; reflexivity.
Qed.


(** ** Faces with more indices than the first *)

Lemma copyIndex_overflow face k x done cap s :
  0 <= k → aiFace.mIndices face !! Z.to_nat k = Some x →
  faceArray s = Some (filled done cap) → length done = cap →
  copyIndex face k (Z.of_nat (length done)) s
  = Fault (OutOfBounds "faceArray" (Z.of_nat cap)).
Proof.
  intros Hk Hx Hfa Hcap. unfold copyIndex.
  erewrite bind_Ret by (apply index_Ret; eassumption). run.
  rewrite Hfa. unfold store. rewrite length_filled by lia.
  destruct (Z.ltb_spec (Z.of_nat (length done)) (Z.of_nat cap)); [lia|].
  rewrite andb_false_r. unfold bind, raise. now rewrite Hcap.
Qed.

Lemma copyIndices_overflow face cap :
  ∀ rest pre done s,
    aiFace.mIndices face = pre ++ rest →
    faceArray s = Some (filled done cap) →
    (length done <= cap)%nat → (cap < length done + length rest)%nat →
    Z.of_nat cap <= CInt.INT_MAX →
    iterate (length rest) (Z.of_nat (length pre)) (copyIndex face)
      (Z.of_nat (length done)) s
    = Fault (OutOfBounds "faceArray" (Z.of_nat cap)).
Proof.
  induction rest as [|x rest IH]; intros pre done s Hix Hfa Hle Hover Hmax.
  - simpl in Hover. lia.
  - simpl length in *. rewrite iterate_S.
    assert (Hx : aiFace.mIndices face !! Z.to_nat (Z.of_nat (length pre))
                 = Some x).
    { rewrite Nat2Z.id, Hix. now apply list_lookup_middle. }
    destruct (decide (length done = cap)) as [Heq|Hne].
    + apply bind_Fault. apply copyIndex_overflow with (x := x); auto; lia.
    + erewrite bind_Ret
        by (apply copyIndex_run with (x := x) (cap := cap);
            try eassumption; lia).
      replace (Z.of_nat (length pre) + 1)
        with (Z.of_nat (length (pre ++ [x])))
        by (rewrite length_app; simpl; lia).
      apply IH.
      * now rewrite <- app_assoc.
      * reflexivity.
      * rewrite length_app. simpl. lia.
      * rewrite length_app. simpl. lia.
      * exact Hmax.
Qed.

Lemma copyFaces_overflow m cap :
  ∀ rest pre done s,
    aiMesh.mFaces m = pre ++ rest →
    forallb face_wf rest = true →
    faceArray s = Some (filled done cap) →
    (length done <= cap)%nat →
    (cap < length done + length (concat (map aiFace.mIndices rest)))%nat →
    Z.of_nat cap <= CInt.INT_MAX →
    iterate (length rest) (Z.of_nat (length pre)) (copyFace m)
      (Z.of_nat (length done)) s
    = Fault (OutOfBounds "faceArray" (Z.of_nat cap)).
Proof.
  induction rest as [|face rest IH]; intros pre done s Hfs Hwf Hfa Hle Hover Hmax.
  - simpl in Hover. lia.
  - simpl in Hwf. apply andb_prop in Hwf as [Hface Hwf].
    simpl map in *. simpl concat in *. rewrite length_app in Hover.
    simpl length. rewrite iterate_S.
    assert (Hlook : aiMesh.mFaces m !! Z.to_nat (Z.of_nat (length pre))
                    = Some face).
    { rewrite Nat2Z.id, Hfs. now apply list_lookup_middle. }
    destruct (le_lt_dec (length done + length (aiFace.mIndices face)) cap)
      as [Hfit|Hout].
    + erewrite bind_Ret
        by (apply copyFace_run with (face := face) (cap := cap);
            try eassumption; lia).
      replace (Z.of_nat (length pre) + 1)
        with (Z.of_nat (length (pre ++ [face])))
        by (rewrite length_app; simpl; lia).
      apply IH.
      * now rewrite <- app_assoc.
      * exact Hwf.
      * reflexivity.
      * rewrite length_app. lia.
      * rewrite length_app. lia.
      * exact Hmax.
    + apply bind_Fault. unfold copyFace.
      erewrite bind_Ret by (apply index_Ret; [lia | eassumption]).
      apply counts_spec in Hface as [-> _]. unfold for_loop. rewrite Nat2Z.id.
      now apply (copyIndices_overflow face cap (aiFace.mIndices face) []).
Qed.

Lemma flattenFaces_overflow m s :
  mesh_wf m = true → aiMesh.HasFaces m = true →
  allocated m < indexTotal m → allocated m <= CInt.INT_MAX →
  flattenFaces m s = Fault (OutOfBounds "faceArray" (allocated m)).
Proof.
  intros Hwf Hhas Hover Hmax.
  apply mesh_wf_spec in Hwf as (_ & [HF HFmax] & Hfaces).
  unfold aiMesh.HasFaces in Hhas.
  destruct (aiMesh.mFaces m) as [|face0 faces] eqn:Hfs; [discriminate|].
  pose proof (indexTotal_length m) as Htot. rewrite Hfs in Htot.
  specialize (Htot Hfaces).
  assert (Hal : 0 <= allocated m).
  { unfold allocated, firstFaceIndices. rewrite Hfs.
    simpl in Hfaces. apply andb_prop in Hfaces as [Hf0 _].
    apply counts_spec in Hf0 as [Hf0 _]. nia. }
  unfold flattenFaces. rewrite Hfs.
  erewrite bind_Ret by reflexivity. cbv beta.
  rewrite (malloc_allocated m face0 faces Hfs) by lia.
  run. unfold for_loop. rewrite HF, Nat2Z.id, <- Hfs.
  rewrite (copyFaces_overflow m (Z.to_nat (allocated m)) (aiMesh.mFaces m)
             [] [] _).
  - do 2 f_equal. lia.
  - reflexivity.
  - now rewrite Hfs.
  - reflexivity.
  - simpl. lia.
  - simpl. fold (faceIndices m). lia.
  - lia.
Qed.

(** X6: When the faces of a mesh have more indices in all than
    [mNumFaces * mFaces[0].mNumIndices], the copy loop writes past the end
    of [faceArray]: the first write outside the block is at the index equal
    to the size of the block. *)
Theorem flattening_overflows (m : aiMesh.t) (s : State) :
  mesh_wf m = true → aiMesh.HasFaces m = true →
  allocated m < indexTotal m → allocated m <= CInt.INT_MAX →
  flattenFaces m s = Fault (OutOfBounds "faceArray" (allocated m)).
Proof. apply flattenFaces_overflow. Qed.

Lemma flattening_overflows_witness :
  flattenFaces raggedMesh (startup 16)
  = Fault (OutOfBounds "faceArray" (allocated raggedMesh)).
Proof.
  apply (flattening_overflows raggedMesh (startup 16)); vm_compute;
    congruence.
Defined.






(** ** When the traversal returns *)

Lemma drawMesh_cases g sc a node i :
  g_scene g = Some sc → g_vaoArray g = Some a → 0 <= i →
  match aiNode.mMeshes node !! Z.to_nat i with
  | Some m =>
      if drawn sc a m
      then ∃ d, issues g (drawMesh node i) d []
      else ∃ f, ∀ t, globals t = g → drawMesh node i t = Fault f
  | None => ∃ f, ∀ t, globals t = g → drawMesh node i t = Fault f
  end.
Proof.
  intros Hsc Ha Hi.
  destruct (aiNode.mMeshes node !! Z.to_nat i) as [m|] eqn:Hm.
  2:{ eexists. intros t _. unfold drawMesh, bind, index.
      destruct (Z.leb_spec 0 i); [|lia]. rewrite Hm. reflexivity. }
  unfold drawn.
  destruct (Z.leb_spec 0 (CInt.int_of_u32 m)) as [H0|H0]; simpl.
  2:{ eexists. intros t <-. unfold drawMesh.
      erewrite bind_Ret by (apply index_Ret; eassumption). cbv beta zeta. run.
      simpl in Ha. rewrite Ha. unfold load, bind, index.
      destruct (Z.leb_spec 0 (CInt.int_of_u32 m)); [lia|]. reflexivity. }
  assert (Hbad : ∀ c, a !! Z.to_nat (CInt.int_of_u32 m) = Some c →
            (∀ v, c ≠ UInt v) →
            ∃ f, ∀ t, globals t = g → drawMesh node i t = Fault f).
  { intros c Hc Hnot. eexists. intros t <-. unfold drawMesh.
    erewrite bind_Ret by (apply index_Ret; eassumption). cbv beta zeta. run.
    simpl in Ha. rewrite Ha. unfold load.
    erewrite bind_Fault; [reflexivity|].
    erewrite bind_Ret by (apply index_Ret; eassumption).
    destruct c as [|u|bits]; try reflexivity. now destruct (Hnot u). }
  destruct (a !! Z.to_nat (CInt.int_of_u32 m)) as [[|v|bits]|] eqn:Hc.
  1:{ apply (Hbad Indeterminate); [reflexivity|discriminate]. }
  2:{ apply (Hbad (Float bits)); [reflexivity|discriminate]. }
  2:{ eexists. intros t <-. unfold drawMesh.
      erewrite bind_Ret by (apply index_Ret; eassumption). cbv beta zeta. run.
      simpl in Ha. rewrite Ha. unfold load, bind, index.
      destruct (Z.leb_spec 0 (CInt.int_of_u32 m)); [|lia]. rewrite Hc.
      reflexivity. }
  clear Hbad.
  destruct (aiScene.mMeshes sc !! Z.to_nat (CInt.int_of_u32 m))
    as [mesh|] eqn:Hmesh.
  2:{ eexists. intros t <-. unfold drawMesh.
      erewrite bind_Ret by (apply index_Ret; eassumption). cbv beta zeta. run.
      simpl in Ha, Hsc. rewrite Ha.
      erewrite bind_Ret by (apply load_Ret; eassumption).
      run. rewrite Hsc. erewrite bind_Ret by reflexivity. cbv beta.
      unfold bind, index.
      destruct (Z.leb_spec 0 (CInt.int_of_u32 m)); [|lia]. rewrite Hmesh.
      reflexivity. }
  destruct (aiMesh.mFaces mesh) as [|face0 faces] eqn:Hfaces.
  - eexists. intros t <-. unfold drawMesh.
    erewrite bind_Ret by (apply index_Ret; eassumption). cbv beta zeta. run.
    simpl in Ha, Hsc. rewrite Ha.
    erewrite bind_Ret by (apply load_Ret; eassumption).
    run. rewrite Hsc. erewrite bind_Ret by reflexivity. cbv beta.
    erewrite bind_Ret by (apply index_Ret; eassumption). cbv beta zeta.
    rewrite Hfaces. reflexivity.
  - eexists. intros t <-. unfold drawMesh.
    erewrite bind_Ret by (apply index_Ret; eassumption). cbv beta zeta. run.
    simpl in Ha, Hsc. rewrite Ha.
    erewrite bind_Ret by (apply load_Ret; eassumption).
    run. rewrite Hsc. erewrite bind_Ret by reflexivity. cbv beta.
    erewrite bind_Ret by (apply index_Ret; eassumption). cbv beta zeta.
    rewrite Hfaces. run. run.
    unfold gl_do, modify. f_equal. apply drawCalls_emit.
Qed.

Lemma firstAll_O {A} (ok : A → bool) a : firstAll ok 0 a = true.
Proof. now destruct a. Qed.

Lemma drawLoop_cases g sc a node :
  g_scene g = Some sc → g_vaoArray g = Some a →
  ∀ count rest pre,
    aiNode.mMeshes node = pre ++ rest →
    if firstAll (drawn sc a) count rest
    then ∃ d, issues g (iterate count (Z.of_nat (length pre))
                          (fun i _ => drawMesh node i) tt) d []
    else ∃ f, ∀ t, globals t = g →
                   iterate count (Z.of_nat (length pre))
                     (fun i _ => drawMesh node i) tt t = Fault f.
Proof.
  intros Hsc Ha count.
  induction count as [|count IH]; intros rest pre Hms.
  - rewrite firstAll_O. exists []. apply issues_ret.
  - pose proof (drawMesh_cases g sc a node (Z.of_nat (length pre)) Hsc Ha)
      as Hstep.
    rewrite Nat2Z.id, Hms in Hstep. specialize (Hstep ltac:(lia)).
    destruct rest as [|m rest]; cbn [firstAll].
    + rewrite app_nil_r, lookup_ge_None_2 in Hstep by lia.
      destruct Hstep as [f Hf]. exists f. intros t Ht.
      rewrite iterate_S. apply bind_Fault. now apply Hf.
    + rewrite list_lookup_middle in Hstep by reflexivity.
      specialize (IH rest (pre ++ [m])).
      rewrite <- app_assoc in IH. specialize (IH Hms).
      replace (Z.of_nat (length (pre ++ [m])))
        with (Z.of_nat (length pre) + 1) in IH
        by (rewrite length_app; simpl; lia).
      rewrite iterate_S. revert Hstep IH.
      destruct (drawn sc a m), (firstAll (drawn sc a) count rest);
        cbn [andb]; intros Hstep IH.
      * destruct Hstep as [d1 H1], IH as [d2 H2]. exists (d1 ++ d2).
        change (@nil string) with (@nil string ++ []).
        now apply issues_bind.
      * destruct Hstep as [d1 H1], IH as [f Hf]. exists f. intros t Ht.
        rewrite (bind_Ret _ _ _ _ _ (H1 t Ht)). now apply Hf.
      * destruct Hstep as [f Hf]. exists f. intros t Ht.
        apply bind_Fault. now apply Hf.
      * destruct Hstep as [f Hf]. exists f. intros t Ht.
        apply bind_Fault. now apply Hf.
Qed.

Lemma forChildren_cases g sc a cs :
  Forall (fun child =>
            match child with
            | Some c =>
                if traversable sc a c
                then ∃ d l, issues g (visitNode c) d l
                else ∃ f, ∀ t, globals t = g → visitNode c t = Fault f
            | None => True
            end) cs →
  ∀ count j,
    if firstAll (fun child => match child with
                              | None => true
                              | Some c => traversable sc a c
                              end) count cs
    then ∃ d l, issues g (forChildren (print nullNodeMessage) visitNode cs
                            count j) d l
    else ∃ f, ∀ t, globals t = g →
                   forChildren (print nullNodeMessage) visitNode cs count j t
                   = Fault f.
Proof.
  induction 1 as [|child cs Hc _ IH]; intros [|count] j; cbn [firstAll].
  - exists [], []. apply issues_ret.
  - eexists. intros t _. reflexivity.
  - exists [], []. apply issues_ret.
  - specialize (IH count (j + 1)). cbn [forChildren].
    assert (Hchild : if match child with
                        | None => true
                        | Some c => traversable sc a c
                        end
                     then ∃ d l, issues g match child with
                                          | Some c => visitNode c
                                          | None => print nullNodeMessage
                                          end d l
                     else ∃ f, ∀ t, globals t = g →
                                    match child with
                                    | Some c => visitNode c
                                    | None => print nullNodeMessage
                                    end t = Fault f).
    { destruct child as [c|]; [exact Hc|]. eexists _, _. apply issues_print. }
    revert Hchild IH.
    destruct (match child with
              | None => true
              | Some c => traversable sc a c
              end),
      (firstAll (fun child => match child with
                              | None => true
                              | Some c => traversable sc a c
                              end) count cs);
      cbn [andb]; intros Hchild IH.
    + destruct Hchild as (d1 & l1 & H1), IH as (d2 & l2 & H2).
      exists (d1 ++ d2), (l1 ++ l2). now apply issues_bind.
    + destruct Hchild as (d1 & l1 & H1), IH as [f Hf]. exists f. intros t Ht.
      rewrite (bind_Ret _ _ _ _ _ (H1 t Ht)). now apply Hf.
    + destruct Hchild as [f Hf]. exists f. intros t Ht.
      apply bind_Fault. now apply Hf.
    + destruct Hchild as [f Hf]. exists f. intros t Ht.
      apply bind_Fault. now apply Hf.
Qed.

Lemma traversable_eq sc a node :
  traversable sc a node
  = firstAll (drawn sc a) (Z.to_nat (aiNode.mNumMeshes node))
      (aiNode.mMeshes node)
    && firstAll (fun child => match child with
                              | None => true
                              | Some c => traversable sc a c
                              end)
         (Z.to_nat (aiNode.mNumChildren node)) (aiNode.mChildren node).
Proof. now destruct node. Qed.

Lemma visitNode_cases g sc a node :
  g_scene g = Some sc → g_vaoArray g = Some a →
  if traversable sc a node
  then ∃ d l, issues g (visitNode node) d l
  else ∃ f, ∀ t, globals t = g → visitNode node t = Fault f.
Proof.
  intros Hsc Ha.
  induction node as [nm ms nc cs IH] using aiNode_ind.
  rewrite traversable_eq, visitNode_eq.
  cbn [aiNode.mNumMeshes aiNode.mMeshes aiNode.mNumChildren aiNode.mChildren].
  pose proof (drawLoop_cases g sc a (aiNode.mk nm ms nc cs) Hsc Ha
                (Z.to_nat nm) ms [] eq_refl) as Hloop.
  pose proof (forChildren_cases g sc a cs IH (Z.to_nat nc) 0) as Hkids.
  unfold for_loop. cbn [length] in Hloop. change (Z.of_nat 0) with 0 in Hloop.
  revert Hloop Hkids.
  destruct (firstAll (drawn sc a) (Z.to_nat nm) ms),
    (firstAll (fun child => match child with
                            | None => true
                            | Some c => traversable sc a c
                            end) (Z.to_nat nc) cs);
    cbn [andb]; intros Hloop Hkids.
  - destruct Hloop as [d1 H1], Hkids as (d2 & l2 & H2).
    exists (d1 ++ d2), ([] ++ l2). now apply issues_bind.
  - destruct Hloop as [d1 H1], Hkids as [f Hf]. exists f. intros t Ht.
    rewrite (bind_Ret _ _ _ _ _ (H1 t Ht)). now apply Hf.
  - destruct Hloop as [f Hf]. exists f. intros t Ht.
    apply bind_Fault. now apply Hf.
  - destruct Hloop as [f Hf]. exists f. intros t Ht.
    apply bind_Fault. now apply Hf.
Qed.

(** X10: The traversal returns exactly when all it reads is there: at every
    node it reaches, the first [mNumMeshes] attached indices and the first
    [mNumChildren] child pointers exist and each attached index, read as an
    [int], is inside the handle table, at a handle that has been written,
    and inside the mesh collection, at a mesh that has a first face.
    Otherwise it stops on a fault; it never ends the process. *)
Theorem traversal_returns_iff (s : State) (sc : aiScene.t) (a : list cell)
    (node : aiNode.t) :
  scene s = Some sc → vaoArray s = Some a →
  ((∃ s', nodeTreeTraversal (Some node) s = Ret tt s')
   ↔ traversable sc a node = true)
  ∧ (traversable sc a node = false
     ↔ ∃ f, nodeTreeTraversal (Some node) s = Fault f).
Proof.
  intros Hsc Ha.
  pose proof (visitNode_cases (globals s) sc a node Hsc Ha) as H.
  simpl. destruct (traversable sc a node).
  - destruct H as (d & l & H). specialize (H s eq_refl).
    split; split; try discriminate; eauto.
    intros [f Hf]. simpl in Hf. congruence.
  - destruct H as [f Hf]. specialize (Hf s eq_refl).
    split; split; eauto; try discriminate.
    intros [s' Hs']. simpl in Hs'. congruence.
Qed.

Lemma traversal_returns_iff_witness :
  ((∃ s', nodeTreeTraversal (Some exampleRoot) exampleReady = Ret tt s')
   ↔ traversable exampleScene [UInt 1; UInt 2] exampleRoot = true)
  ∧ (traversable exampleScene [UInt 1; UInt 2] exampleRoot = false
     ↔ ∃ f, nodeTreeTraversal (Some exampleRoot) exampleReady = Fault f).
Proof.
  apply (traversal_returns_iff exampleReady exampleScene [UInt 1; UInt 2]
           exampleRoot); reflexivity.
Defined.

(** ** The index buffer and the draw call *)

Lemma indexStore_parts m :
  forallb face_wf (aiMesh.mFaces m) = true → indexTotal m <= allocated m →
  Z.of_nat (length (indexStore m)) = allocated m
  ∧ take (length (faceIndices m)) (indexStore m) = map UInt (faceIndices m)
  ∧ drop (length (faceIndices m)) (indexStore m)
    = repeat Indeterminate (Z.to_nat (allocated m - indexTotal m)).
Proof.
  intros Hwf Hfit.
  pose proof (length_indexStore m Hwf Hfit) as Hlen.
  pose proof (indexTotal_length m Hwf) as Htot.
  split; [lia|]. unfold indexStore.
  split.
  - rewrite take_app_length'; [reflexivity | now rewrite length_map].
  - rewrite drop_app_length'; [reflexivity | now rewrite length_map].
Qed.

(** X9: When the scene loads, the index buffer [init] has bound in the vertex
    array object of a mesh with faces has exactly as many entries as the
    draw call of that mesh asks for, [mNumFaces * mFaces[0].mNumIndices].
    The indices of the faces come first; when the faces have fewer indices
    in all, the entries after them were never written. *)
Theorem draw_count_is_buffer_length (w : World) (maxAttribs : Z)
    (sc : aiScene.t) :
  fileGood w objectFileName = true → ReadFile w objectFileName = Some sc →
  scene_wf sc = true → scene_uploadable sc = true →
  ∃ s' a, init w (startup maxAttribs) = Ret tt s'
    ∧ vaoArray s' = Some a
    ∧ ∀ i m,
        aiScene.mMeshes sc !! i = Some m → aiMesh.HasFaces m = true →
        ∃ store,
          GL.elementStore (handle a (Z.of_nat i)) (gl s') = Some store
          ∧ Z.of_nat (length store) = drawCount sc (Z.of_nat i)
          ∧ take (length (faceIndices m)) store = map UInt (faceIndices m)
          ∧ drop (length (faceIndices m)) store
            = repeat Indeterminate (Z.to_nat (allocated m - indexTotal m)).
Proof.
  intros Hgood Hread Hwf Hup.
  destruct (init_run w (startup maxAttribs) maxAttribs sc eq_refl Hgood Hread
              Hwf Hup)
    as (s' & a & Hrun & _ & _ & _ & _ & Ha & _ & Hall).
  exists s', a. split; [exact Hrun|]. split; [exact Ha|].
  intros i m Hm Hhas.
  destruct (Hall i m Hm) as [Hv (va & Hva & Hf & _)].
  rewrite Hhas in Hf. destruct Hf as [_ Hstore].
  apply scene_wf_meshes in Hwf.
  unfold meshes_wf in Hwf. apply andb_prop in Hwf as [_ Hwf].
  pose proof (forallb_lookup _ _ _ _ Hwf Hm) as Hmwf.
  apply mesh_wf_spec in Hmwf as (_ & _ & Hfaces).
  pose proof (forallb_lookup _ _ _ _ Hup Hm) as Hmup.
  unfold mesh_uploadable in Hmup. rewrite Hhas in Hmup. simpl in Hmup.
  apply andb_prop in Hmup as [Hfit _]. apply Z.leb_le in Hfit.
  destruct (indexStore_parts m Hfaces Hfit) as (P1 & P2 & P3).
  exists (indexStore m).
  unfold handle, drawCount, GL.elementStore.
  rewrite !Nat2Z.id, Hv, Hm, Hva. simpl. auto.
Qed.

Lemma draw_count_is_buffer_length_witness :
  ∃ s' a, init (worldWith looseScene) (startup 16) = Ret tt s'
    ∧ vaoArray s' = Some a
    ∧ ∀ i m,
        aiScene.mMeshes looseScene !! i = Some m → aiMesh.HasFaces m = true →
        ∃ store,
          GL.elementStore (handle a (Z.of_nat i)) (gl s') = Some store
          ∧ Z.of_nat (length store) = drawCount looseScene (Z.of_nat i)
          ∧ take (length (faceIndices m)) store = map UInt (faceIndices m)
          ∧ drop (length (faceIndices m)) store
            = repeat Indeterminate (Z.to_nat (allocated m - indexTotal m)).
Proof.
  apply (draw_count_is_buffer_length (worldWith looseScene) 16 looseScene);
    reflexivity.
Defined.

(** The example with faces of 3 and 2 indices: 6 entries for 5 indices,
    the last one indeterminate. *)
Example loose_index_buffer :
  ∃ s', init (worldWith looseScene) (startup 16) = Ret tt s'
        ∧ GL.elementStore 1 (gl s')
          = Some [UInt 0; UInt 1; UInt 2; UInt 0; UInt 1; Indeterminate]
        ∧ GL.draws (GL.commands
                      (gl match display s' with Ret _ t => t | _ => s' end))
          = [6].
Proof. eexists. split; [vm_compute; reflexivity|]. vm_compute. auto. Qed.

(** ** An attribute that the program does not have *)

(** X8: When [glGetAttribLocation] has returned -1, the positions of a mesh
    are still uploaded to a new buffer, the two attribute calls are issued
    with the index 4294967295, and no vertex array object is changed: the
    buffer is not the source of any attribute. *)
Theorem positions_without_attribute (m : aiMesh.t) (s : State) :
  mesh_wf m = true → 1 <= GL.nextBuffer (gl s) →
  vPos s = -1 → GL.maxVertexAttribs (gl s) <= CInt.UINT_MAX →
  ∃ s', uploadPositions m s = Ret tt s'
    ∧ GL.buffers (gl s') !! GL.nextBuffer (gl s) = Some (positions m)
    ∧ GL.vertexArrays (gl s') = GL.vertexArrays (gl s)
    ∧ GL.commands (gl s')
      = GL.commands (gl s)
        ++ [GL.Command "glGenBuffers" [1];
            GL.Command "glBindBuffer" [GL.GL_ARRAY_BUFFER; GL.nextBuffer (gl s)];
            GL.Command "glBufferData"
              [GL.GL_ARRAY_BUFFER;
               CInt.usize_mul (CInt.usize_mul CInt.sizeof_float 3)
                 (aiMesh.mNumVertices m)];
            GL.Command "glEnableVertexAttribArray" [4294967295];
            GL.Command "glVertexAttribPointer" [4294967295; 3]].
Proof.
  intros Hwf Hnb Hvp Hmax.
  apply mesh_wf_spec in Hwf as ([HN HNmax] & _ & _).
  destruct s as [p vp sc va fa co [ma nv nb vas bs vb ab cs] r].
  simpl in Hnb, Hvp, Hmax. subst vp. unfold uploadPositions.
  run. run.
  erewrite bind_Ret.
  2:{ unfold glBufferData. rewrite bufferData_exact; [reflexivity| |].
      - fold (positions m). rewrite length_positions, HN.
        unfold CInt.usize_mul, CInt.usize, CInt.sizeof_float, CInt.UINT_MAX in *.
        change (4 * 3) with 12. rewrite (Z.mod_small 12) by lia.
        rewrite Z.mod_small by lia.
        replace (12 * Z.of_nat (length (aiMesh.mVertices m)))
          with (Z.of_nat (3 * length (aiMesh.mVertices m)) * 4) by lia.
        rewrite Z.div_mul by lia. apply Nat2Z.id.
      - simpl. lia. }
  run. run. unfold gl_do, modify. eexists. split; [reflexivity|].
  fold (positions m). gl_eval.
  change (CInt.u32_of_int (-1)) with 4294967295.
  assert (Hv : (0 <=? 4294967295) && (4294967295 <? ma) = false).
  { unfold CInt.UINT_MAX in Hmax. apply andb_false_iff. right.
    apply Z.ltb_ge. lia. }
  rewrite Hv. gl_eval. rewrite Hv. gl_eval.
  rewrite lookup_insert_eq, <- !app_assoc. repeat split.
Qed.

Lemma positions_without_attribute_witness :
  ∃ s', uploadPositions exampleMesh0 (set_vPos (-1) (startup 16)) = Ret tt s'
    ∧ GL.buffers (gl s') !! GL.nextBuffer (gl (set_vPos (-1) (startup 16)))
      = Some (positions exampleMesh0)
    ∧ GL.vertexArrays (gl s')
      = GL.vertexArrays (gl (set_vPos (-1) (startup 16)))
    ∧ GL.commands (gl s')
      = GL.commands (gl (set_vPos (-1) (startup 16)))
        ++ [GL.Command "glGenBuffers" [1];
            GL.Command "glBindBuffer"
              [GL.GL_ARRAY_BUFFER;
               GL.nextBuffer (gl (set_vPos (-1) (startup 16)))];
            GL.Command "glBufferData"
              [GL.GL_ARRAY_BUFFER;
               CInt.usize_mul (CInt.usize_mul CInt.sizeof_float 3)
                 (aiMesh.mNumVertices exampleMesh0)];
            GL.Command "glEnableVertexAttribArray" [4294967295];
            GL.Command "glVertexAttribPointer" [4294967295; 3]].
Proof.
  apply (positions_without_attribute exampleMesh0 (set_vPos (-1) (startup 16)));
    vm_compute; congruence.
Defined.

(** ** The objects [init] creates *)

Lemma calls_app name c1 c2 :
  calls name (c1 ++ c2) = (calls name c1 + calls name c2)%nat.
Proof. unfold calls. now rewrite List.filter_app, length_app. Qed.

Lemma calls_snoc_other name cmds cmd :
  (∀ args, cmd ≠ GL.Command name args) →
  calls name (cmds ++ [cmd]) = calls name cmds.
Proof.
  intros Hne. rewrite calls_app. unfold calls at 2. simpl.
  destruct cmd as [v|n|n args]; simpl; try lia.
  destruct (bool_decide_reflect (n = name)) as [->|_]; simpl; [|lia].
  now destruct (Hne args).
Qed.

Lemma calls_snoc_same name cmds args :
  calls name (cmds ++ [GL.Command name args]) = S (calls name cmds).
Proof.
  rewrite calls_app. unfold calls at 2. simpl.
  rewrite bool_decide_eq_true_2 by reflexivity. simpl. lia.
Qed.

Lemma created_gl sc v b s g cmd :
  created sc v b s → GL.commands g = GL.commands (gl s) ++ [cmd] →
  notGen cmd = true → created sc v b (set_gl g s).
Proof.
  intros (Hsc & Hv & Hb) Hg Hq. unfold created. simpl. rewrite Hg.
  split; [now destruct sc|].
  rewrite !calls_snoc_other; [auto| |];
    intros args ->; simpl in Hq; discriminate.
Qed.

Lemma notGen_Command name args :
  name ≠ "glGenBuffers"%string → name ≠ "glGenVertexArrays"%string →
  notGen (GL.Command name args) = true.
Proof.
  intros H1 H2. simpl.
  now rewrite !bool_decide_eq_false_2 by assumption.
Qed.

Lemma created_glGenBuffers sc v b :
  hoare (created sc v b) glGenBuffers (fun _ => created sc v (S b)).
Proof.
  intros s (Hsc & Hv & Hb). unfold glGenBuffers, created. simpl.
  split; [now destruct sc|]. split.
  - now rewrite calls_snoc_other by discriminate.
  - now rewrite calls_snoc_same, Hb.
Qed.

Lemma created_glGenVertexArrays sc v b i :
  hoare (created sc v b) (glGenVertexArrays_vaoArray i)
    (fun _ => created sc (S v) b).
Proof.
  intros s (Hsc & Hv & Hb). unfold glGenVertexArrays_vaoArray, bind, get.
  cbv beta iota zeta. unfold GL.genVertexArray at 1. cbv beta iota zeta.
  destruct (pure_store "vaoArray" (vaoArray s) i (GL.nextVertexArray (gl s)))
    as [[a Ha]|[f Hf]].
  - rewrite Ha. unfold modify, created. simpl.
    split; [now destruct sc|]. split.
    + now rewrite calls_snoc_same, Hv.
    + now rewrite calls_snoc_other by discriminate.
  - now rewrite Hf.
Qed.

Section Created.
Variable sc : option aiScene.t.
Variables v b : nat.

Lemma created_cout s c : created sc v b s → created sc v b (set_cout c s).
Proof. exact (fun H => H). Qed.
Lemma created_program s p : created sc v b s → created sc v b (set_program p s).
Proof. exact (fun H => H). Qed.
Lemma created_vPos s p : created sc v b s → created sc v b (set_vPos p s).
Proof. exact (fun H => H). Qed.
Lemma created_vaoArray s a : created sc v b s → created sc v b (set_vaoArray a s).
Proof. exact (fun H => H). Qed.
Lemma created_faceArray s a :
  created sc v b s → created sc v b (set_faceArray a s).
Proof. exact (fun H => H). Qed.

Lemma created_bindVertexArray x : stable (created sc v b) (gl_do (GL.bindVertexArray x)).
Proof.
  apply (stable_bindVertexArray (created sc v b) notGen);
    [apply created_gl | reflexivity].
Qed.

Lemma created_bindBuffer tg x : stable (created sc v b) (gl_do (GL.bindBuffer tg x)).
Proof.
  apply (stable_bindBuffer (created sc v b) notGen);
    [apply created_gl | apply notGen_Command].
Qed.

Lemma created_glBufferData tg size data : stable (created sc v b) (glBufferData tg size data).
Proof.
  apply (stable_glBufferData (created sc v b) notGen); [apply created_gl|].
  now apply notGen_Command.
Qed.

Lemma created_attributes :
  stable (created sc v b) (s <- get ;;
         gl_do (GL.enableVertexAttribArray (CInt.u32_of_int (vPos s))) ;;
         gl_do (GL.vertexAttribPointer (CInt.u32_of_int (vPos s)))).
Proof.
  apply (stable_attributes (created sc v b) notGen);
    [apply created_gl | apply notGen_Command].
Qed.

Lemma created_flattenFaces m : stable (created sc v b) (flattenFaces m).
Proof. apply stable_flattenFaces, created_faceArray. Qed.

End Created.

Lemma created_uploadPositions sc v b m :
  hoare (created sc v b) (uploadPositions m) (fun _ => created sc v (S b)).
Proof.
  unfold uploadPositions.
  eapply hoare_bind; [apply created_glGenBuffers|]. intros buffer.
  eapply hoare_bind; [apply created_bindBuffer|]. intros ?.
  eapply hoare_bind; [apply created_glBufferData|]. intros ?.
  apply created_attributes.
Qed.

Lemma created_uploadFaces sc v b m :
  hoare (created sc v b) (uploadFaces m) (fun _ => created sc v (S b)).
Proof.
  unfold uploadFaces.
  eapply hoare_bind; [apply created_flattenFaces|]. intros ?.
  eapply hoare_bind; [apply created_glGenBuffers|]. intros buffer.
  eapply hoare_bind; [apply created_bindBuffer|]. intros ?.
  eapply hoare_bind with (R := fun _ => created sc v (S b)).
  { apply (stable_pure (created sc v (S b))), pure_index. }
  intros face0.
  eapply hoare_bind with (R := fun _ => created sc v (S b)).
  { apply (stable_get (created sc v (S b))). }
  intros s. apply created_glBufferData.
Qed.

Lemma created_uploadMesh sc v0 b0 k :
  hoare (created (Some sc) (v0 + k)
           (b0 + (withPositions (take k (aiScene.mMeshes sc))
                  + withFaces (take k (aiScene.mMeshes sc)))))
    (uploadMesh (Z.of_nat k))
    (fun _ => created (Some sc) (v0 + S k)
                (b0 + (withPositions (take (S k) (aiScene.mMeshes sc))
                       + withFaces (take (S k) (aiScene.mMeshes sc))))).
Proof.
  unfold uploadMesh.
  eapply hoare_bind; [apply hoare_get|]. intros s.
  eapply hoare_bind; [apply hoare_pure, pure_deref|].
  intros sc'. cbv beta.
  eapply hoare_bind.
  { eapply hoare_pure, pure_index. }
  intros m. cbv beta.
  set (b := (b0 + (withPositions (take k (aiScene.mMeshes sc))
                   + withFaces (take k (aiScene.mMeshes sc))))%nat).
  set (v := (v0 + k)%nat).
  replace (v0 + S k)%nat with (S v) by (unfold v; lia).
  set (bp := (if aiMesh.HasPositions m then S b else b)).
  set (bf := (if aiMesh.HasFaces m then S bp else bp)).
  apply hoare_weaken
    with (P := fun t => created (Some sc) v b t ∧ sc' = sc
                        ∧ aiScene.mMeshes sc !! k = Some m)
         (Q := fun _ t => created (Some sc) (S v) bf t
                          ∧ aiScene.mMeshes sc !! k = Some m).
  - eapply hoare_bind
      with (R := fun _ t => created (Some sc) (S v) b t
                            ∧ aiScene.mMeshes sc !! k = Some m).
    { intros t (Hc & _ & Hm).
      pose proof (created_glGenVertexArrays (Some sc) v b (Z.of_nat k) t Hc)
        as H.
      destruct (glGenVertexArrays_vaoArray (Z.of_nat k) t); auto. }
    intros ?.
    assert (Hkeep : ∀ {A} (c : M A) v' b' b'',
               hoare (created (Some sc) v' b') c
                 (fun _ => created (Some sc) v' b'') →
               hoare (fun t => created (Some sc) v' b' t
                               ∧ aiScene.mMeshes sc !! k = Some m) c
                 (fun _ t => created (Some sc) v' b'' t
                             ∧ aiScene.mMeshes sc !! k = Some m)).
    { intros A c v' b' b'' Hc t [Ht Hm]. specialize (Hc t Ht).
      destruct (c t); auto. }
    eapply hoare_bind; [apply Hkeep, (stable_get (created (Some sc) (S v) b))|].
    intros s'.
    eapply hoare_bind;
      [apply Hkeep, (stable_pure (created (Some sc) (S v) b)), pure_load|].
    intros vao.
    eapply hoare_bind; [apply Hkeep, created_bindVertexArray|]. intros ?.
    eapply hoare_bind with (R := fun _ t => created (Some sc) (S v) bp t
                                  ∧ aiScene.mMeshes sc !! k = Some m).
    { apply Hkeep. unfold bp. destruct (aiMesh.HasPositions m); simpl.
      - apply created_uploadPositions.
      - apply (stable_ret (created (Some sc) (S v) b)). }
    intros ?.
    eapply hoare_bind with (R := fun _ t => created (Some sc) (S v) bf t
                                  ∧ aiScene.mMeshes sc !! k = Some m).
    { apply Hkeep. unfold bf. destruct (aiMesh.HasFaces m); simpl.
      - apply created_uploadFaces.
      - apply (stable_ret (created (Some sc) (S v) bp)). }
    intros ?.
    eapply hoare_bind; [apply Hkeep, created_bindVertexArray|]. intros ?.
    eapply hoare_bind; [apply Hkeep, created_bindBuffer|]. intros ?.
    apply Hkeep, created_bindBuffer.
  - intros t (((-> & Hc) & Hderef) & Hidx).
    pose proof Hc as (Hsc & _).
    unfold deref in Hderef. rewrite Hsc in Hderef. injection Hderef as <-.
    apply index_inv_Ret in Hidx as [_ Hidx]. rewrite Nat2Z.id in Hidx.
    auto.
  - intros _ t [Hc Hm]. unfold bf, bp, b in Hc.
    rewrite (take_S_r _ _ _ Hm). unfold withPositions, withFaces in *.
    rewrite !List.filter_app, !length_app. simpl.
    destruct (aiMesh.HasPositions m), (aiMesh.HasFaces m); simpl;
      match type of Hc with
      | created _ _ ?x _ =>
          match goal with
          | |- created _ _ ?y _ => replace y with x by lia
          end
      end; exact Hc.
Qed.

Lemma hoare_count {A} (Inv : nat → State → Prop) (body : Z → A → M A) :
  (∀ k a, hoare (Inv k) (body (Z.of_nat k) a) (fun _ => Inv (S k))) →
  ∀ count k a,
    hoare (Inv k) (iterate count (Z.of_nat k) body a)
      (fun _ => Inv (k + count)%nat).
Proof.
  intros Hbody count. induction count as [|count IH]; intros k a.
  - intros s Hs. simpl. now rewrite Nat.add_0_r.
  - rewrite iterate_S. eapply hoare_bind; [apply Hbody|].
    intros a'. replace (Z.of_nat k + 1) with (Z.of_nat (S k)) by lia.
    replace (k + S count)%nat with (S k + count)%nat by lia. apply IH.
Qed.

Lemma created_init w v0 b0 :
  hoare (created None v0 b0) (init w)
                (fun _ s' =>
                   match loaded w with
                   | Some sc =>
                       created (Some sc)
                         (v0 + Z.to_nat (aiScene.mNumMeshes sc))
                         (b0 + (withPositions (uploaded sc)
                                + withFaces (uploaded sc))) s'
                   | None => created None v0 b0 s'
                   end).
Proof.
  unfold init.
  eapply hoare_bind with (R := fun _ => created None v0 b0).
  { apply (stable_buildShaders (created None v0 b0) notGen).
    - apply created_cout.
    - apply created_program.
    - apply created_vPos.
    - apply created_gl.
    - apply notGen_Command. }
  intros _.
  eapply hoare_bind
    with (R := fun (fileLoaded : bool) t =>
                 if fileLoaded
                 then ∃ sc, loaded w = Some sc ∧ created (Some sc) v0 b0 t
                 else loaded w = None ∧ created None v0 b0 t).
  { intros t (_ & Hv & Hb).
    pose proof (load3DFile_cases w objectFileName t) as Hc.
    destruct (load3DFile w objectFileName t) as [fileLoaded t'| |];
      [|exact Hc|exact I].
    destruct Hc as (_ & _ & _ & _ & Hgl & Hc). unfold loaded, created.
    rewrite Hgl. destruct fileLoaded.
    - destruct Hc as (-> & (sc & -> & Hsc) & _). eauto.
    - destruct (fileGood w objectFileName); [|auto].
      destruct Hc as (-> & _). auto. }
  intros [|]; cbn [negb].
  2:{ intros t [-> Ht]. exact Ht. }
  eapply hoare_bind; [apply hoare_get|]. intros s.
  eapply hoare_bind; [apply hoare_pure, pure_deref|]. intros sc.
  eapply hoare_bind
    with (R := fun _ t => loaded w = Some sc
                          ∧ created (Some sc) (v0 + 0)
                              (b0 + (withPositions (take 0 (aiScene.mMeshes sc))
                                     + withFaces (take 0 (aiScene.mMeshes sc)))) t).
  { intros t ((-> & sc' & Hl & Hc) & Hderef).
    pose proof Hc as (Hsc & _). unfold deref in Hderef.
    rewrite Hsc in Hderef. injection Hderef as <-.
    simpl. rewrite !Nat.add_0_r. auto. }
  intros _.
  eapply hoare_bind
    with (R := fun _ t => loaded w = Some sc
                          ∧ created (Some sc)
                              (v0 + Z.to_nat (aiScene.mNumMeshes sc))
                              (b0 + (withPositions (uploaded sc)
                                     + withFaces (uploaded sc))) t).
  { unfold for_loop, uploaded. change 0 with (Z.of_nat 0).
    intros t [Hl Ht].
    pose proof (hoare_count
                  (fun k => created (Some sc) (v0 + k)
                              (b0 + (withPositions (take k (aiScene.mMeshes sc))
                                     + withFaces (take k (aiScene.mMeshes sc)))))
                  (fun i (_ : unit) => uploadMesh i)
                  (fun k _ => created_uploadMesh sc v0 b0 k)
                  (Z.to_nat (aiScene.mNumMeshes sc)) 0%nat tt t Ht) as H.
    destruct (iterate _ _ _ _ t); auto. }
  intros _. intros t [Hl Ht]. rewrite Hl.
  revert t Ht.
  change (stable (created (Some sc) (v0 + Z.to_nat (aiScene.mNumMeshes sc))
                    (b0 + (withPositions (uploaded sc)
                           + withFaces (uploaded sc))))
            (gl_call "glEnable" [GL_DEPTH_TEST] ;;
             gl_call "glPolygonMode" [GL_FRONT_AND_BACK; GL_LINE] ;;
             gl_call "glClearColor" [] ;;
             checkOpenGLError w "init()")).
  repeat (apply stable_bind;
          [apply (stable_call _ notGen);
           [apply created_gl | apply notGen_Command | discriminate
            | discriminate]|]; intros _).
  apply stable_print_lines, created_cout.
Qed.

(** X5: Whenever [init] returns, it has asked the device for one vertex array
    name for each mesh of the scene it has loaded and for one buffer name
    for each of these meshes that has positions and one for each that has
    faces; for nothing when no scene was loaded. *)
Theorem init_creates_objects (w : World) (s : State) :
  match init w s with
  | Ret _ s' =>
      match loaded w with
      | Some sc =>
          calls "glGenVertexArrays" (GL.commands (gl s'))
          = (calls "glGenVertexArrays" (GL.commands (gl s))
             + Z.to_nat (aiScene.mNumMeshes sc))%nat
          ∧ calls "glGenBuffers" (GL.commands (gl s'))
            = (calls "glGenBuffers" (GL.commands (gl s))
               + (withPositions (uploaded sc) + withFaces (uploaded sc)))%nat
      | None =>
          calls "glGenVertexArrays" (GL.commands (gl s'))
          = calls "glGenVertexArrays" (GL.commands (gl s))
          ∧ calls "glGenBuffers" (GL.commands (gl s'))
            = calls "glGenBuffers" (GL.commands (gl s))
      end
  | Exit _ _ => False
  | Fault _ => True
  end.
Proof.
  pose proof (created_init w (calls "glGenVertexArrays" (GL.commands (gl s)))
                (calls "glGenBuffers" (GL.commands (gl s))) s) as H.
  unfold created in H.
  destruct (init w s) as [[] s'| |]; [|now apply H|exact I].
  destruct (loaded w); apply H; auto.
Qed.

(** ** The printers *)

Section Printers.
Import Utilities.

Lemma out_bind_write {A} items (k : unit → run A) :
  Utilities.bind (write items) k
  = match k tt with
    | Wrote out' b => Wrote (items ++ out') b
    | Stopped f => Stopped f
    end.
Proof. reflexivity. Qed.

Lemma out_bind_Wrote {A B} (c : run A) (k : A → run B) out a out' b :
  c = Wrote out a → k a = Wrote out' b →
  Utilities.bind c k = Wrote (out ++ out') b.
Proof. intros -> H. simpl. now rewrite H. Qed.

Lemma out_iterate_write items :
  ∀ count i,
    Utilities.iterate count i (fun _ => write items)
    = Wrote (concat (repeat items count)) tt.
Proof.
  induction count as [|count IH]; intros i; [reflexivity|].
  simpl. now rewrite IH.
Qed.

Lemma indent_run layer :
  indent layer = Wrote (repeat (Text "    ") (Z.to_nat layer)) tt.
Proof.
  unfold indent, Utilities.for_loop. rewrite out_iterate_write. f_equal.
  induction (Z.to_nat layer) as [|n IH]; [reflexivity|].
  simpl. now rewrite IH.
Qed.

(** *** The lines of an output *)

Lemma lines_line line rest :
  noEndl line → lines (line ++ Endl :: rest) = line :: lines rest.
Proof.
  induction 1 as [|x line Hx _ IH]; [reflexivity|].
  simpl. rewrite IH. now destruct x.
Qed.


Lemma says_app o1 h1 o2 h2 :
  says o1 h1 → says o2 h2 → says (o1 ++ o2) (h1 ++ h2).
Proof.
  intros H1 H2 rest. now rewrite <- !app_assoc, H1, H2.
Qed.

Lemma says_line line :
  noEndl line →
  says (line ++ [Endl]) (match header line with Some h => [h] | None => [] end).
Proof.
  intros Hline rest. unfold headers. rewrite <- app_assoc. simpl.
  rewrite lines_line by exact Hline. simpl. now destruct (header line).
Qed.

Lemma says_other line :
  noEndl line → header line = None → says (line ++ [Endl]) [].
Proof. intros Hline Hh. pose proof (says_line line Hline) as H. now rewrite Hh in H. Qed.

Lemma indentation_indent n tail :
  match tail with
  | Text s :: _ => s ≠ "    "%string
  | _ => True
  end →
  indentation (repeat (Text "    ") n ++ tail) = n
  ∧ drop n (repeat (Text "    ") n ++ tail) = tail.
Proof.
  intros Htail. induction n as [|n [IH1 IH2]].
  - split; [|reflexivity].
    destruct tail as [|[s| | |] tail]; try reflexivity.
    simpl. destruct (String.eqb_spec s "    "); [contradiction|reflexivity].
  - split; simpl; [now rewrite IH1 | exact IH2].
Qed.


Lemma header_other n tail :
  match tail with
  | Text s :: _ => s ≠ "    "%string ∧ s ≠ "node: "%string
  | _ => True
  end →
  header (repeat (Text "    ") n ++ tail) = None.
Proof.
  intros Htail. unfold header.
  destruct (indentation_indent n tail) as [-> ->].
  { destruct tail as [|[s| | |] tail]; try exact I. apply Htail. }
  destruct tail as [|[s| | |] tail]; try reflexivity.
  destruct tail as [|[name| | |] tail]; try reflexivity.
  destruct (String.eqb_spec s "node: "); [|reflexivity].
  now destruct Htail.
Qed.

Lemma noEndl_app l1 l2 : noEndl l1 → noEndl l2 → noEndl (l1 ++ l2).
Proof. apply Forall_app_2. Qed.

Lemma noEndl_indent n : noEndl (repeat (Text "    ") n).
Proof. induction n; constructor; [discriminate|assumption]. Qed.

(** *** The lines of a node *)

Lemma says_row n (a b c d : Z) :
  says (repeat (Text "    ") n
        ++ [Real a; Text ", "; Real b; Text ", "; Real c; Text ", "; Real d;
            Endl]) [].
Proof.
  change [Real a; Text ", "; Real b; Text ", "; Real c; Text ", "; Real d; Endl]
    with ([Real a; Text ", "; Real b; Text ", "; Real c; Text ", "; Real d]
          ++ [Endl]).
  rewrite app_assoc. apply says_other.
  - apply noEndl_app; [apply noEndl_indent|].
    repeat constructor; discriminate.
  - now apply header_other.
Qed.

Lemma says_row_then n (a b c d : Z) out hs :
  says out hs →
  says (repeat (Text "    ") n
        ++ [Real a; Text ", "; Real b; Text ", "; Real c; Text ", "; Real d;
            Endl] ++ out) hs.
Proof.
  intros H. rewrite app_assoc. change hs with ([] ++ hs).
  apply says_app; [apply says_row | exact H].
Qed.

Lemma printMatrix4x4_says matrix layer :
  ∃ out, printMatrix4x4 matrix layer = Wrote out tt ∧ says out [].
Proof.
  unfold printMatrix4x4. eexists. split.
  - do 7 (eapply out_bind_Wrote; [first [apply indent_run | reflexivity]|]).
    reflexivity.
  - do 3 apply says_row_then. apply says_row.
Qed.




Lemma fullNode_eq node layer :
  printNode node layer
  = Utilities.bind (indent layer) (fun _ =>
    Utilities.bind (write [Text "node: "; Text (Assimp.aiNode.mName node)])
      (fun _ =>
    Utilities.bind
      (if 0 <? Assimp.aiNode.mNumMeshes node then
         Utilities.bind (write [Text "(Linked with mesh "]) (fun _ =>
         Utilities.bind
           (Utilities.for_loop (Assimp.aiNode.mNumMeshes node)
              (fun i =>
                 Utilities.bind
                   (Utilities.index "node->mMeshes"
                      (Assimp.aiNode.mMeshes node) i)
                   (fun m => write [Text "#"; Unsigned m; Text " "])))
           (fun _ => write [Text ")"; Endl]))
       else write [Endl]) (fun _ =>
    Utilities.bind (indent layer) (fun _ =>
    Utilities.bind (write [Text "Transformation matrix"; Endl]) (fun _ =>
    Utilities.bind
      (printMatrix4x4 (Assimp.aiNode.mTransformation node) layer) (fun _ =>
    Utilities.bind (write [Endl]) (fun _ =>
    Utilities.forChildren (write nullNode)
      (fun child => printNode child (CInt.u32 (layer + 1)))
      (Assimp.aiNode.mChildren node)
      (Z.to_nat (Assimp.aiNode.mNumChildren node)) 0))))))).
Proof. now destruct node. Qed.












(** The headers of the example: the root, its first child, the child of
    that child, then the second child of the root. *)
Example example_headers :
  ∃ out, Utilities.printNodeTree (Some exampleTree) 0 = Utilities.Wrote out tt
         ∧ headers out = [(0, "root"); (1, "body"); (2, "head"); (1, "tail")]%nat
         ∧ length (lines out) = 28%nat.
Proof. eexists. split; [reflexivity|]. vm_compute. auto. Qed.

(** *** When the printers return *)

Lemma returns_bind {A B} (c : run A) (k : A → run B) :
  returns (Utilities.bind c k)
  = match c with
    | Wrote _ a => returns (k a)
    | Stopped _ => false
    end.
Proof. destruct c as [out a|f]; [|reflexivity]. simpl. now destruct (k a). Qed.

Lemma returns_write_bind {A} items (k : unit → run A) :
  returns (Utilities.bind (write items) k) = returns (k tt).
Proof. now rewrite returns_bind. Qed.

Lemma returns_bind_true {A B} (c : run A) (k : A → run B) :
  returns c = true → (∀ a, returns (k a) = true) →
  returns (Utilities.bind c k) = true.
Proof. intros Hc Hk. rewrite returns_bind. destruct c; [apply Hk|discriminate]. Qed.

Lemma returns_iterate_true body :
  (∀ i, returns (body i) = true) →
  ∀ count i, returns (Utilities.iterate count i body) = true.
Proof.
  intros Hbody count. induction count as [|count IH]; intros i; [reflexivity|].
  cbn [Utilities.iterate]. apply returns_bind_true; auto.
Qed.

Lemma returns_index {A} array (a : list A) i :
  0 <= i →
  Utilities.index array a i
  = match a !! Z.to_nat i with
    | Some x => Wrote [] x
    | None => Stopped (OutOfBounds array i)
    end.
Proof. intros Hi. unfold Utilities.index. now destruct (Z.leb_spec 0 i); [|lia]. Qed.

(** A loop whose body at [j] returns exactly when entry [j] of an array is
    there and satisfies [ok]. *)
Lemma returns_iterate {A} (a : list A) (ok : A → bool) body :
  (∀ j, 0 <= j →
        returns (body j) = match a !! Z.to_nat j with
                           | Some x => ok x
                           | None => false
                           end) →
  ∀ count pre rest,
    a = pre ++ rest →
    returns (Utilities.iterate count (Z.of_nat (length pre)) body)
    = firstAll ok count rest.
Proof.
  intros Hbody count. induction count as [|count IH]; intros pre rest Ha.
  - now rewrite firstAll_O.
  - cbn [Utilities.iterate]. rewrite returns_bind.
    pose proof (Hbody (Z.of_nat (length pre)) ltac:(lia)) as Hj.
    rewrite Nat2Z.id, Ha in Hj.
    destruct rest as [|x rest]; cbn [firstAll].
    + rewrite app_nil_r, lookup_ge_None_2 in Hj by lia.
      destruct (body (Z.of_nat (length pre))); [discriminate|reflexivity].
    + rewrite list_lookup_middle in Hj by reflexivity.
      destruct (body (Z.of_nat (length pre))) as [out []|f]; simpl in Hj;
        rewrite <- Hj; [|reflexivity].
      simpl.
      replace (Z.of_nat (length pre) + 1)
        with (Z.of_nat (length (pre ++ [x])))
        by (rewrite length_app; simpl; lia).
      apply IH. now rewrite <- app_assoc.
Qed.

Lemma returns_for_loop {A} (a : list A) (ok : A → bool) n body :
  (∀ j, 0 <= j →
        returns (body j) = match a !! Z.to_nat j with
                           | Some x => ok x
                           | None => false
                           end) →
  returns (Utilities.for_loop n body) = firstAll ok (Z.to_nat n) a.
Proof.
  intros Hbody. apply (returns_iterate a ok body Hbody (Z.to_nat n) [] a).
  reflexivity.
Qed.

(** The usual body: read entry [j], then do something that returns. *)
Lemma returns_read {A} array (a : list A) (use : Z → A → run unit) j :
  (∀ x, returns (use j x) = true) → 0 <= j →
  returns (Utilities.bind (Utilities.index array a j) (use j))
  = match a !! Z.to_nat j with
    | Some x => true
    | None => false
    end.
Proof.
  intros Huse Hj. rewrite returns_bind, returns_index by exact Hj.
  destruct (a !! Z.to_nat j); [apply Huse | reflexivity].
Qed.

Lemma returns_indent layer : returns (indent layer) = true.
Proof. now rewrite indent_run. Qed.

Lemma returns_printMatrix4x4 matrix layer :
  returns (printMatrix4x4 matrix layer) = true.
Proof.
  destruct (printMatrix4x4_says matrix layer) as (out & -> & _). reflexivity.
Qed.

Lemma returns_forChildren onNull visit cs :
  returns onNull = true →
  ∀ count j,
    returns (Utilities.forChildren onNull visit cs count j)
    = firstAll (fun child => match child with
                             | None => true
                             | Some c => returns (visit c)
                             end) count cs.
Proof.
  intros Hnull. induction cs as [|child cs IH]; intros [|count] j;
    cbn [Utilities.forChildren firstAll]; try reflexivity.
  rewrite returns_bind.
  destruct child as [c|].
  - destruct (visit c) as [out []|f]; [apply IH | reflexivity].
  - destruct onNull as [out []|f]; [apply IH | discriminate].
Qed.

Lemma firstAll_ext {A} (f g : A → bool) (a : list A) :
  Forall (fun x => f x = g x) a →
  ∀ count, firstAll f count a = firstAll g count a.
Proof.
  induction 1 as [|x a Hx _ IH]; intros [|count]; cbn [firstAll];
    try reflexivity.
  now rewrite Hx, IH.
Qed.

Lemma returns_printNode node :
  ∀ layer, returns (printNode node layer) = readable node.
Proof.
  induction node as [name matrix nm ms nc cs IH] using fullNode_ind.
  intros layer. rewrite fullNode_eq.
  cbn [Assimp.aiNode.mName Assimp.aiNode.mNumMeshes Assimp.aiNode.mMeshes
       Assimp.aiNode.mTransformation Assimp.aiNode.mChildren
       Assimp.aiNode.mNumChildren readable].
  rewrite returns_bind, indent_run, returns_write_bind, returns_bind.
  assert (Hlinks : returns
                     (if 0 <? nm
                      then Utilities.bind (write [Text "(Linked with mesh "])
                             (fun _ =>
                              Utilities.bind
                                (Utilities.for_loop nm
                                   (fun i =>
                                      Utilities.bind
                                        (Utilities.index "node->mMeshes" ms i)
                                        (fun m => write [Text "#"; Unsigned m;
                                                         Text " "])))
                                (fun _ => write [Text ")"; Endl]))
                      else write [Endl])
                   = firstAll (fun _ => true) (Z.to_nat nm) ms).
  { destruct (Z.ltb_spec 0 nm) as [Hpos|Hzero].
    - rewrite returns_write_bind, returns_bind.
      rewrite <- (returns_for_loop ms (fun _ => true) nm
                    (fun i => Utilities.bind
                                (Utilities.index "node->mMeshes" ms i)
                                (fun m => write [Text "#"; Unsigned m;
                                                 Text " "]))).
      + now destruct (Utilities.for_loop nm _) as [out []|f].
      + intros j Hj.
        now apply (returns_read "node->mMeshes" ms
                     (fun _ m => write [Text "#"; Unsigned m; Text " "])).
    - replace (Z.to_nat nm) with 0%nat by lia. now rewrite firstAll_O. }
  revert Hlinks.
  match goal with
  | |- returns ?c = _ → _ => destruct c as [outL []|f]
  end; intros <-; [|reflexivity].
  cbn [andb returns].
  rewrite returns_bind. cbv iota beta.
  rewrite returns_write_bind, returns_bind.
  destruct (printMatrix4x4_says matrix layer) as (outM & -> & _).
  rewrite returns_write_bind, returns_forChildren by reflexivity.
  apply firstAll_ext.
  eapply Forall_impl; [exact IH|]. intros [c|]; auto.
Qed.

Lemma returns_printNodeTree node layer :
  returns (printNodeTree node layer)
  = match node with Some n => readable n | None => true end.
Proof. destruct node; [apply returns_printNode | reflexivity]. Qed.

Lemma returns_seq (c k : run unit) :
  returns (Utilities.bind c (fun _ => k)) = returns c && returns k.
Proof. rewrite returns_bind. now destruct c. Qed.

Lemma returns_when b c :
  returns (Utilities.when b c) = implb b (returns c).
Proof. now destruct b. Qed.

Lemma returns_present {A} array (a : list A) n (use : Z → A → run unit) :
  (∀ j x, returns (use j x) = true) →
  returns (Utilities.for_loop n
             (fun j => Utilities.bind (Utilities.index array a j) (use j)))
  = present n a.
Proof.
  intros Huse. apply returns_for_loop. intros j Hj.
  now apply returns_read.
Qed.

Lemma returns_faces (m : Assimp.aiMesh.t) :
  returns
    (Utilities.for_loop (Assimp.aiMesh.mNumFaces m)
       (fun j =>
          Utilities.bind (write [Text (tab ++ "face #"); Unsigned j; Text ": "])
            (fun _ =>
          Utilities.bind (Utilities.index "mFaces" (Assimp.aiMesh.mFaces m) j)
            (fun face =>
          Utilities.bind
            (Utilities.for_loop (aiFace.mNumIndices face)
               (fun k =>
                  Utilities.bind
                    (Utilities.index "mIndices" (aiFace.mIndices face) k)
                    (fun x => write [Unsigned x; Text ", "])))
            (fun _ => write [Endl])))))
  = firstAll (fun face => present (aiFace.mNumIndices face)
                            (aiFace.mIndices face))
      (Z.to_nat (Assimp.aiMesh.mNumFaces m)) (Assimp.aiMesh.mFaces m).
Proof.
  apply returns_for_loop. intros j Hj.
  rewrite returns_write_bind, returns_bind, returns_index by exact Hj.
  destruct (Assimp.aiMesh.mFaces m !! Z.to_nat j) as [face|]; [|reflexivity].
  rewrite returns_seq, andb_true_r.
  now apply (returns_present "mIndices" (aiFace.mIndices face)
               (aiFace.mNumIndices face)
               (fun _ x => write [Unsigned x; Text ", "])).
Qed.

Lemma returns_printMesh option i m :
  returns (printMesh option i m) = meshReadable option m.
Proof.
  unfold printMesh, meshReadable.
  rewrite !returns_write_bind.
  rewrite !returns_seq, andb_true_r.
  assert (Hblock : ∀ (has : bool) items items' loop,
            returns (if has
                     then Utilities.bind (write items)
                            (fun _ => Utilities.when (detail option) loop)
                     else write items')
            = negb (detail option) || implb has (returns loop)).
  { intros has items items' loop.
    destruct has, (detail option); try reflexivity.
    now rewrite returns_write_bind. }
  rewrite !Hblock.
  rewrite (returns_present "mVertices" (Assimp.aiMesh.mVertices m)
             (Assimp.aiMesh.mNumVertices m)
             (fun _ v => write [Text (tab ++ "vertex ("); Real (aiVector3D.x v);
                                Text ", "; Real (aiVector3D.y v); Text ", ";
                                Real (aiVector3D.z v); Text ")"; Endl]))
    by reflexivity.
  rewrite (returns_present "mNormals" (Assimp.aiMesh.mNormals m)
             (Assimp.aiMesh.mNumVertices m)
             (fun _ v => write [Text (tab ++ "normal ("); Real (aiVector3D.x v);
                                Text ", "; Real (aiVector3D.y v); Text ", ";
                                Real (aiVector3D.z v); Text ")"; Endl]))
    by reflexivity.
  rewrite (returns_present "mTextureCoords[0]" (Assimp.aiMesh.channel m 0)
             (Assimp.aiMesh.mNumVertices m)
             (fun _ v => write [Text (tab ++ "texture coordinates (");
                                Real (aiVector3D.x v); Text ", ";
                                Real (aiVector3D.y v); Text ")"; Endl]))
    by reflexivity.
  rewrite returns_faces.
  destruct (detail option); [|reflexivity].
  cbn [negb orb]. now rewrite !andb_assoc.
Qed.

Lemma returns_printColor label color : returns (printColor label color) = true.
Proof. reflexivity. Qed.

Lemma returns_printTextures sc i material type countLabel fileLabel :
  0 <= i → Assimp.aiScene.mMaterials sc !! Z.to_nat i = Some material →
  returns (printTextures sc i material type countLabel fileLabel) = true.
Proof.
  intros Hi Hm. unfold printTextures. rewrite returns_write_bind.
  apply returns_iterate_true. intros k.
  rewrite returns_bind, returns_index, Hm by exact Hi.
  now destruct (Assimp.aiMaterial.GetTexture material type k).
Qed.

Lemma returns_printMaterial sc i :
  0 <= i →
  returns (printMaterial sc i)
  = match Assimp.aiScene.mMaterials sc !! Z.to_nat i with
    | Some _ => true
    | None => false
    end.
Proof.
  intros Hi. unfold printMaterial.
  rewrite returns_write_bind, returns_bind, returns_index by exact Hi.
  destruct (Assimp.aiScene.mMaterials sc !! Z.to_nat i) as [m|] eqn:Hm;
    [|reflexivity].
  cbv zeta.
  rewrite returns_write_bind.
  rewrite !returns_seq, !returns_printColor, !returns_printTextures
    by assumption.
  reflexivity.
Qed.

Lemma returns_printLight i light : returns (printLight i light) = true.
Proof.
  unfold printLight. cbv zeta.
  destruct (Assimp.aiLight.mType light =? Assimp.aiLightSource_POINT),
    (Assimp.aiLight.mType light =? Assimp.aiLightSource_DIRECTIONAL),
    (Assimp.aiLight.mType light =? Assimp.aiLightSource_SPOT); reflexivity.
Qed.

Lemma returns_printCamera i camera : returns (printCamera i camera) = true.
Proof.
  unfold printCamera. rewrite !returns_write_bind.
  rewrite !returns_seq, returns_printMatrix4x4. reflexivity.
Qed.

Lemma returns_printTexture i texture : returns (printTexture i texture) = true.
Proof. reflexivity. Qed.

Lemma returns_section {A} (has : bool) title total n (a : list A)
    (ok : A → bool) body :
  (∀ j, 0 <= j →
        returns (body j) = match a !! Z.to_nat j with
                           | Some x => ok x
                           | None => false
                           end) →
  returns (Utilities.when has
             (Utilities.bind (write title) (fun _ =>
              Utilities.bind (write total) (fun _ =>
              Utilities.for_loop n body))))
  = implb has (firstAll ok (Z.to_nat n) a).
Proof.
  intros Hbody. rewrite returns_when, !returns_write_bind.
  now rewrite (returns_for_loop a ok n body Hbody).
Qed.

Lemma returns_printAiSceneInfo sc option :
  returns (printAiSceneInfo (Some sc) option) = sceneReadable option sc.
Proof.
  unfold printAiSceneInfo, sceneReadable, present.
  rewrite returns_write_bind, !returns_seq, returns_printNodeTree.
  rewrite (returns_section _ _ _ _
             (Assimp.aiScene.mMeshes sc) (meshReadable option)).
  2:{ intros j Hj. rewrite returns_bind, returns_index by exact Hj.
      destruct (Assimp.aiScene.mMeshes sc !! Z.to_nat j);
        [apply returns_printMesh | reflexivity]. }
  rewrite (returns_section _ _ _ _
             (Assimp.aiScene.mMaterials sc) (fun _ => true)).
  2:{ intros j Hj. rewrite returns_printMaterial by exact Hj.
      now destruct (Assimp.aiScene.mMaterials sc !! Z.to_nat j). }
  rewrite (returns_section _ _ _ _
             (Assimp.aiScene.mLights sc) (fun _ => true)).
  2:{ intros j Hj. rewrite returns_bind, returns_index by exact Hj.
      destruct (Assimp.aiScene.mLights sc !! Z.to_nat j);
        [apply returns_printLight | reflexivity]. }
  rewrite (returns_section _ _ _ _
             (Assimp.aiScene.mCameras sc) (fun _ => true)).
  2:{ intros j Hj. rewrite returns_bind, returns_index by exact Hj.
      destruct (Assimp.aiScene.mCameras sc !! Z.to_nat j);
        [apply returns_printCamera | reflexivity]. }
  rewrite (returns_section _ _ _ _
             (Assimp.aiScene.mTextures sc) (fun _ => true)).
  2:{ intros j Hj. rewrite returns_bind, returns_index by exact Hj.
      destruct (Assimp.aiScene.mTextures sc !! Z.to_nat j);
        [apply returns_printTexture | reflexivity]. }
  rewrite returns_when.
  change (returns (write [Endl; Text "Has animation"; Endl])) with true.
  rewrite implb_true_r, andb_true_r, !andb_assoc. reflexivity.
Qed.

(** X15: [printAiSceneInfo] returns exactly on the scenes whose arrays hold what
    their counts announce: the node tree, with the detail option the
    vertices, normals, texture coordinates, faces and indices of the meshes,
    and the materials, lights, cameras and textures.  On every other scene
    it reads past the end of an array. *)
Theorem printAiSceneInfo_returns_iff (sc : Assimp.aiScene.t)
    (option : Utilities.AiScenePrintOption) :
  ((∃ out, Utilities.printAiSceneInfo (Some sc) option
           = Utilities.Wrote out tt)
   ↔ sceneReadable option sc = true)
  ∧ ((∃ f, Utilities.printAiSceneInfo (Some sc) option
            = Utilities.Stopped f)
     ↔ sceneReadable option sc = false).
Proof.
  rewrite <- returns_printAiSceneInfo.
  destruct (printAiSceneInfo (Some sc) option) as [out []|f]; cbn [returns].
  - split; split; try discriminate; eauto. intros [f Hf]. discriminate.
  - split; split; try discriminate; eauto. intros [out Hout]. discriminate.
Qed.

Lemma firstAll_impl {A} (f g : A → bool) (a : list A) :
  (∀ x, f x = true → g x = true) →
  ∀ count, firstAll f count a = true → firstAll g count a = true.
Proof.
  intros Hfg. induction a as [|x a IH]; intros [|count]; cbn [firstAll];
    try (intros; assumption || reflexivity).
  intros [Hx Ha]%andb_true_iff. apply andb_true_iff. auto.
Qed.

Lemma sceneReadable_summary sc :
  sceneReadable PRINT_AISCENE_DETAIL sc = true →
  sceneReadable PRINT_AISCENE_SUMMARY sc = true.
Proof.
  unfold sceneReadable. rewrite !andb_true_iff.
  intros (((((Hroot & Hmeshes) & Hmat) & Hlights) & Hcam) & Htex).
  repeat split; try assumption.
  destruct (Assimp.aiScene.HasMeshes sc); [|reflexivity].
  cbn [implb] in *. revert Hmeshes. apply firstAll_impl. reflexivity.
Qed.

(** X16: A scene that [printAiSceneInfo] prints with the detail option is
    printed with the summary option as well. *)
Theorem summary_returns_when_detail_does (sc : Assimp.aiScene.t)
    (out : list Utilities.item) :
  Utilities.printAiSceneInfo (Some sc) Utilities.PRINT_AISCENE_DETAIL
  = Utilities.Wrote out tt →
  ∃ out', Utilities.printAiSceneInfo (Some sc) Utilities.PRINT_AISCENE_SUMMARY
          = Utilities.Wrote out' tt.
Proof.
  intros Hrun.
  assert (Hd : returns (printAiSceneInfo (Some sc) PRINT_AISCENE_DETAIL) = true)
    by now rewrite Hrun.
  rewrite returns_printAiSceneInfo in Hd. apply sceneReadable_summary in Hd.
  rewrite <- returns_printAiSceneInfo in Hd.
  destruct (printAiSceneInfo (Some sc) PRINT_AISCENE_SUMMARY) as [out' []|f];
    [eauto | discriminate].
Qed.

Lemma summary_returns_when_detail_does_witness :
  ∃ out', Utilities.printAiSceneInfo (Some exampleFullScene)
            Utilities.PRINT_AISCENE_SUMMARY
          = Utilities.Wrote out' tt.
Proof.
  apply (summary_returns_when_detail_does exampleFullScene
           (match printAiSceneInfo (Some exampleFullScene) PRINT_AISCENE_DETAIL
            with
            | Wrote out _ => out
            | Stopped _ => []
            end)).
  vm_compute. reflexivity.
Defined.

(** X17: A mesh whose [mPrimitiveTypes] combines two different primitive types
    is reported with the primitive type "unknown". *)
Theorem mixed_primitive_types_are_unknown (a b : Z) :
  In a Assimp.primitiveTypes → In b Assimp.primitiveTypes → a ≠ b →
  Utilities.primitiveType (Z.lor a b) = "unknown".
Proof.
  unfold Assimp.primitiveTypes. cbn [In].
  intros [<-|[<-|[<-|[<-|[]]]]] [<-|[<-|[<-|[<-|[]]]]] Hab;
    try reflexivity; now destruct Hab.
Qed.

Lemma mixed_primitive_types_are_unknown_witness :
  Utilities.primitiveType (Z.lor Assimp.aiPrimitiveType_LINE
                   Assimp.aiPrimitiveType_TRIANGLE) = "unknown".
Proof.
  apply (mixed_primitive_types_are_unknown Assimp.aiPrimitiveType_LINE
           Assimp.aiPrimitiveType_TRIANGLE);
    [vm_compute; auto | vm_compute; auto | vm_compute; congruence].
Defined.

End Printers.
